(** * VrmRigifyForUnity: the bone-graph pipeline of [vrm_rigify.py]

    A shallow embedding of the functions of
    [src/vrm_rigify_for_unity/vrm_rigify.py] that build the name restoration
    map, the role correspondence, prune and align the template skeleton,
    rewrite the generated rig and rename the vertex groups of a mesh, with
    the properties the specification states about them; and of the functions
    around them that give the source armature its names back, remove the
    facial bones of the generated rig, re-parent its bones for Unity and
    wire its eye bones, set the rotation axes of the template's limbs and
    spell the path of a bone, with further properties read off the code.

    Conventions.
    - Python exceptions are values of [exn]; a function that can raise
      returns a [result].  Indexing a collection by a name that is absent
      ([edit_bones[n]], [d[k]]) raises [KeyError]; a failed [assert] raises
      [AssertionError]; reading a local variable that was never assigned
      raises [UnboundLocalError]; dividing a float by zero raises
      [ZeroDivisionError]; the host reports the removal of a bone that is
      not in the armature as a [RuntimeError].
    - Python floats are IEEE 754 binary64 numbers: [PrimFloat.float].
      The host holds the coordinates of a bone in single precision: a
      coordinate that a script reads is such a number, and a number
      that a script writes to a coordinate is stored rounded
      ([to_single]).
    - A [dict] whose iteration order is observed is an insertion-ordered
      association list ([ODict.t]); a [dict] that is only looked up is a
      [gmap].
    - The host's objects are mutable and shared: the bones of an armature
      live in a store, a Python reference to a bone is its slot in the
      store, and a bone keeps its slot when it is renamed.
    - An attribute write [bone.attr = v] is a request to the host, and
      what the host makes of it is part of the model.  A name is stored
      as the host alters it where another bone, or another vertex
      group, bears it ([stored_name]).  A write to the head or to the
      tail of a bone moves the joint that the bone shares with a parent
      or a child it is connected to ([transform_update]; [use_connect]
      tells which bones are connected to their parents).  A parent that
      would close a cycle of parent links is refused, and the children
      of a removed bone are handed to its parent.  Two things the host
      does are left out: with a new parent, or when its parent is
      removed, a bone that is connected to its parent is moved or
      disconnected; and the X-mirror option of an armature, which is
      off in an armature as the host makes it, would move the mirrored
      bone with a bone that is written. *)

From Stdlib Require Import ZArith Floats Ascii String.
From stdpp Require Import base option list gmap strings.

Open Scope string_scope.
Open Scope list_scope.

#[local] Set Warnings "-clear-no-such-hyp".

(** ** Exceptions and results *)

Inductive exn : Type :=
| KeyError
| AssertionError
| AttributeError
| RuntimeError
| UnboundLocalError
| ZeroDivisionError.

Inductive result (A : Type) : Type :=
| Ok (a : A)
| Err (e : exn).
Arguments Ok {A} a.
Arguments Err {A} e.

#[global] Instance result_ret : MRet result := fun A a => Ok a.
#[global] Instance result_bind : MBind result := fun A B f r =>
  match r with
  | Ok a => f a
  | Err e => Err e
  end.

(** [d[k]] on a dictionary. *)
Definition dict_getitem `{Countable K} {V} (d : gmap K V) (k : K) : result V :=
  match d !! k with
  | Some v => Ok v
  | None => Err KeyError
  end.

(** [k in d] on a dictionary. *)
Definition dict_contains `{Countable K} {V} (d : gmap K V) (k : K) : bool :=
  bool_decide (is_Some (d !! k)).

(** [d.get(k, default)]. *)
Definition dict_get `{Countable K} {V} (d : gmap K V) (k : K) (default : V) : V :=
  match d !! k with
  | Some v => v
  | None => default
  end.

(** [enumerate(l)], counting from [start]. *)
Fixpoint enumerate_from {A} (start : nat) (l : list A) : list (nat * A) :=
  match l with
  | [] => []
  | x :: l' => (start, x) :: enumerate_from (S start) l'
  end.

Definition enumerate {A} (l : list A) : list (nat * A) := enumerate_from 0 l.

(** ** Insertion-ordered dictionaries *)

Module ODict.

Definition t (K V : Type) : Type := list (K * V).

(** [d[k] = v]: the value of an existing key is replaced where it
    stands, a new key goes to the end. *)
Fixpoint setitem `{EqDecision K} {V} (d : t K V) (k : K) (v : V) : t K V :=
  match d with
  | [] => [(k, v)]
  | (k', v') :: d' =>
      if decide (k' = k) then (k, v) :: d' else (k', v') :: setitem d' k v
  end.

(** [d.keys()] *)
Definition keys {K V} (d : t K V) : list K := d.*1.

(** [d.values()] *)
Definition values {K V} (d : t K V) : list V := d.*2.

End ODict.

(** ** Geometry *)

(** A [mathutils.Vector] of three components. *)
Definition vec3 : Type := float * float * float.

(** A 4x4 [mathutils.Matrix], as its four rows. *)
Definition row4 : Type := float * float * float * float.
Definition mat4 : Type := row4 * row4 * row4 * row4.

Definition zero3 : vec3 := (0%float, 0%float, 0%float).

(** The host holds the coordinates of a bone as single-precision
    numbers.  A coordinate that a script reads is such a number; a
    number that a script writes to a coordinate is stored as the
    single-precision number nearest to it, ties going to the even
    mantissa: [to_single]. *)
Definition to_single (x : float) : float :=
  match Prim2SF x with
  | S754_finite s m e => SF2Prim (binary_round 24 128 s m e)
  | _ => x
  end.

(** ** Skeletons *)

(** A [bpy.types.Bone] of the source (VRM) armature, read in object mode.
    [b_parent] is the name of [bone.parent], [None] for a root. *)
Record Bone : Type := mkBone {
  b_name : string;
  b_parent : option string;
  head_local : vec3;
  tail_local : vec3;
}.

(** A [bpy.types.EditBone].  A Python reference to an edit bone is the
    index of its slot in the armature's store (below); [eb_parent] is such
    a reference. *)
Record EditBone : Type := mkEditBone {
  eb_name : string;
  eb_parent : option nat;
  eb_head : vec3;
  eb_tail : vec3;
  use_deform : bool;
  eb_select : bool;
  eb_layers : list bool;
  eb_collections : list string;
}.

(** [armature.edit_bones]: a store of bones.  Slot [r] holds the bone that
    the reference [r] denotes, or [None] once that bone has been removed;
    a new bone takes the next slot, so the order of the slots is the
    order in which the host iterates over the collection. *)
Abbreviation edit_bones_t := (list (option EditBone)).

(** An armature object: its world matrix and its bones. *)
Record ArmatureObject : Type := mkArmatureObject {
  matrix_world : mat4;
  edit_bones : edit_bones_t;
}.

(** The bone behind a reference, if it is still in the armature. *)
Definition deref (bones : edit_bones_t) (r : nat) : option EditBone :=
  mjoin (bones !! r).

(** [for bone in armature.edit_bones]: the references of the bones in the
    armature, in order, each with the bone as it is when the loop starts.
    The host's iterator has moved on to the next bone before the loop body
    runs, so a body that removes or changes only the bone it visits
    meets every bone exactly once. *)
Fixpoint edit_bones_iter_from (start : nat) (bones : edit_bones_t)
  : list (nat * EditBone) :=
  match bones with
  | [] => []
  | Some b :: rest => (start, b) :: edit_bones_iter_from (S start) rest
  | None :: rest => edit_bones_iter_from (S start) rest
  end.

Definition edit_bones_iter (bones : edit_bones_t) : list (nat * EditBone) :=
  edit_bones_iter_from 0 bones.

(** The names of the bones of an armature, in the order of iteration. *)
Definition bone_names (bones : edit_bones_t) : list string :=
  (fun rb : nat * EditBone => eb_name rb.2) <$> edit_bones_iter bones.

(** The bone called [name]: its reference and the bone (the first one,
    should several bones bear the name). *)
Fixpoint edit_bones_find_from (start : nat) (bones : edit_bones_t) (name : string)
  : option (nat * EditBone) :=
  match bones with
  | [] => None
  | Some b :: rest =>
      if bool_decide (eb_name b = name) then Some (start, b)
      else edit_bones_find_from (S start) rest name
  | None :: rest => edit_bones_find_from (S start) rest name
  end.

Definition edit_bones_find (bones : edit_bones_t) (name : string)
  : option (nat * EditBone) :=
  edit_bones_find_from 0 bones name.

(** [name in armature.edit_bones] *)
Definition edit_bones_contains (bones : edit_bones_t) (name : string) : bool :=
  bool_decide (is_Some (edit_bones_find bones name)).

(** [armature.edit_bones[name]] *)
Definition edit_bones_getitem (bones : edit_bones_t) (name : string)
  : result (nat * EditBone) :=
  match edit_bones_find bones name with
  | Some rb => Ok rb
  | None => Err KeyError
  end.

(** An attribute write through a reference: [bone.attr = v]. *)
Definition edit_bones_update (bones : edit_bones_t) (r : nat)
    (f : EditBone → EditBone) : edit_bones_t :=
  match deref bones r with
  | Some b => <[r := Some (f b)]> bones
  | None => bones
  end.

Definition set_name (name : string) (b : EditBone) : EditBone :=
  mkEditBone name (eb_parent b) (eb_head b) (eb_tail b) (use_deform b)
             (eb_select b) (eb_layers b) (eb_collections b).
Definition set_parent (parent : option nat) (b : EditBone) : EditBone :=
  mkEditBone (eb_name b) parent (eb_head b) (eb_tail b) (use_deform b)
             (eb_select b) (eb_layers b) (eb_collections b).
Definition set_head (head : vec3) (b : EditBone) : EditBone :=
  mkEditBone (eb_name b) (eb_parent b) head (eb_tail b) (use_deform b)
             (eb_select b) (eb_layers b) (eb_collections b).
Definition set_tail (tail : vec3) (b : EditBone) : EditBone :=
  mkEditBone (eb_name b) (eb_parent b) (eb_head b) tail (use_deform b)
             (eb_select b) (eb_layers b) (eb_collections b).
Definition set_use_deform (v : bool) (b : EditBone) : EditBone :=
  mkEditBone (eb_name b) (eb_parent b) (eb_head b) (eb_tail b) v
             (eb_select b) (eb_layers b) (eb_collections b).
Definition set_select (v : bool) (b : EditBone) : EditBone :=
  mkEditBone (eb_name b) (eb_parent b) (eb_head b) (eb_tail b) (use_deform b)
             v (eb_layers b) (eb_collections b).
Definition set_layers (v : list bool) (b : EditBone) : EditBone :=
  mkEditBone (eb_name b) (eb_parent b) (eb_head b) (eb_tail b) (use_deform b)
             (eb_select b) v (eb_collections b).
Definition set_collections (v : list string) (b : EditBone) : EditBone :=
  mkEditBone (eb_name b) (eb_parent b) (eb_head b) (eb_tail b) (use_deform b)
             (eb_select b) (eb_layers b) v.

(** *** Names on the host

    The host keeps the names of the bones of an armature distinct, and
    likewise the names of the vertex groups of a mesh.  A name that is
    written is stored as it is given when the host can hold it and no
    other bone (or group) bears it; otherwise the host stores a name of
    its own making, which none of the others bears.  The host can hold
    a name as it is given when the name is not empty and has fewer than
    64 bytes. *)
Definition host_name (name : string) : bool :=
  negb (bool_decide (name = "")) && (String.length name <? 64)%nat.

Section Renaming.

(** [stored_name names old new]: the name that the host stores when
    the bone, or the vertex group, called [old] is given the name [new]
    while [names] are the names in use, [old] among them. *)
Variable stored_name : list string → string → string → string.

(** [bone.name = name] *)
Definition edit_bones_rename (bones : edit_bones_t) (r : nat) (name : string)
  : edit_bones_t :=
  edit_bones_update bones r
    (fun bone => set_name (stored_name (bone_names bones) (eb_name bone) name) bone).

End Renaming.

(** *** Joints on the host

    A bone can be connected to its parent ([bone.use_connect]): its
    head and the parent's tail are then one joint.  When a script writes
    the head or the tail of a bone (or one coordinate of either, or the
    bone's length), the host brings the joints of that bone together
    again: the tail of the parent follows the head of the bone if the
    bone is connected to it, and the head of every child that is
    connected to the bone follows the tail of the bone.  (With the
    armature's X-mirror option the host would move the mirrored bone as
    well; the option is off in an armature as the host makes it.) *)
Section Joints.

(** [use_connect r]: whether the bone behind the reference [r] is
    connected to its parent.  None of the functions that move bones
    writes this flag. *)
Variable use_connect : nat → bool.

Definition follow_tail (r : nat) (tail : vec3) (i : nat) (child : EditBone) : EditBone :=
  if bool_decide (eb_parent child = Some r) && use_connect i
  then set_head tail child else child.

(** What the host does after a write to the head or the tail of the
    bone behind [r]. *)
Definition transform_update (bones : edit_bones_t) (r : nat) : edit_bones_t :=
  match deref bones r with
  | Some bone =>
      let bones :=
        match eb_parent bone with
        | Some parent =>
            if use_connect r
            then edit_bones_update bones parent (set_tail (eb_head bone))
            else bones
        | None => bones
        end in
      match deref bones r with
      | Some bone => imap (fun i slot => follow_tail r (eb_tail bone) i <$> slot) bones
      | None => bones
      end
  | None => bones
  end.

(** A write [f] to the head or the tail of the bone behind [r], and
    what the host does after it. *)
Definition edit_bones_move (bones : edit_bones_t) (r : nat) (f : EditBone → EditBone)
  : edit_bones_t :=
  transform_update (edit_bones_update bones r f) r.

(** [bone.head = head] *)
Definition edit_bones_set_head (bones : edit_bones_t) (r : nat) (head : vec3)
  : edit_bones_t :=
  edit_bones_move bones r (set_head head).

(** [bone.tail = tail] *)
Definition edit_bones_set_tail (bones : edit_bones_t) (r : nat) (tail : vec3)
  : edit_bones_t :=
  edit_bones_move bones r (set_tail tail).

End Joints.

(** [armature.edit_bones.remove(bone)]: the bone leaves the armature and
    its children are handed to its parent; the host refuses a bone that
    is not in the armature. *)
Definition edit_bones_remove (bones : edit_bones_t) (r : nat) : result edit_bones_t :=
  match deref bones r with
  | Some b =>
      Ok ((fun slot : option EditBone =>
             (fun c : EditBone =>
                if bool_decide (eb_parent c = Some r)
                then set_parent (eb_parent b) c else c) <$> slot)
          <$> <[r := None]> bones)
  | None => Err RuntimeError
  end.

(** [armature.edit_bones.new(name)]: a bone with the host's defaults is
    added at the end; the reference to it is returned.  (The host would
    alter a name that is taken; the one caller asks for a free name.) *)
Definition edit_bones_new (bones : edit_bones_t) (name : string)
  : nat * edit_bones_t :=
  (List.length bones,
   bones ++ [Some (mkEditBone name None zero3 zero3 true false [] [])]).

(** [armature.bones[name]] on the source armature. *)
Definition bones_getitem (bones : list Bone) (name : string) : result Bone :=
  match list_find (fun b => bool_decide (b_name b = name)) bones with
  | Some (_, b) => Ok b
  | None => Err KeyError
  end.

(** ** The name restoration map *)

(** [store_original_bone_names]: every bone name is stored under
    itself, in the order of [armature.bones]. *)
Definition store_original_bone_names (bones : list Bone) : ODict.t string string :=
  foldl (fun d bone => ODict.setitem d (b_name bone) (b_name bone)) [] bones.

(** The first loop of [update_bone_name_mapping_after_rename]:
    [bone_indices[i] = bone_name] for the enumerated keys. *)
Definition record_bone_indices (original_bone_names : ODict.t string string)
  : gmap nat string :=
  foldl (fun d '(i, bone_name) => <[i := bone_name]> d) ∅
        (enumerate (ODict.keys original_bone_names)).

(** The second loop: a bone whose ordinal is recorded maps its current
    name to the recorded original name. *)
Fixpoint pair_bone_names (bone_indices : gmap nat string)
    (bones : list (nat * Bone)) (bone_name_mapping : gmap string string)
  : result (gmap string string) :=
  match bones with
  | [] => Ok bone_name_mapping
  | (i, bone) :: rest =>
      if dict_contains bone_indices i then
        original_name ← dict_getitem bone_indices i;
        pair_bone_names bone_indices rest
          (<[b_name bone := original_name]> bone_name_mapping)
      else pair_bone_names bone_indices rest bone_name_mapping
  end.

Definition update_bone_name_mapping_after_rename (bones : list Bone)
    (original_bone_names : ODict.t string string) : result (gmap string string) :=
  let bone_indices := record_bone_indices original_bone_names in
  pair_bone_names bone_indices (enumerate bones) ∅.

(** ** The role correspondence builder *)

(** [human_bone.node]: a bone property group.  [bone_name] is [None] when
    the object has no such attribute, and the empty string when the role
    is not bound to a bone. *)
Record BonePropertyGroup : Type := mkBonePropertyGroup {
  bone_name : option string;
}.

(** What [getattr(human_bones, bone_type, None)] returns. *)
Inductive HumanBoneAttr : Type :=
| AttrNone                                   (* the default, [None] *)
| AttrPlain                                  (* a property that has no [node] *)
| AttrHumanBone (node : BonePropertyGroup).  (* a human bone *)

(** The [human_bones] property group of an armature, after the automatic
    role assignment: its keys in the order [keys()] lists them, and its
    attributes. *)
Record HumanBones : Type := mkHumanBones {
  hb_keys : list string;
  hb_getattr : string → HumanBoneAttr;
}.

(** The two bookkeeping entries of [human_bones] that are not roles. *)
Definition reserved_bone_types : list string :=
  ["last_bone_names"; "initial_automatic_bone_assignment"].

(** Truth value of a Python string. *)
Definition str_truthy (s : string) : bool := negb (bool_decide (s = "")).

(** [node.bone_name] *)
Definition get_bone_name (node : BonePropertyGroup) : result string :=
  match bone_name node with
  | Some s => Ok s
  | None => Err AttributeError
  end.

(** The loop of [mapping_metarig_and_vrm_model_bones] over the keys that
    are still to be visited. *)
Fixpoint mapping_loop (metarig_human_bones vrm_human_bones : HumanBones)
    (bone_types : list string) (bone_mapping : list (string * string))
  : result (list (string * string)) :=
  match bone_types with
  | [] => Ok bone_mapping
  | bone_type :: rest =>
      if bool_decide (bone_type ∈ reserved_bone_types) then
        mapping_loop metarig_human_bones vrm_human_bones rest bone_mapping
      else
        match hb_getattr metarig_human_bones bone_type,
              hb_getattr vrm_human_bones bone_type with
        | AttrHumanBone metarig_bone, AttrHumanBone vrm_bone =>
            match bone_name vrm_bone with
            | Some vrm_name =>
                if str_truthy vrm_name then
                  metarig_name ← get_bone_name metarig_bone;
                  mapping_loop metarig_human_bones vrm_human_bones rest
                    (bone_mapping ++ [(metarig_name, vrm_name)])
                else
                  mapping_loop metarig_human_bones vrm_human_bones rest bone_mapping
            | None =>
                mapping_loop metarig_human_bones vrm_human_bones rest bone_mapping
            end
        | _, _ =>
            mapping_loop metarig_human_bones vrm_human_bones rest bone_mapping
        end
  end.

Definition mapping_metarig_and_vrm_model_bones
    (metarig_human_bones vrm_human_bones : HumanBones)
  : result (list (string * string)) :=
  mapping_loop metarig_human_bones vrm_human_bones
    (hb_keys metarig_human_bones) [].

(** ** The topology pruner *)

(** [re.match(r"^palm.*$", name)]: after the prefix, [.*] takes
    characters other than a line feed, and [$] holds at the end of the
    string or before a line feed that ends it. *)
Definition line_feed : ascii := ascii_of_nat 10.

Fixpoint dot_star_dollar (s : string) : bool :=
  match s with
  | EmptyString => true
  | String c rest =>
      if bool_decide (c = line_feed) then bool_decide (rest = "")
      else dot_star_dollar rest
  end.

Fixpoint strip_prefix (p s : string) : option string :=
  match p, s with
  | EmptyString, _ => Some s
  | String a p', String b s' =>
      if bool_decide (a = b) then strip_prefix p' s' else None
  | String _ _, EmptyString => None
  end.

Definition re_match_palm (name : string) : bool :=
  match strip_prefix "palm" name with
  | Some rest => dot_star_dollar rest
  | None => false
  end.

(** [matche_objects_by_name_patterns]: a pattern is given by its
    [re.match] test. *)
Definition matche_objects_by_name_patterns (objects : list (nat * EditBone))
    (patterns : list (string → bool)) : list (nat * EditBone) :=
  filter (fun node =>
            foldl (fun matches (pattern : string → bool) =>
                     matches || pattern (eb_name node.2)) false patterns = true)
         objects.

(** The first loop of [remove_or_log_unmapped_metarig_bones]. *)
Fixpoint remove_bones (to_remove : list (nat * EditBone)) (bones : edit_bones_t)
  : result edit_bones_t :=
  match to_remove with
  | [] => Ok bones
  | (r, _) :: rest =>
      bones' ← edit_bones_remove bones r;
      remove_bones rest bones'
  end.

(** The second loop, over the bones that are still to be visited. *)
Fixpoint remove_unmapped (mapped_metarig_bone_names : gset string)
    (to_visit : list (nat * EditBone)) (bones : edit_bones_t)
  : result edit_bones_t :=
  match to_visit with
  | [] => Ok bones
  | (r, metarig_bone) :: rest =>
      if bool_decide (eb_name metarig_bone ∈ mapped_metarig_bone_names) then
        remove_unmapped mapped_metarig_bone_names rest bones
      else if bool_decide (eb_name metarig_bone ∈ ["pelvis.L"; "pelvis.R"]) then
        bones' ← edit_bones_remove bones r;
        remove_unmapped mapped_metarig_bone_names rest bones'
      else if bool_decide (eb_name metarig_bone ∈ ["breast.L"; "breast.R"]) then
        bones' ← edit_bones_remove bones r;
        remove_unmapped mapped_metarig_bone_names rest bones'
      else if bool_decide (eb_name metarig_bone ∉ ["spine.003"]) then
        remove_unmapped mapped_metarig_bone_names rest bones
      else
        bones' ← edit_bones_remove bones r;
        remove_unmapped mapped_metarig_bone_names rest bones'
  end.

Definition remove_or_log_unmapped_metarig_bones (bones : edit_bones_t)
    (bone_mapping : list (string * string)) : result edit_bones_t :=
  let mapped_metarig_bone_names : gset string := list_to_set (bone_mapping.*1) in
  bones1 ← remove_bones
    (matche_objects_by_name_patterns (edit_bones_iter bones) [re_match_palm]) bones;
  remove_unmapped mapped_metarig_bone_names (edit_bones_iter bones1) bones1.

(** ** The geometric aligner *)

Section Aligner.

Variable use_connect : nat → bool.

(** The loop of [position_metarig_bones_to_vrm_model]. *)
Fixpoint position_bones (vrm_bones : list Bone)
    (bone_mapping : list (string * string)) (bones : edit_bones_t)
  : result edit_bones_t :=
  match bone_mapping with
  | [] => Ok bones
  | (metarig_bone_name, vrm_bone_name) :: rest =>
      metarig_bone ← edit_bones_getitem bones metarig_bone_name;
      vrm_bone ← bones_getitem vrm_bones vrm_bone_name;
      let bones := edit_bones_update bones metarig_bone.1 (set_select true) in
      let bones := edit_bones_set_head use_connect bones metarig_bone.1 (head_local vrm_bone) in
      let bones := edit_bones_set_tail use_connect bones metarig_bone.1 (tail_local vrm_bone) in
      position_bones vrm_bones rest bones
  end.

(** The source armature object, read in object mode. *)
Record SourceObject : Type := mkSourceObject {
  src_matrix_world : mat4;
  src_bones : list Bone;
}.

Definition position_metarig_bones_to_vrm_model (metarig : ArmatureObject)
    (vrm_object : SourceObject) (bone_mapping : list (string * string))
  : result ArmatureObject :=
  let metarig := mkArmatureObject (src_matrix_world vrm_object) (edit_bones metarig) in
  bones ← position_bones (src_bones vrm_object) bone_mapping (edit_bones metarig);
  Ok (mkArmatureObject (matrix_world metarig) bones).

End Aligner.

(** ** The post-generation rig rewriter *)

(** Truth value of an optional dictionary: [None] and the empty
    dictionary are false. *)
Definition mapping_truthy (bone_name_mapping : option (gmap string string)) : bool :=
  match bone_name_mapping with
  | Some m => negb (bool_decide (m = ∅))
  | None => false
  end.

(** *** Deformation rename *)

(** The name a renamed rig bone receives:
    [bone_name_mapping[vrm_bone_name]] when the mapping is given and has
    the key, [vrm_bone_name] otherwise. *)
Definition rename_target (bone_name_mapping : option (gmap string string))
    (vrm_bone_name : string) : result string :=
  match bone_name_mapping with
  | Some m =>
      if mapping_truthy bone_name_mapping && dict_contains m vrm_bone_name
      then dict_getitem m vrm_bone_name
      else Ok vrm_bone_name
  | None => Ok vrm_bone_name
  end.

(** The bone a correspondence pair addresses, with the rig after the
    deform flag has been forced (eyes) or asserted (all others). *)
Definition rename_select (bones : edit_bones_t) (metarig_bone_name : string)
  : result (nat * edit_bones_t) :=
  if bool_decide (metarig_bone_name ∈ ["eye.L"; "eye.R"]) then
    rig_bone ← edit_bones_getitem bones ("ORG-" +:+ metarig_bone_name);
    Ok (rig_bone.1, edit_bones_update bones rig_bone.1 (set_use_deform true))
  else
    rig_bone ← edit_bones_getitem bones ("DEF-" +:+ metarig_bone_name);
    if use_deform rig_bone.2 then Ok (rig_bone.1, bones) else Err AssertionError.

Section DeformationRename.

Variable stored_name : list string → string → string → string.

(** One turn of the loop over the correspondence pairs. *)
Definition rename_pair (bone_name_mapping : option (gmap string string))
    (bones : edit_bones_t) (names : string * string) : result edit_bones_t :=
  let '(metarig_bone_name, vrm_bone_name) := names in
  selected ← rename_select bones metarig_bone_name;
  target_name ← rename_target bone_name_mapping vrm_bone_name;
  Ok (edit_bones_rename stored_name selected.2 selected.1 target_name).

Fixpoint rename_pairs (bone_name_mapping : option (gmap string string))
    (bone_mapping : list (string * string)) (bones : edit_bones_t)
  : result edit_bones_t :=
  match bone_mapping with
  | [] => Ok bones
  | names :: rest =>
      bones' ← rename_pair bone_name_mapping bones names;
      rename_pairs bone_name_mapping rest bones'
  end.

(** The closing loop: the first bone called ["root"] becomes ["Root"]. *)
Fixpoint rename_root (to_visit : list (nat * EditBone)) (bones : edit_bones_t)
  : edit_bones_t :=
  match to_visit with
  | [] => bones
  | (r, bone) :: rest =>
      if bool_decide (eb_name bone = "root")
      then edit_bones_rename stored_name bones r "Root"
      else rename_root rest bones
  end.

Definition rename_rig_bones_to_match_vrm_model_vertex_groups
    (bones : edit_bones_t) (bone_mapping : list (string * string))
    (bone_name_mapping : option (gmap string string)) : result edit_bones_t :=
  bones' ← rename_pairs bone_name_mapping bone_mapping bones;
  Ok (rename_root (edit_bones_iter bones') bones').

End DeformationRename.

(** *** Grafting of the unmapped source bones *)

(** [bone_name_mapping.get(name, name) if bone_name_mapping else name] *)
Definition original_name_of (bone_name_mapping : option (gmap string string))
    (name : string) : string :=
  match bone_name_mapping with
  | Some m => if mapping_truthy bone_name_mapping then dict_get m name name else name
  | None => name
  end.

(** [collection.assign(bone)] for a collection given by its name. *)
Definition collection_assign (b : EditBone) (collection : string) : EditBone :=
  if bool_decide (collection ∈ eb_collections b) then b
  else set_collections (eb_collections b ++ [collection]) b.

(** The loop of [attach_unmapped_vrm_model_bones_to_rig] over the source
    bones that are still to be visited; [blender_version] is the host's
    major version.  (The reverse mapping that the function builds before
    the loop is never read.  The new bone has no parent and no child
    when its head and its tail are written, and the host makes a bone
    unconnected: these writes move no joint.) *)
Fixpoint attach_bones (blender_version : nat)
    (bone_name_mapping : option (gmap string string))
    (vrm_bones : list Bone) (bones : edit_bones_t) : result edit_bones_t :=
  match vrm_bones with
  | [] => Ok bones
  | vrm_bone :: rest =>
      let vrm_bone_name := b_name vrm_bone in
      let original_name := original_name_of bone_name_mapping vrm_bone_name in
      let bone_already_in_rig := edit_bones_contains bones original_name in
      let vrm_bone_has_parent := bool_decide (is_Some (b_parent vrm_bone)) in
      if bone_already_in_rig || negb vrm_bone_has_parent then
        attach_bones blender_version bone_name_mapping rest bones
      else
        vrm_parent_name ← match b_parent vrm_bone with
                           | Some n => Ok n
                           | None => Err AttributeError
                           end;
        let parent_original_name := original_name_of bone_name_mapping vrm_parent_name in
        let parent_exists_in_rig := edit_bones_contains bones parent_original_name in
        if negb parent_exists_in_rig then
          attach_bones blender_version bone_name_mapping rest bones
        else
          parent_bone_in_rig ← edit_bones_getitem bones parent_original_name;
          let '(bone_in_rig, bones) := edit_bones_new bones original_name in
          let bones := edit_bones_update bones bone_in_rig (set_head (head_local vrm_bone)) in
          let bones := edit_bones_update bones bone_in_rig (set_tail (tail_local vrm_bone)) in
          let bones := edit_bones_update bones bone_in_rig (set_parent (Some parent_bone_in_rig.1)) in
          if (blender_version <=? 3)%nat then
            let bones := edit_bones_update bones bone_in_rig
                           (set_layers (eb_layers parent_bone_in_rig.2)) in
            attach_bones blender_version bone_name_mapping rest bones
          else
            let bones := edit_bones_update bones bone_in_rig
                           (fun b => foldl collection_assign b
                                       (eb_collections parent_bone_in_rig.2)) in
            attach_bones blender_version bone_name_mapping rest bones
  end.

Definition attach_unmapped_vrm_model_bones_to_rig (blender_version : nat)
    (bones : edit_bones_t) (vrm_bones : list Bone)
    (bone_name_mapping : option (gmap string string)) : result edit_bones_t :=
  attach_bones blender_version bone_name_mapping vrm_bones bones.

(** *** Eye control derivation *)

(** Python's [a != b] and [a / b] on floats. *)
Definition float_ne (a b : float) : bool := negb (a =? b)%float.

Definition py_div (a b : float) : result float :=
  if (b =? 0)%float then Err ZeroDivisionError else Ok (a / b)%float.

(** Reading a local variable. *)
Definition read_local {A} (v : option A) : result A :=
  match v with
  | Some a => Ok a
  | None => Err UnboundLocalError
  end.

Definition vec_set_x (v : vec3) (x : float) : vec3 := (x, v.1.2, v.2).
Definition vec_set_z (v : vec3) (z : float) : vec3 := (v.1.1, v.1.2, z).

(** [bone.head.x = x] and the like: one coordinate of the head or of
    the tail is written. *)
Definition write_head_x (x : float) (b : EditBone) : EditBone :=
  set_head (vec_set_x (eb_head b) (to_single x)) b.
Definition write_head_z (z : float) (b : EditBone) : EditBone :=
  set_head (vec_set_z (eb_head b) (to_single z)) b.
Definition write_tail_x (x : float) (b : EditBone) : EditBone :=
  set_tail (vec_set_x (eb_tail b) (to_single x)) b.
Definition write_tail_z (z : float) (b : EditBone) : EditBone :=
  set_tail (vec_set_z (eb_tail b) (to_single z)) b.

(** The locals that the first loop of
    [modify_rigify_rig_eyes_control_bones] assigns: for ["master_eye.L"]
    the world-space head [(m_head_x1, m_head_y1, m_head_z1)] and tail
    [(m_tail_x2, m_tail_y2, m_tail_z2)], for ["eye.L"] the world-space head
    [(e_head_x3, e_head_y3, head_z3)] and [e_head_length].  A group is
    [None] until a bone of that name is met. *)
Record eye_locals : Type := mkEyeLocals {
  master_eye : option (vec3 * vec3);
  left_eye : option (vec3 * float);
}.

Section EyeControls.

(** The host's arithmetic on its own single-precision data:
    [matrix @ vector], reading [bone.length] and writing it. *)
Variable mat_vec : mat4 → vec3 → vec3.
Variable bone_length : EditBone → float.
Variable set_bone_length : float → EditBone → EditBone.
Variable use_connect : nat → bool.

(** The first loop; [obj_matrix_world] is [bpy.context.object.matrix_world]. *)
Fixpoint read_eye_bones (obj_matrix_world : mat4)
    (to_visit : list (nat * EditBone)) (locals : eye_locals) : eye_locals :=
  match to_visit with
  | [] => locals
  | (_, rig_bone) :: rest =>
      if bool_decide (eb_name rig_bone = "master_eye.L") then
        read_eye_bones obj_matrix_world rest
          (mkEyeLocals (Some (mat_vec obj_matrix_world (eb_head rig_bone),
                              mat_vec obj_matrix_world (eb_tail rig_bone)))
                       (left_eye locals))
      else if bool_decide (eb_name rig_bone = "eye.L") then
        read_eye_bones obj_matrix_world rest
          (mkEyeLocals (master_eye locals)
                       (Some (mat_vec obj_matrix_world (eb_head rig_bone),
                              bone_length rig_bone)))
      else read_eye_bones obj_matrix_world rest locals
  end.

(** [x_a]: the slope along x, 0 when its denominator is zero. *)
Definition eye_x_a (locals : eye_locals) : result float :=
  m ← read_local (master_eye locals);
  let '((m_head_x1, m_head_y1, _), (m_tail_x2, m_tail_y2, _)) := m in
  if float_ne (m_tail_x2 - m_head_x1) 0
  then py_div (m_tail_y2 - m_head_y1) (m_tail_x2 - m_head_x1)
  else Ok 0%float.

(** [x_position] *)
Definition eye_x_position (locals : eye_locals) : result float :=
  x_a ← eye_x_a locals;
  m ← read_local (master_eye locals);
  let '((m_head_x1, m_head_y1, _), _) := m in
  let x_b := (m_head_y1 - x_a * m_head_x1)%float in
  if float_ne x_a 0 then
    e ← read_local (left_eye locals);
    let '((_, e_head_y3, _), _) := e in
    py_div (e_head_y3 - x_b) x_a
  else Ok m_head_x1.

(** [z_a] and [z_position] *)
Definition eye_z_a (locals : eye_locals) : result float :=
  m ← read_local (master_eye locals);
  let '((_, m_head_y1, m_head_z1), (_, m_tail_y2, m_tail_z2)) := m in
  if float_ne (m_tail_z2 - m_head_z1) 0
  then py_div (m_tail_y2 - m_head_y1) (m_tail_z2 - m_head_z1)
  else Ok 0%float.

Definition eye_z_position (locals : eye_locals) : result float :=
  z_a ← eye_z_a locals;
  m ← read_local (master_eye locals);
  let '((_, m_head_y1, m_head_z1), _) := m in
  let z_b := (m_head_y1 - z_a * m_head_z1)%float in
  if float_ne z_a 0 then
    e ← read_local (left_eye locals);
    let '((_, e_head_y3, _), _) := e in
    py_div (e_head_y3 - z_b) z_a
  else Ok m_head_z1.

(** The loop that places the two eye bones. *)
Definition place_eye (x z e_head_length : float) (bones : edit_bones_t) (r : nat)
  : edit_bones_t :=
  let bones := edit_bones_move use_connect bones r (write_head_x x) in
  let bones := edit_bones_move use_connect bones r (write_head_z z) in
  let bones := edit_bones_move use_connect bones r (write_tail_x x) in
  edit_bones_move use_connect bones r (write_tail_z (z + e_head_length)%float).

Fixpoint place_eyes (x_position z_position e_head_length : float)
    (to_visit : list (nat * EditBone)) (bones : edit_bones_t) : edit_bones_t :=
  match to_visit with
  | [] => bones
  | (r, rig_bone) :: rest =>
      if bool_decide (eb_name rig_bone = "eye.L") then
        place_eyes x_position z_position e_head_length rest
          (place_eye x_position z_position e_head_length bones r)
      else if bool_decide (eb_name rig_bone = "eye.R") then
        place_eyes x_position z_position e_head_length rest
          (place_eye (- x_position)%float z_position e_head_length bones r)
      else place_eyes x_position z_position e_head_length rest bones
  end.

(** The loop that rescales the first bone called ["eyes"]; the
    hexadecimal constant is the binary64 number that [1.35] denotes. *)
Definition rescale_eyes (z_position e_head_length scale_ratio : float)
    (bones : edit_bones_t) (r : nat) : edit_bones_t :=
  let bones := edit_bones_move use_connect bones r (write_head_z z_position) in
  let bones :=
    edit_bones_move use_connect bones r
      (write_tail_z (z_position + e_head_length)%float) in
  edit_bones_move use_connect bones r
    (fun b =>
       set_bone_length (bone_length b * scale_ratio * 0x1.599999999999ap+0)%float b).

Fixpoint adjust_eyes_control (z_position e_head_length scale_ratio : float)
    (to_visit : list (nat * EditBone)) (bones : edit_bones_t) : edit_bones_t :=
  match to_visit with
  | [] => bones
  | (r, rig_bone) :: rest =>
      if bool_decide (eb_name rig_bone = "eyes") then
        rescale_eyes z_position e_head_length scale_ratio bones r
      else adjust_eyes_control z_position e_head_length scale_ratio rest bones
  end.

Definition modify_rigify_rig_eyes_control_bones (obj_matrix_world : mat4)
    (bones : edit_bones_t) : result edit_bones_t :=
  let locals :=
    read_eye_bones obj_matrix_world (edit_bones_iter bones) (mkEyeLocals None None) in
  x_a ← eye_x_a locals;
  x_position ← eye_x_position locals;
  z_position ← eye_z_position locals;
  e ← read_local (left_eye locals);
  let '((e_head_x3, _, _), e_head_length) := e in
  scale_ratio ← py_div (x_position - e_head_x3) e_head_x3;
  let bones :=
    place_eyes x_position z_position e_head_length (edit_bones_iter bones) bones in
  if float_ne x_a 0 then
    Ok (adjust_eyes_control z_position e_head_length scale_ratio
          (edit_bones_iter bones) bones)
  else Ok bones.

End EyeControls.

(** ** Vertex groups of a copied mesh *)

Definition decimal_digit (d : Z) : ascii := ascii_of_nat (48 + Z.to_nat d).

(** [f"{n:06d}"] for [0 <= n < 1000000], the only values it is given. *)
Definition format_06d (n : Z) : string :=
  String (decimal_digit ((n / 100000) `mod` 10))
  (String (decimal_digit ((n / 10000) `mod` 10))
  (String (decimal_digit ((n / 1000) `mod` 10))
  (String (decimal_digit ((n / 100) `mod` 10))
  (String (decimal_digit ((n / 10) `mod` 10))
  (String (decimal_digit (n `mod` 10)) ""))))).

Section VertexGroups.

(** The interpreter's [hash] on strings: fixed within a run, not
    across runs. *)
Variable hash : string → Z.

Variable stored_name : list string → string → string → string.

(** [f"_TMP_{hash(name) % 1000000:06d}"] *)
Definition temp_name (name : string) : string :=
  "_TMP_" +:+ format_06d (hash name `mod` 1000000).

(** The state of [update_vertex_groups_to_original_names]: the names of
    the vertex groups, in the order of [mesh_object.vertex_groups], and
    [temp_mapping]. *)
Definition vg_state : Type := list string * gmap string (string * string).

(** The turn of the first loop for the group at position [i]. *)
Definition to_temp_name (bone_name_mapping : gmap string string)
    (st : vg_state) (i : nat) : vg_state :=
  match st.1 !! i with
  | Some name =>
      match bone_name_mapping !! name with
      | Some target =>
          (<[i := stored_name st.1 name (temp_name name)]> st.1,
           <[temp_name name := (name, target)]> st.2)
      | None => st
      end
  | None => st
  end.

(** The turn of the second loop for the group at position [i]. *)
Definition to_target_name (temp_mapping : gmap string (string * string))
    (names : list string) (i : nat) : list string :=
  match names !! i with
  | Some name =>
      match temp_mapping !! name with
      | Some (_, target_name) => <[i := stored_name names name target_name]> names
      | None => names
      end
  | None => names
  end.

(** The first loop, stopped after [k] turns, and the second loop, run
    on the outcome of the whole first loop and stopped after [k]
    turns. *)
Definition first_loop (bone_name_mapping : gmap string string)
    (names : list string) (k : nat) : vg_state :=
  foldl (to_temp_name bone_name_mapping) (names, ∅) (seq 0 k).

Definition second_loop (bone_name_mapping : gmap string string)
    (names : list string) (k : nat) : list string :=
  let st := first_loop bone_name_mapping names (length names) in
  foldl (to_target_name st.2) st.1 (seq 0 k).

Definition update_vertex_groups_to_original_names (names : list string)
    (bone_name_mapping : option (gmap string string)) : list string :=
  match bone_name_mapping with
  | None => names
  | Some m => second_loop m names (length names)
  end.

End VertexGroups.

(** ** Giving the source armature its names back *)

Section Restore.

Variable stored_name : list string → string → string → string.

(** The loop of [restore_original_bone_names] over the enumerated bones
    that are still to be visited; [values] is
    [list(original_bone_names.values())].  The index [i] is looked up
    only when it is in [range(len(values))], so the lookup finds a
    name. *)
Fixpoint restore_names (values : list string)
    (to_visit : list (nat * (nat * EditBone))) (bones : edit_bones_t) : edit_bones_t :=
  match to_visit with
  | [] => bones
  | (i, (r, _)) :: rest =>
      if bool_decide (i < length values)%nat then
        match values !! i with
        | Some original_name =>
            restore_names values rest (edit_bones_rename stored_name bones r original_name)
        | None => restore_names values rest bones
        end
      else restore_names values rest bones
  end.

Definition restore_original_bone_names (bones : edit_bones_t)
    (original_bone_names : ODict.t string string) : edit_bones_t :=
  restore_names (ODict.values original_bone_names)
    (enumerate (edit_bones_iter bones)) bones.

End Restore.

(** ** Regular expressions *)

(** The fragment of the syntax of Python's [re] that the patterns of the
    module are written in.  In [Lit] an escaped dot stands as a dot. *)
Inductive regex : Type :=
| Lit (s : string)
| Alt (a b : regex)      (* [a|b] *)
| Cat (a b : regex)      (* [ab] *)
| Opt (a : regex)        (* [a?] *)
| DotStar                (* [.*] *)
| Bol                    (* [^] *)
| Eol.                   (* [$] *)

(** A sequence of expressions. *)
Fixpoint cat (rs : list regex) : regex :=
  match rs with
  | [] => Lit ""
  | r :: rs' =>
      match rs' with
      | [] => r
      | _ :: _ => Cat r (cat rs')
      end
  end.

(** The ways in which [.*] matches at the position [pos], before the
    rest [s] of the subject: it takes any number of characters other
    than a line feed, the most first. *)
Fixpoint dot_star (pos : nat) (s : string) : list (nat * string) :=
  match s with
  | EmptyString => [(pos, s)]
  | String c rest =>
      if bool_decide (c = line_feed) then [(pos, s)]
      else dot_star (S pos) rest ++ [(pos, s)]
  end.

(** The ways in which an expression matches at a position of the
    subject, in the order in which a backtracking matcher tries them:
    each is the position after the match and the rest of the subject.
    [^] matches at the start of the subject; [$] at its end and before
    a line feed that ends it. *)
Fixpoint re_step (r : regex) (st : nat * string) : list (nat * string) :=
  match r with
  | Lit s =>
      match strip_prefix s st.2 with
      | Some rest => [((st.1 + String.length s)%nat, rest)]
      | None => []
      end
  | Alt a b => re_step a st ++ re_step b st
  | Cat a b => st' ← re_step a st; re_step b st'
  | Opt a => re_step a st ++ [st]
  | DotStar => dot_star st.1 st.2
  | Bol => if bool_decide (st.1 = 0%nat) then [st] else []
  | Eol =>
      if bool_decide (st.2 = "" ∨ st.2 = String line_feed "") then [st] else []
  end.

(** [bool(re.match(pattern, s))] *)
Definition re_match (pattern : regex) (s : string) : bool :=
  negb (bool_decide (re_step pattern (0%nat, s) = [])).

(** ** Removing the facial bones of the generated rig *)

(** [bone.parent_index(parent_test)] of the host: the number of parent
    links from the bone up to the nearest bone that is called like
    [parent_test], 0 when there is none.  The walk is given as many
    steps as the armature has slots, which is more than a chain of
    parents can have. *)
Fixpoint parent_index_from (fuel : nat) (bones : edit_bones_t) (name : string)
    (parent : option nat) (i : nat) : nat :=
  match fuel with
  | O => 0
  | S fuel' =>
      match parent ≫= deref bones with
      | Some p =>
          if bool_decide (eb_name p = name) then i
          else parent_index_from fuel' bones name (eb_parent p) (S i)
      | None => 0
      end
  end.

Definition parent_index (bones : edit_bones_t) (bone parent_test : EditBone) : nat :=
  parent_index_from (length bones) bones (eb_name parent_test) (eb_parent bone) 1.

(** [list.sort(key=...)] on pairs keyed by their first component: the
    sort is stable. *)
Fixpoint insert_by_index {A} (x : nat * A) (l : list (nat * A)) : list (nat * A) :=
  match l with
  | [] => [x]
  | y :: l' => if (y.1 <? x.1)%nat then y :: insert_by_index x l' else x :: y :: l'
  end.

Definition sort_by_index {A} (l : list (nat * A)) : list (nat * A) :=
  foldr insert_by_index [] l.

(** [bone.children_recursive] of the host: the bones below [self], the
    nearest first. *)
Definition children_recursive (bones : edit_bones_t) (self : EditBone)
  : list (nat * EditBone) :=
  let bones_children :=
    omap (fun bone : nat * EditBone =>
            let index := parent_index bones bone.2 self in
            if bool_decide (index ≠ 0%nat) then Some (index, bone) else None)
         (edit_bones_iter bones) in
  snd <$> sort_by_index bones_children.

Definition org_def : regex := Alt (Lit "ORG") (Lit "DEF").
Definition mch_org_def : regex := Alt (Lit "MCH") (Alt (Lit "ORG") (Lit "DEF")).
Definition b_t : regex := Alt (Lit "B") (Lit "T").
Definition l_r : regex := Alt (Lit "L") (Lit "R").

(** The patterns of [removed_rigify_rig_facial_bones], in its order. *)
Definition rig_bones_to_delete_by_name_pattern : list regex :=
  [ cat [Bol; org_def; Lit "-forehead"; DotStar; Eol];
    cat [Bol; org_def; Lit "-temple"; DotStar; Eol];
    cat [Bol; Opt (Cat org_def (Lit "-")); Lit "brow"; DotStar; Eol];
    cat [Bol; Opt (Cat mch_org_def (Lit "-")); Lit "lid."; b_t; DotStar; Eol];
    cat [Bol; Opt (Cat org_def (Lit "-")); Lit "ear."; l_r; DotStar; Eol];
    cat [Bol; Opt (Cat mch_org_def (Lit "-")); Lit "tongue"; DotStar; Eol];
    cat [Bol; Opt (Cat org_def (Lit "-")); Lit "chin"; DotStar; Eol];
    cat [Bol; Opt (Cat org_def (Lit "-")); Lit "cheek."; b_t; DotStar; Eol];
    cat [Bol; Opt (Lit "ORG-"); Lit "teeth."; b_t; Eol];
    cat [Bol; Opt (Cat org_def (Lit "-")); Lit "nose"; DotStar; Eol];
    cat [Bol; Opt (Cat org_def (Lit "-")); Lit "lip"; DotStar; Eol];
    cat [Bol; Opt (Cat mch_org_def (Lit "-")); Lit "jaw"; DotStar; Eol];
    cat [Bol; Lit "MCH-mouth_lock"; Eol] ].

(** [if bone not in bones_to_remove: bones_to_remove.append(bone)];
    two references are equal when they denote the same bone. *)
Definition append_unless_present (bones_to_remove : list (nat * EditBone))
    (bone : nat * EditBone) : list (nat * EditBone) :=
  if bool_decide (bone.1 ∈ bones_to_remove.*1) then bones_to_remove
  else bones_to_remove ++ [bone].

(** The loop that gathers the bones to remove. *)
Definition collect_bones_to_remove (bones : edit_bones_t)
    (roots : list (nat * EditBone)) : list (nat * EditBone) :=
  foldl (fun bones_to_remove bone_root =>
           foldl append_unless_present bones_to_remove
                 (children_recursive bones bone_root.2 ++ [bone_root]))
        [] roots.

Definition removed_rigify_rig_facial_bones (bones : edit_bones_t)
  : result edit_bones_t :=
  let bones_to_remove :=
    collect_bones_to_remove bones
      (matche_objects_by_name_patterns (edit_bones_iter bones)
         (re_match <$> rig_bones_to_delete_by_name_pattern)) in
  remove_bones bones_to_remove bones.

(** ** The bone hierarchy for Unity *)

(** The dictionary [parent_adjustments] of
    [adjust_bone_hierarchy_and_constraints_for_Unity], after the loop
    that adds the fingers of both hands. *)
Definition parent_adjustments : ODict.t string string :=
  let parent_adjustments : ODict.t string string :=
    [("J_Bip_R_Shoulder", "J_Bip_C_UpperChest");
     ("J_Bip_L_Shoulder", "J_Bip_C_UpperChest");
     ("J_Bip_L_UpperArm", "J_Bip_L_Shoulder");
     ("J_Bip_R_UpperArm", "J_Bip_R_Shoulder");
     ("J_Bip_R_UpperLeg", "J_Bip_C_Hips");
     ("J_Bip_L_UpperLeg", "J_Bip_C_Hips")] in
  let fingers_dict : ODict.t string (list string) :=
    [("R", ["Thumb1"; "Index1"; "Middle1"; "Ring1"; "Little1"]);
     ("L", ["Thumb1"; "Index1"; "Middle1"; "Ring1"; "Little1"])] in
  foldl (fun d '(side, fingers) =>
           foldl (fun d finger =>
                    ODict.setitem d ("J_Bip_" +:+ side +:+ "_" +:+ finger)
                                  ("J_Bip_" +:+ side +:+ "_Hand"))
                 d fingers)
        parent_adjustments fingers_dict.

(** [eye_bone_adjustments]: for each eye bone its parent and its
    target. *)
Definition eye_bone_adjustments : ODict.t string (string * string) :=
  [("J_Adj_L_FaceEye", ("J_Bip_C_Head", "MCH-eye.L"));
   ("J_Adj_R_FaceEye", ("J_Bip_C_Head", "MCH-eye.R"))].

(** Whether the bone behind [r] is met when the parent links are
    followed upwards, starting with the link [parent].  The walk is given
    [fuel] steps. *)
Fixpoint has_ancestor (fuel : nat) (bones : edit_bones_t) (r : nat)
    (parent : option nat) : bool :=
  match fuel, parent with
  | S fuel', Some p =>
      bool_decide (p = r)
      || match deref bones p with
         | Some b => has_ancestor fuel' bones r (eb_parent b)
         | None => false
         end
  | _, _ => false
  end.

(** [edit_bones[bone_name].parent = edit_bones[parent_name]].  The host
    keeps the parent links free of cycles: it leaves the link as it is
    when the new parent is the bone itself or has the bone among its
    ancestors, and writes it otherwise.  Its walk up from the new parent
    is given as many steps as the armature has slots. *)
Definition assign_parent (bones : edit_bones_t) (bone_name parent_name : string)
  : result edit_bones_t :=
  parent ← edit_bones_getitem bones parent_name;
  bone ← edit_bones_getitem bones bone_name;
  if has_ancestor (length bones) bones bone.1 (Some parent.1) then Ok bones
  else Ok (edit_bones_update bones bone.1 (set_parent (Some parent.1))).

(** The loop over [parent_adjustments.items()]. *)
Fixpoint adjust_parents (adjustments : list (string * string)) (bones : edit_bones_t)
  : result edit_bones_t :=
  match adjustments with
  | [] => Ok bones
  | (bone_name, parent_name) :: rest =>
      if edit_bones_contains bones bone_name && edit_bones_contains bones parent_name
      then bones' ← assign_parent bones bone_name parent_name;
           adjust_parents rest bones'
      else adjust_parents rest bones
  end.

(** The loop over [eye_bone_adjustments.items()] in edit mode. *)
Fixpoint adjust_eye_parents (adjustments : list (string * (string * string)))
    (bones : edit_bones_t) : result edit_bones_t :=
  match adjustments with
  | [] => Ok bones
  | (bone_name, (parent, _)) :: rest =>
      if negb (edit_bones_contains bones bone_name) then adjust_eye_parents rest bones
      else if edit_bones_contains bones parent
      then bones' ← assign_parent bones bone_name parent;
           adjust_eye_parents rest bones'
      else adjust_eye_parents rest bones
  end.

(** The edit-mode block of
    [adjust_bone_hierarchy_and_constraints_for_Unity]. *)
Definition adjust_bone_hierarchy (bones : edit_bones_t) : result edit_bones_t :=
  bones' ← adjust_parents parent_adjustments bones;
  adjust_eye_parents eye_bone_adjustments bones'.

(** *** The wiring of the eye bones

    The second block of [adjust_bone_hierarchy_and_constraints_for_Unity]
    runs in pose mode, on the bones that the edit bones have become. *)

(** A constraint that a pose bone carries: its type and the name of
    the bone it follows (its target object is the rig). *)
Record Constraint : Type := mkConstraint {
  con_type : string;
  con_subtarget : string;
}.

(** A bone of the rig outside edit mode.  [pose.bones[name]] and
    [armature.bones[name]] are two views of one bone: the first carries
    the constraints, the second is what a bone collection is given. *)
Record RigBone : Type := mkRigBone {
  rb_name : string;
  rb_collections : list string;
  rb_constraints : list Constraint;
}.

(** The bone called [name] and its position, if there is one. *)
Definition rig_bones_find (bones : list RigBone) (name : string)
  : option (nat * RigBone) :=
  list_find (fun b => bool_decide (rb_name b = name)) bones.

(** [armature.bones[name]] *)
Definition rig_bones_getitem (bones : list RigBone) (name : string)
  : result (nat * RigBone) :=
  match rig_bones_find bones name with
  | Some rb => Ok rb
  | None => Err KeyError
  end.

Definition rig_bones_update (bones : list RigBone) (r : nat) (f : RigBone → RigBone)
  : list RigBone :=
  match bones !! r with
  | Some b => <[r := f b]> bones
  | None => bones
  end.

(** [collection.assign(bone)] *)
Definition rig_collection_assign (collection : string) (b : RigBone) : RigBone :=
  if bool_decide (collection ∈ rb_collections b) then b
  else mkRigBone (rb_name b) (rb_collections b ++ [collection]) (rb_constraints b).

(** [bone.constraints.new(type)] with its [subtarget] set. *)
Definition add_constraint (constraint : Constraint) (b : RigBone) : RigBone :=
  mkRigBone (rb_name b) (rb_collections b) (rb_constraints b ++ [constraint]).

(** The loop over the bone collections [collections] of the armature,
    given by their names: the bone goes into the first one called
    ["DEF"]. *)
Fixpoint assign_to_def (collections : list string) (bone_name : string)
    (bones : list RigBone) : result (list RigBone) :=
  match collections with
  | [] => Ok bones
  | collection :: rest =>
      if bool_decide (collection = "DEF") then
        bone ← rig_bones_getitem bones bone_name;
        Ok (rig_bones_update bones bone.1 (rig_collection_assign collection))
      else assign_to_def rest bone_name bones
  end.

(** The loop over [eye_bone_adjustments.items()] in pose mode.  An
    armature has bone collections from version 4 of the host on; before
    that, reading [armature.collections] raises. *)
Fixpoint wire_eye_bones (blender_version : nat) (collections : list string)
    (adjustments : list (string * (string * string))) (bones : list RigBone)
  : result (list RigBone) :=
  match adjustments with
  | [] => Ok bones
  | (bone_name, (_, target_bone)) :: rest =>
      match rig_bones_find bones bone_name with
      | None => wire_eye_bones blender_version collections rest bones
      | Some pose_bone =>
          if (blender_version <=? 3)%nat then Err AttributeError
          else
            bones ← assign_to_def collections bone_name bones;
            let bones :=
              if bool_decide (is_Some (rig_bones_find bones target_bone))
              then rig_bones_update bones pose_bone.1
                     (add_constraint (mkConstraint "COPY_TRANSFORMS" target_bone))
              else bones in
            wire_eye_bones blender_version collections rest bones
      end
  end.

(** ** The rotation axes of the template's limbs *)

(** A pose bone of the template, with the two Rigify parameters that
    [Modify_metarig_limb_rotation_axes] writes. *)
Record PoseBone : Type := mkPoseBone {
  pb_name : string;
  rotation_axis : string;
  primary_rotation_axis : string;
}.

(** [matche_objects_by_name_patterns] on pose bones; a reference to a
    pose bone is its position in [pose.bones]. *)
Definition matche_pose_bones_by_name_patterns (objects : list (nat * PoseBone))
    (patterns : list regex) : list (nat * PoseBone) :=
  filter (fun node =>
            foldl (fun matches pattern =>
                     matches || re_match pattern (pb_name node.2)) false patterns = true)
         objects.

(** [s.endswith(suffix)] *)
Fixpoint endswith (s suffix : string) : bool :=
  bool_decide (s = suffix)
  || match s with
     | EmptyString => false
     | String _ s' => endswith s' suffix
     end.

(** An attribute write through a reference to a pose bone. *)
Definition pose_bones_update (pose_bones : list PoseBone) (r : nat)
    (f : PoseBone → PoseBone) : list PoseBone :=
  match pose_bones !! r with
  | Some b => <[r := f b]> pose_bones
  | None => pose_bones
  end.

Definition set_rotation_axis (axis : string) (b : PoseBone) : PoseBone :=
  mkPoseBone (pb_name b) axis (primary_rotation_axis b).
Definition set_primary_rotation_axis (axis : string) (b : PoseBone) : PoseBone :=
  mkPoseBone (pb_name b) (rotation_axis b) axis.

Definition limb_bones : list regex :=
  [ cat [Bol; Lit "upper_arm."; l_r; Eol];
    cat [Bol; Lit "thigh."; l_r; Eol] ].

Definition finger_bones : list regex :=
  [ cat [Bol; Lit "f_pinky.01."; l_r; Eol];
    cat [Bol; Lit "f_ring.01."; l_r; Eol];
    cat [Bol; Lit "f_middle.01."; l_r; Eol];
    cat [Bol; Lit "f_index.01."; l_r; Eol];
    cat [Bol; Lit "thumb.01."; l_r; Eol] ].

Definition Modify_metarig_limb_rotation_axes (pose_bones : list PoseBone)
  : list PoseBone :=
  let pose_bones :=
    foldl (fun pose_bones (bone : nat * PoseBone) =>
             pose_bones_update pose_bones bone.1 (set_rotation_axis "x"))
          pose_bones
          (matche_pose_bones_by_name_patterns (enumerate pose_bones) limb_bones) in
  foldl (fun pose_bones (bone : nat * PoseBone) =>
           let axis := if endswith (pb_name bone.2) "L" then "Z" else "-Z" in
           pose_bones_update pose_bones bone.1 (set_primary_rotation_axis axis))
        pose_bones
        (matche_pose_bones_by_name_patterns (enumerate pose_bones) finger_bones).

(** ** The path of a bone *)

(** [bone.parent_recursive] of the host: the parents of a bone, the
    nearest first.  The walk is given as many steps as the armature has
    slots. *)
Fixpoint parent_recursive_from (fuel : nat) (bones : edit_bones_t)
    (parent : option nat) : list EditBone :=
  match fuel with
  | O => []
  | S fuel' =>
      match parent ≫= deref bones with
      | Some p => p :: parent_recursive_from fuel' bones (eb_parent p)
      | None => []
      end
  end.

Definition parent_recursive (bones : edit_bones_t) (bone : EditBone) : list EditBone :=
  parent_recursive_from (length bones) bones (eb_parent bone).

(** [sep.join(l)] *)
Fixpoint str_join (sep : string) (l : list string) : string :=
  match l with
  | [] => ""
  | s :: l' =>
      match l' with
      | [] => s
      | _ :: _ => s +:+ sep +:+ str_join sep l'
      end
  end.

Definition get_full_bone_path (bones : edit_bones_t) (bone : EditBone) : string :=
  let bone_chain := reverse (parent_recursive bones bone) ++ [bone] in
  str_join "/" (eb_name <$> bone_chain).

(** ** Vocabulary of the properties *)

(** [m[k] = v] for a pair [(k, v)]. *)
Definition insert_pair {V} (m : gmap string V) (kv : string * V)
  : gmap string V := <[kv.1 := kv.2]> m.

(** A bone seen through everything but its parent link. *)
Definition unparented (slot : option EditBone) : option EditBone :=
  set_parent None <$> slot.

(** A loop that removes the visited bones that [doomed] selects: both
    loops of the pruner are of this form. *)
Fixpoint remove_where (doomed : EditBone → bool) (to_visit : list (nat * EditBone))
    (bones : edit_bones_t) : result edit_bones_t :=
  match to_visit with
  | [] => Ok bones
  | (r, b) :: rest =>
      if doomed b then bones' ← edit_bones_remove bones r; remove_where doomed rest bones'
      else remove_where doomed rest bones
  end.

(** The decision table of the second loop. *)
Definition unmapped_doomed (mapped : gset string) (name : string) : bool :=
  negb (bool_decide (name ∈ mapped))
  && bool_decide (name ∈ ["pelvis.L"; "pelvis.R"; "breast.L"; "breast.R"; "spine.003"]).

(** The references that a loop of this form removes. *)
Definition doomed_refs (doomed : EditBone → bool) (to_visit : list (nat * EditBone))
  : list nat :=
  (filter (fun rb => doomed rb.2 = true) to_visit).*1.

(** The name test that decides, for a template bone, whether the pruner
    deletes it. *)
Definition is_pruned (bone_mapping : list (string * string)) (name : string) : bool :=
  re_match_palm name || unmapped_doomed (list_to_set (bone_mapping.*1)) name.

(** The names in the slots of a store. *)
Definition names_of (bones : edit_bones_t) : list (option string) :=
  (fun slot : option EditBone => eb_name <$> slot) <$> bones.

(** The three writes of one turn of the aligner's loop, as the bone
    that is written ends. *)
Definition positioned (vrm_bone : Bone) (b : EditBone) : EditBone :=
  set_tail (tail_local vrm_bone) (set_head (head_local vrm_bone) (set_select true b)).

(** The name and the parent of a bone. *)
Definition link (b : EditBone) : string * option nat := (eb_name b, eb_parent b).

Section JointsVocabulary.

Variable use_connect : nat → bool.




(** No joint moves with a bone called ["eye.L"], ["eye.R"] or
    ["eyes"]: no bone that is connected to its parent bears one of these
    names, nor does the parent of such a bone. *)
Definition eyes_unconnected (bones : edit_bones_t) : Prop :=
  ∀ c bc, deref bones c = Some bc → use_connect c = true →
    (eb_name bc ∉ ["eye.L"; "eye.R"; "eyes"])
    ∧ (∀ p bp, eb_parent bc = Some p → deref bones p = Some bp →
         eb_name bp ∉ ["eye.L"; "eye.R"; "eyes"]).

(** No other bone is connected to the bone behind [r] as its child. *)
Definition childless_joint (bones : edit_bones_t) (r : nat) : Prop :=
  ∀ c bc, c ≠ r → deref bones c = Some bc → eb_parent bc = Some r →
    use_connect c = false.

End JointsVocabulary.

(** The four writes of the placing loop to one eye bone. *)
Definition placed_eye (x z e_head_length : float) (b : EditBone) : EditBone :=
  write_tail_z (z + e_head_length)%float
    (write_tail_x x (write_head_z z (write_head_x x b))).

(** The bone that the grafting step makes for the source bone
    [vrm_bone] under the rig bone [parent_bone] at [parent_ref]. *)
Definition grafted (blender_version : nat) (parent_ref : nat) (parent_bone : EditBone)
    (original_name : string) (vrm_bone : Bone) : EditBone :=
  let b := mkEditBone original_name (Some parent_ref) (head_local vrm_bone)
             (tail_local vrm_bone) true false [] [] in
  if (blender_version <=? 3)%nat then set_layers (eb_layers parent_bone) b
  else foldl collection_assign b (eb_collections parent_bone).

(** What one turn of the grafting loop adds to the rig, if anything. *)
Definition graft_one (blender_version : nat)
    (bone_name_mapping : option (gmap string string)) (bones : edit_bones_t)
    (vrm_bone : Bone) : edit_bones_t :=
  if edit_bones_contains bones (original_name_of bone_name_mapping (b_name vrm_bone))
  then []
  else match b_parent vrm_bone with
       | None => []
       | Some vrm_parent_name =>
           match edit_bones_find bones
                   (original_name_of bone_name_mapping vrm_parent_name) with
           | Some (parent_ref, parent_bone) =>
               [Some (grafted blender_version parent_ref parent_bone
                        (original_name_of bone_name_mapping (b_name vrm_bone)) vrm_bone)]
           | None => []
           end
       end.

(** The name of the rig bone that a correspondence pair addresses. *)
Definition rename_address (metarig_bone_name : string) : string :=
  if bool_decide (metarig_bone_name ∈ ["eye.L"; "eye.R"])
  then "ORG-" +:+ metarig_bone_name
  else "DEF-" +:+ metarig_bone_name.

(** The components of a vector. *)
Definition vec_x (v : vec3) : float := v.1.1.
Definition vec_y (v : vec3) : float := v.1.2.

Section VertexGroupsVocabulary.

Variable hash : string → Z.

(** The name a group bears between the two loops, the name it is
    meant to end with, and the groups that the map renames. *)
Definition stage_name (m : gmap string string) (name : string) : string :=
  match m !! name with
  | Some _ => temp_name hash name
  | None => name
  end.

Definition final_name (m : gmap string string) (name : string) : string :=
  match m !! name with
  | Some target => target
  | None => name
  end.

Definition affected (m : gmap string string) (names : list string) : list string :=
  filter (fun name => is_Some (m !! name)) names.

(** The entries that the first loop puts into [temp_mapping]. *)
Definition temp_entries (m : gmap string string) (names : list string)
  : list (string * (string * string)) :=
  omap (fun name => (fun target => (temp_name hash name, (name, target))) <$> m !! name)
       names.

End VertexGroupsVocabulary.

(** What is known of the host's naming: a name that is written over
    itself stays; a name that the host can hold and that is not in use
    is stored as it is given; and the name that is stored is never the
    name of another bone (or group). *)
Definition keeps_own_name (stored_name : list string → string → string → string)
  : Prop :=
  ∀ names old, stored_name names old old = old.

Definition stores_free_names (stored_name : list string → string → string → string)
  : Prop :=
  ∀ names old new,
    host_name new = true → new ∉ names → stored_name names old new = new.

Definition stores_fresh_names (stored_name : list string → string → string → string)
  : Prop :=
  ∀ names old new,
    stored_name names old new ∉ names ∨ stored_name names old new = old.

(** [f"{n:03d}"] for [0 <= n < 1000]. *)
Definition format_03d (n : Z) : string :=
  String (decimal_digit ((n / 100) `mod` 10))
  (String (decimal_digit ((n / 10) `mod` 10))
  (String (decimal_digit (n `mod` 10)) "")).

(** [n] zeros, and the length of the longest of [names]. *)
Fixpoint zeros (n : nat) : string :=
  match n with
  | O => ""
  | S n' => String "0" (zeros n')
  end.

Definition longest (names : list string) : nat :=
  foldr (fun name n => String.length name `max` n) 0%nat names.

(** A stand-in for the host's naming in the examples: a name that is
    in use is given the first of the endings [.001], [.002], ... that
    makes it a name not in use, as the host does with a name that has
    no number at its end and room for the ending.  (Past [.999] the
    host counts on; the stand-in then takes an ending that makes the
    name longer than every name in use.) *)
Definition sample_stored_name (names : list string) (old new : string) : string :=
  if bool_decide (new = old) then old
  else if bool_decide (new ∈ names) then
    match list_find (fun candidate => candidate ∉ names)
            ((fun n => new +:+ "." +:+ format_03d (Z.of_nat n)) <$> seq 1 999) with
    | Some (_, candidate) => candidate
    | None => new +:+ "." +:+ zeros (longest names)
    end
  else new.

(** A stand-in for the interpreter's hash in the examples: the code of
    the first character. *)
Definition sample_hash (s : string) : Z :=
  match s with
  | EmptyString => 0
  | String c _ => Z.of_nat (nat_of_ascii c)
  end.

(** The pair that the builder emits for a key of the template's role
    map, if any. *)
Definition role_pair (metarig_human_bones vrm_human_bones : HumanBones)
    (bone_type : string) : option (string * string) :=
  if bool_decide (bone_type ∈ reserved_bone_types) then None
  else match hb_getattr metarig_human_bones bone_type,
             hb_getattr vrm_human_bones bone_type with
       | AttrHumanBone metarig_bone, AttrHumanBone vrm_bone =>
           match bone_name metarig_bone, bone_name vrm_bone with
           | Some metarig_name, Some vrm_name =>
               if str_truthy vrm_name then Some (metarig_name, vrm_name) else None
           | _, _ => None
           end
       | _, _ => None
       end.

(** The role maps of a template that binds hips but not jaw, and of a
    source that binds both. *)
Definition sample_metarig_human_bones : HumanBones :=
  mkHumanBones ["hips"; "jaw"; "last_bone_names"; "initial_automatic_bone_assignment"]
    (fun bone_type =>
       if bool_decide (bone_type = "hips") then
         AttrHumanBone (mkBonePropertyGroup (Some "spine"))
       else if bool_decide (bone_type = "jaw") then
         AttrHumanBone (mkBonePropertyGroup (Some ""))
       else if bool_decide (bone_type ∈ reserved_bone_types) then AttrPlain
       else AttrNone).

Definition sample_vrm_human_bones : HumanBones :=
  mkHumanBones ["hips"; "jaw"; "last_bone_names"; "initial_automatic_bone_assignment"]
    (fun bone_type =>
       if bool_decide (bone_type = "hips") then
         AttrHumanBone (mkBonePropertyGroup (Some "J_Bip_C_Hips"))
       else if bool_decide (bone_type = "jaw") then
         AttrHumanBone (mkBonePropertyGroup (Some "J_Adj_C_Jaw"))
       else if bool_decide (bone_type ∈ reserved_bone_types) then AttrPlain
       else AttrNone).

(** What the restoring loop makes of the bone that it meets at
    position [i], when the name it writes is stored as it is given. *)
Definition restored (values : list string) (i : nat) (b : EditBone) : EditBone :=
  match values !! i with
  | Some original_name => set_name original_name b
  | None => b
  end.

(** What the deformation rename may change of a bone: its name, and its
    deform flag from off to on. *)
Definition renamed_from (b b' : EditBone) : Prop :=
  eb_parent b' = eb_parent b ∧ eb_head b' = eb_head b ∧ eb_tail b' = eb_tail b
  ∧ eb_select b' = eb_select b ∧ eb_layers b' = eb_layers b
  ∧ eb_collections b' = eb_collections b
  ∧ (use_deform b = true → use_deform b' = true).

(** The name the second loop of [update_vertex_groups_to_original_names]
    gives to a group that bears [name] when the loop starts. *)
Definition resolved_name (temp_mapping : gmap string (string * string))
    (name : string) : string :=
  match temp_mapping !! name with
  | Some (_, target_name) => target_name
  | None => name
  end.


(** The name test of [removed_rigify_rig_facial_bones]. *)
Definition facial_name (name : string) : bool :=
  existsb (fun pattern => re_match pattern name) rig_bones_to_delete_by_name_pattern.

(** The bones that are met when the parent links are followed upwards,
    starting with the link [parent]. *)
Inductive in_chain (bones : edit_bones_t) : option nat → nat → EditBone → Prop :=
| in_chain_here (p : nat) (b : EditBone) :
    deref bones p = Some b → in_chain bones (Some p) p b
| in_chain_up (p : nat) (b : EditBone) (a : nat) (ab : EditBone) :
    deref bones p = Some b → in_chain bones (eb_parent b) a ab →
    in_chain bones (Some p) a ab.

(** The parent links, followed upwards from [parent], come to an end
    within [fuel] bones. *)
Fixpoint chain_ends (fuel : nat) (bones : edit_bones_t) (parent : option nat) : bool :=
  match parent ≫= deref bones with
  | None => true
  | Some p =>
      match fuel with
      | O => false
      | S fuel' => chain_ends fuel' bones (eb_parent p)
      end
  end.

(** No bone of the armature is its own ancestor. *)
Definition acyclic (bones : edit_bones_t) : bool :=
  forallb (fun bone : nat * EditBone => chain_ends (length bones) bones (eb_parent bone.2))
          (edit_bones_iter bones).


(** The bones that [adjust_bone_hierarchy] gives a parent, each with
    the name of that parent. *)
Definition unity_parents : list (string * string) :=
  [("J_Bip_R_Shoulder", "J_Bip_C_UpperChest");
   ("J_Bip_L_Shoulder", "J_Bip_C_UpperChest");
   ("J_Bip_L_UpperArm", "J_Bip_L_Shoulder");
   ("J_Bip_R_UpperArm", "J_Bip_R_Shoulder");
   ("J_Bip_R_UpperLeg", "J_Bip_C_Hips");
   ("J_Bip_L_UpperLeg", "J_Bip_C_Hips");
   ("J_Bip_R_Thumb1", "J_Bip_R_Hand");
   ("J_Bip_R_Index1", "J_Bip_R_Hand");
   ("J_Bip_R_Middle1", "J_Bip_R_Hand");
   ("J_Bip_R_Ring1", "J_Bip_R_Hand");
   ("J_Bip_R_Little1", "J_Bip_R_Hand");
   ("J_Bip_L_Thumb1", "J_Bip_L_Hand");
   ("J_Bip_L_Index1", "J_Bip_L_Hand");
   ("J_Bip_L_Middle1", "J_Bip_L_Hand");
   ("J_Bip_L_Ring1", "J_Bip_L_Hand");
   ("J_Bip_L_Little1", "J_Bip_L_Hand");
   ("J_Adj_L_FaceEye", "J_Bip_C_Head");
   ("J_Adj_R_FaceEye", "J_Bip_C_Head")].


(** [rank] puts every bone of the armature above its parent. *)
Definition ranked (rank : nat → nat) (bones : edit_bones_t) : bool :=
  forallb (fun bone : nat * EditBone =>
             match eb_parent bone.2 with
             | Some p => (rank p <? rank bone.1)%nat
             | None => true
             end)
          (edit_bones_iter bones).

(** [rank] puts every bone that [adjustments] names above the parent
    that [adjustments] gives it, when both are in the armature. *)
Definition ranks_parents (rank : nat → nat) (bones : edit_bones_t)
    (adjustments : list (string * string)) : bool :=
  forallb (fun adjustment : string * string =>
             match edit_bones_find bones adjustment.1,
                   edit_bones_find bones adjustment.2 with
             | Some bone, Some parent => (rank parent.1 <? rank bone.1)%nat
             | _, _ => true
             end)
          adjustments.

(** The names that the pattern [^stem(L|R)$] matches, for the given
    stems: the stem, a side, and possibly a line feed, before which [$]
    matches as well. *)
Definition side_names (stems : list string) : list string :=
  stem ← stems; side ← ["L"; "R"]; eol ← [""; String line_feed ""];
  [stem +:+ side +:+ eol].

(** A string has a line feed among its characters. *)
Fixpoint has_line_feed (s : string) : bool :=
  match s with
  | EmptyString => false
  | String c s' => bool_decide (c = line_feed) || has_line_feed s'
  end.

(** * Properties *)

(** ** The result monad *)

Lemma bind_Ok {A B} (f : A → result B) (a : A) : (Ok a ≫= f) = f a.
Proof. reflexivity. Qed.

Lemma bind_Err {A B} (f : A → result B) (e : exn) : (Err e ≫= f) = Err e.
Proof. reflexivity. Qed.

Lemma bind_Ok_inv {A B} (f : A → result B) (r : result A) (b : B) :
  (r ≫= f) = Ok b → ∃ a, r = Ok a ∧ f a = Ok b.
Proof. destruct r as [a|e]; [eauto | discriminate]. Qed.

(** ** Lists, enumerations and dictionaries *)

Lemma enumerate_from_lookup {A} (l : list A) (s i : nat) :
  enumerate_from s l !! i = (fun x => (s + i, x)) <$> l !! i.
Proof.
  revert s i. induction l as [|x l IH]; intros s i; [done|].
  destruct i as [|i]; simpl.
  - by rewrite Nat.add_0_r.
  - rewrite IH. by replace (S s + i) with (s + S i) by lia.
Qed.

Lemma setitem_fresh `{EqDecision K} {V} (d : ODict.t K V) (k : K) (v : V) :
  k ∉ ODict.keys d → ODict.setitem d k v = d ++ [(k, v)].
Proof.
  unfold ODict.keys. induction d as [|[k' v'] d IH]; intros Hk; [done|].
  simpl in *. apply not_elem_of_cons in Hk as [Hne Hk].
  destruct (decide (k' = k)); [congruence|]. by rewrite IH.
Qed.

Lemma store_original_bone_names_keys_aux (bones : list Bone) (d : ODict.t string string) :
  NoDup (ODict.keys d ++ (b_name <$> bones)) →
  ODict.keys (foldl (fun d bone => ODict.setitem d (b_name bone) (b_name bone)) d bones)
  = ODict.keys d ++ (b_name <$> bones).
Proof.
  revert d. induction bones as [|b bones IH]; intros d Hnd; simpl.
  - by rewrite app_nil_r.
  - rewrite setitem_fresh.
    + rewrite IH; unfold ODict.keys in *; rewrite fmap_app; simpl;
        rewrite <- app_assoc; done.
    + apply NoDup_app in Hnd as (_ & Hdis & _). intros Hin.
      apply (Hdis _ Hin). simpl. left.
Qed.

(** With distinct bone names, the recorded keys are the bone names in
    the order of the bones. *)
Lemma store_original_bone_names_keys (bones : list Bone) :
  NoDup (b_name <$> bones) →
  ODict.keys (store_original_bone_names bones) = b_name <$> bones.
Proof.
  intros Hnd. unfold store_original_bone_names.
  by rewrite store_original_bone_names_keys_aux.
Qed.

Lemma record_bone_indices_aux (keys : list string) (s : nat) (d : gmap nat string) (i : nat) :
  foldl (fun d '(i, bone_name) => <[i := bone_name]> d) d (enumerate_from s keys) !! i
  = if decide (s ≤ i < s + length keys) then keys !! (i - s) else d !! i.
Proof.
  revert s d. induction keys as [|k keys IH]; intros s d; simpl.
  - case_decide; [lia|done].
  - rewrite IH. repeat case_decide; try lia.
    + replace (i - s) with (S (i - S s)) by lia. done.
    + assert (i = s) as -> by lia. rewrite lookup_insert_eq.
      by rewrite Nat.sub_diag.
    + rewrite lookup_insert_ne; [done|lia].
Qed.

(** [bone_indices[i]] is the [i]-th recorded key. *)
Lemma record_bone_indices_lookup (original_bone_names : ODict.t string string) (i : nat) :
  record_bone_indices original_bone_names !! i = ODict.keys original_bone_names !! i.
Proof.
  unfold record_bone_indices, enumerate. rewrite record_bone_indices_aux.
  rewrite lookup_empty, Nat.sub_0_r. case_decide; [done|].
  symmetry. apply lookup_ge_None. lia.
Qed.

Lemma pair_bone_names_zip (bone_indices : gmap nat string) (keys : list string)
    (bones : list Bone) (s : nat) (acc : gmap string string) :
  (∀ i, bone_indices !! i = keys !! i) →
  pair_bone_names bone_indices (enumerate_from s bones) acc
  = Ok (foldl insert_pair acc (zip (b_name <$> bones) (drop s keys))).
Proof.
  intros Hidx. revert s acc. induction bones as [|b bones IH]; intros s acc; [done|].
  simpl. unfold dict_contains, dict_getitem. rewrite Hidx.
  destruct (keys !! s) as [o|] eqn:Hs.
  - rewrite bool_decide_eq_true_2 by eauto. simpl.
    rewrite IH. by rewrite (drop_S _ _ _ Hs).
  - rewrite bool_decide_eq_false_2 by (intros [? ?]; done).
    rewrite IH. apply lookup_ge_None in Hs.
    rewrite !drop_ge by lia. by destruct (b_name <$> bones).
Qed.

Lemma foldl_insert_pair_dom {V} (l : list (string * V)) (acc : gmap string V) :
  dom (foldl insert_pair acc l) = dom acc ∪ list_to_set (l.*1).
Proof.
  revert acc. induction l as [|[k v] l IH]; intros acc; simpl.
  - set_solver.
  - rewrite IH. unfold insert_pair. simpl. rewrite dom_insert_L. set_solver.
Qed.

Lemma foldl_insert_pair_lookup_Some {V} (l : list (string * V))
    (acc : gmap string V) (k : string) (v : V) :
  foldl insert_pair acc l !! k = Some v → (k, v) ∈ l ∨ acc !! k = Some v.
Proof.
  revert acc. induction l as [|[k' v'] l IH]; intros acc Hl; simpl in *; [by right|].
  apply IH in Hl as [Hin|Hacc]; [left; by right|].
  unfold insert_pair in Hacc. simpl in Hacc.
  destruct (decide (k' = k)) as [->|Hne].
  - rewrite lookup_insert_eq in Hacc. simplify_eq. left. left.
  - rewrite lookup_insert_ne in Hacc by done. by right.
Qed.

Lemma foldl_insert_pair_lookup_in {V} (l : list (string * V))
    (acc : gmap string V) (k : string) (v : V) :
  NoDup (l.*1) → (k, v) ∈ l → foldl insert_pair acc l !! k = Some v.
Proof.
  revert acc. induction l as [|[k' v'] l IH]; intros acc Hnd Hin; simpl in *.
  - by apply elem_of_nil in Hin.
  - apply NoDup_cons in Hnd as [Hk' Hnd].
    apply elem_of_cons in Hin as [Heq|Hin].
    + inversion Heq; subst k' v'.
      destruct (foldl insert_pair (insert_pair acc (k, v)) l !! k) as [w|] eqn:Hw.
      * apply foldl_insert_pair_lookup_Some in Hw as [Hin|Hacc].
        -- exfalso. apply Hk'. apply list_elem_of_fmap. by exists (k, w).
        -- unfold insert_pair in Hacc. simpl in Hacc.
           by rewrite lookup_insert_eq in Hacc.
      * exfalso. apply not_elem_of_dom in Hw. apply Hw.
        rewrite foldl_insert_pair_dom. unfold insert_pair. simpl.
        rewrite dom_insert_L. set_solver.
    + by apply IH.
Qed.

Lemma zip_fst_take {A B} (l : list A) (k : list B) :
  (zip l k).*1 = take (length k) l.
Proof.
  revert k. induction l as [|x l IH]; intros [|y k]; simpl; try done.
  by rewrite IH.
Qed.

Lemma zip_lookup_Some {A B} (l : list A) (k : list B) (i : nat) (x : A) (y : B) :
  zip l k !! i = Some (x, y) ↔ l !! i = Some x ∧ k !! i = Some y.
Proof.
  revert k i. induction l as [|a l IH]; intros [|b k] [|i]; simpl; try (split; [done|intros [? ?]; done]).
  - split; [intros [= -> ->]; done | intros [[= ->] [= ->]]; done].
  - apply IH.
Qed.

(** ** Names on the host *)

Lemma sample_keeps_own_name : keeps_own_name sample_stored_name.
Proof. intros names old. unfold sample_stored_name. by case_bool_decide. Qed.

Lemma sample_stores_free_names : stores_free_names sample_stored_name.
Proof.
  intros names old new _ Hfree. unfold sample_stored_name.
  case_bool_decide; [done|]. by rewrite bool_decide_eq_false_2.
Qed.

Lemma string_length_app (a b : string) :
  String.length (a +:+ b) = (String.length a + String.length b)%nat.
Proof. induction a as [|c a IH]; [done|]. simpl. f_equal. exact IH. Qed.

Lemma string_app_empty (a : string) : a +:+ "" = a.
Proof.
  induction a as [|c a IH]; [done|].
  change (String c (a +:+ "") = String c a). by rewrite IH.
Qed.

Lemma zeros_length (n : nat) : String.length (zeros n) = n.
Proof. induction n as [|n IH]; [done|]. simpl. by rewrite IH. Qed.

Lemma longest_ge (names : list string) (name : string) :
  name ∈ names → (String.length name ≤ longest names)%nat.
Proof.
  induction names as [|n names IH]; [by intros ?%elem_of_nil|].
  cbn [longest foldr]. intros [->|Hin]%elem_of_cons; [lia|].
  specialize (IH Hin). unfold longest in IH. lia.
Qed.

Lemma sample_stores_fresh_names : stores_fresh_names sample_stored_name.
Proof.
  intros names old new. unfold sample_stored_name.
  case_bool_decide; [by right|]. case_bool_decide; [|by left].
  destruct (list_find _ _) as [[i candidate]|] eqn:Hfind.
  - apply list_find_Some in Hfind as (_ & Hout & _). by left.
  - left. intros Hin%longest_ge.
    rewrite !string_length_app, zeros_length in Hin.
    change (String.length ".") with 1%nat in Hin. lia.
Qed.

(** The stand-in only ever adds an ending to the name it is given. *)
Lemma sample_stored_name_prefix (names : list string) (old new : string) :
  ∃ ending, sample_stored_name names old new = new +:+ ending.
Proof.
  unfold sample_stored_name.
  case_bool_decide as Hold; [exists ""; by rewrite string_app_empty, Hold|].
  case_bool_decide; [|exists ""; by rewrite string_app_empty].
  destruct (list_find _ _) as [[i candidate]|] eqn:Hfind; [|by eexists].
  apply list_find_Some in Hfind as (Hi & _ & _).
  apply list_lookup_fmap_Some in Hi as (n & -> & _). by eexists.
Qed.

(** ** The name restoration map *)

(** The map is made of the pairs (current name, recorded name) at equal
    positions, later pairs overwriting earlier ones. *)
Lemma update_bone_name_mapping_after_rename_zip (bones : list Bone)
    (original_bone_names : ODict.t string string) :
  update_bone_name_mapping_after_rename bones original_bone_names
  = Ok (foldl insert_pair ∅
          (zip (b_name <$> bones) (ODict.keys original_bone_names))).
Proof.
  unfold update_bone_name_mapping_after_rename, enumerate.
  rewrite (pair_bone_names_zip _ (ODict.keys original_bone_names));
    [done | apply record_bone_indices_lookup].
Qed.

(** C10.  Building the restoration map never raises, whatever the two
    bone counts are: with [N] recorded original names and [M] bones after
    standardization it returns a map whose keys are the names of the
    first [min N M] bones and, the bone names of a skeleton being
    distinct, each of them is mapped to the original name recorded at the
    same position. *)
Theorem restoration_map_is_positional (bones : list Bone)
    (original_bone_names : ODict.t string string) :
  let names := b_name <$> bones in
  let originals := ODict.keys original_bone_names in
  let n := Nat.min (length originals) (length bones) in
  ∃ m, update_bone_name_mapping_after_rename bones original_bone_names = Ok m
     ∧ dom m = list_to_set (take n names)
     ∧ (NoDup names →
        ∀ i name, i < n → names !! i = Some name →
          ∃ original, originals !! i = Some original ∧ m !! name = Some original).
Proof.
  intros names originals n. eexists. split; [apply update_bone_name_mapping_after_rename_zip|].
  fold names originals. split.
  - rewrite foldl_insert_pair_dom, zip_fst_take, dom_empty_L, (left_id_L ∅ (∪)).
    f_equal. subst n names. rewrite <- take_take.
    by rewrite (take_ge (b_name <$> bones) (length bones)) by (rewrite length_fmap; lia).
  - intros Hnd i name Hi Hname.
    destruct (originals !! i) as [original|] eqn:Ho.
    + exists original. split; [done|].
      apply foldl_insert_pair_lookup_in.
      * rewrite zip_fst_take. eapply sublist_NoDup; [done | apply sublist_take].
      * apply list_elem_of_lookup. exists i. by apply zip_lookup_Some.
    + apply lookup_ge_None in Ho. subst n. lia.
Qed.

(** The theorem at a skeleton of three bones of which two were
    recorded. *)
Lemma restoration_map_is_positional_witness :
  ∃ m, update_bone_name_mapping_after_rename
         [mkBone "J_Bip_C_Hips" None zero3 zero3;
          mkBone "J_Bip_C_Spine" (Some "J_Bip_C_Hips") zero3 zero3;
          mkBone "J_Sec_Tail" (Some "J_Bip_C_Spine") zero3 zero3]
         [("Hips", "Hips"); ("Spine", "Spine")] = Ok m
     ∧ m !! "J_Bip_C_Spine" = Some "Spine".
Proof.
  destruct (restoration_map_is_positional
              [mkBone "J_Bip_C_Hips" None zero3 zero3;
               mkBone "J_Bip_C_Spine" (Some "J_Bip_C_Hips") zero3 zero3;
               mkBone "J_Sec_Tail" (Some "J_Bip_C_Spine") zero3 zero3]
              [("Hips", "Hips"); ("Spine", "Spine")]) as (m & Hm & _ & Hpos).
  exists m. split; [exact Hm|].
  destruct (Hpos ltac:(apply (bool_decide_unpack _); vm_compute; exact I) 1 "J_Bip_C_Spine"
              ltac:(simpl; lia) eq_refl) as (original & Ho & Hl).
  simpl in Ho. injection Ho as <-. exact Hl.
Defined.

(** C4.  For a skeleton with the same number [N] of bones before and
    after standardization (bone names being distinct within a skeleton),
    the restoration map built from the names recorded before and the
    bones after has exactly [N] entries and is injective. *)
Theorem restoration_map_is_bijective (before after : list Bone) :
  NoDup (b_name <$> before) →
  NoDup (b_name <$> after) →
  length before = length after →
  ∃ m, update_bone_name_mapping_after_rename after (store_original_bone_names before) = Ok m
     ∧ size m = length before
     ∧ (∀ k1 k2 v, m !! k1 = Some v → m !! k2 = Some v → k1 = k2).
Proof.
  intros Hb Ha Hlen. eexists.
  split; [apply update_bone_name_mapping_after_rename_zip|].
  rewrite store_original_bone_names_keys by done. split.
  - rewrite <- size_dom, foldl_insert_pair_dom, zip_fst_take, dom_empty_L, (left_id_L ∅ (∪)).
    rewrite take_ge by (rewrite !length_fmap; lia).
    rewrite size_list_to_set by done. rewrite length_fmap. lia.
  - intros k1 k2 v H1 H2.
    apply foldl_insert_pair_lookup_Some in H1 as [H1|H1]; [|by rewrite lookup_empty in H1].
    apply foldl_insert_pair_lookup_Some in H2 as [H2|H2]; [|by rewrite lookup_empty in H2].
    apply list_elem_of_lookup in H1 as [i Hi], H2 as [j Hj].
    apply zip_lookup_Some in Hi as [Hi1 Hi2], Hj as [Hj1 Hj2].
    assert (i = j) as -> by exact (NoDup_lookup _ _ _ _ Hb Hi2 Hj2).
    congruence.
Qed.

(** The theorem at a skeleton of two bones. *)
Lemma restoration_map_is_bijective_witness :
  ∃ m, update_bone_name_mapping_after_rename
         [mkBone "J_Bip_C_Hips" None zero3 zero3;
          mkBone "J_Bip_C_Spine" (Some "J_Bip_C_Hips") zero3 zero3]
         (store_original_bone_names
            [mkBone "Hips" None zero3 zero3;
             mkBone "Spine" (Some "Hips") zero3 zero3]) = Ok m
     ∧ size m = 2.
Proof.
  destruct (restoration_map_is_bijective
              [mkBone "Hips" None zero3 zero3;
               mkBone "Spine" (Some "Hips") zero3 zero3]
              [mkBone "J_Bip_C_Hips" None zero3 zero3;
               mkBone "J_Bip_C_Spine" (Some "J_Bip_C_Hips") zero3 zero3]
              ltac:(apply (bool_decide_unpack _); vm_compute; exact I)
              ltac:(apply (bool_decide_unpack _); vm_compute; exact I)
              eq_refl) as (m & Hm & Hsize & _).
  exists m. split; [exact Hm | exact Hsize].
Defined.

(** ** The store of bones *)

Lemma deref_Some (bones : edit_bones_t) (r : nat) (b : EditBone) :
  deref bones r = Some b ↔ bones !! r = Some (Some b).
Proof.
  unfold deref. destruct (bones !! r) as [[b'|]|]; simpl; split; congruence.
Qed.

Lemma edit_bones_iter_from_elem (bones : edit_bones_t) (s r : nat) (b : EditBone) :
  (r, b) ∈ edit_bones_iter_from s bones ↔ (s ≤ r)%nat ∧ bones !! (r - s) = Some (Some b).
Proof.
  revert s. induction bones as [|[b0|] bones IH]; intros s; simpl.
  - split; [intros H; by apply elem_of_nil in H | intros [_ H]; done].
  - rewrite elem_of_cons, IH. split.
    + intros [[= -> ->]|[Hle Hl]].
      * split; [lia|]. by rewrite Nat.sub_diag.
      * split; [lia|]. by replace (r - s) with (S (r - S s)) by lia.
    + intros [Hle Hl]. destruct (decide (r = s)) as [->|Hne].
      * rewrite Nat.sub_diag in Hl. left. simpl in Hl. congruence.
      * right. split; [lia|]. by replace (r - s) with (S (r - S s)) in Hl by lia.
  - rewrite IH. split.
    + intros [Hle Hl]. split; [lia|]. by replace (r - s) with (S (r - S s)) by lia.
    + intros [Hle Hl]. destruct (decide (r = s)) as [->|Hne].
      * by rewrite Nat.sub_diag in Hl.
      * split; [lia|]. by replace (r - s) with (S (r - S s)) in Hl by lia.
Qed.

(** The loop variable ranges over the bones that are in the armature. *)
Lemma edit_bones_iter_elem (bones : edit_bones_t) (r : nat) (b : EditBone) :
  (r, b) ∈ edit_bones_iter bones ↔ deref bones r = Some b.
Proof.
  unfold edit_bones_iter. rewrite edit_bones_iter_from_elem, deref_Some, Nat.sub_0_r.
  split; [by intros [_ ?] | intros ?; split; [lia|done]].
Qed.

Lemma edit_bones_iter_from_NoDup (bones : edit_bones_t) (s : nat) :
  NoDup (edit_bones_iter_from s bones).*1.
Proof.
  revert s. induction bones as [|[b0|] bones IH]; intros s; simpl; [constructor| |apply IH].
  constructor; [|apply IH]. intros Hin.
  apply list_elem_of_fmap in Hin as ([r b] & -> & Hin).
  apply edit_bones_iter_from_elem in Hin as [Hle _]. simpl in Hle. lia.
Qed.

Lemma edit_bones_iter_NoDup (bones : edit_bones_t) : NoDup (edit_bones_iter bones).*1.
Proof. apply edit_bones_iter_from_NoDup. Qed.

Lemma unparented_Some_inv (slot : option EditBone) (b : EditBone) :
  unparented slot = unparented (Some b) →
  ∃ b', slot = Some b' ∧ set_parent None b' = set_parent None b.
Proof.
  destruct slot as [b'|]; simpl; [|done].
  intros H. exists b'. split; [done | congruence].
Qed.

Lemma unparented_None_inv (slot : option EditBone) : unparented slot = None → slot = None.
Proof. by destruct slot. Qed.

Lemma set_parent_None_name (b b' : EditBone) :
  set_parent None b' = set_parent None b → eb_name b' = eb_name b.
Proof. intros H. by injection H. Qed.

(** Removing the bone behind a live reference empties its slot and keeps
    every other bone, up to its parent link. *)
Lemma edit_bones_remove_live (bones : edit_bones_t) (r0 : nat) (b0 : EditBone) :
  deref bones r0 = Some b0 →
  ∃ bones', edit_bones_remove bones r0 = Ok bones'
    ∧ length bones' = length bones
    ∧ ∀ r, unparented (deref bones' r)
           = if decide (r = r0) then None else unparented (deref bones r).
Proof.
  intros Hlive. unfold edit_bones_remove. rewrite Hlive. eexists. split; [done|].
  split; [by rewrite length_fmap, length_insert|].
  intros r. unfold deref. rewrite list_lookup_fmap.
  apply deref_Some in Hlive. apply lookup_lt_Some in Hlive as Hlt.
  case_decide as Hr.
  - subst r. by rewrite list_lookup_insert_eq.
  - rewrite list_lookup_insert_ne by done.
    destruct (bones !! r) as [[c|]|]; simpl; try done.
    by case_bool_decide.
Qed.

(** ** The topology pruner *)

Lemma remove_bones_where (to_remove : list (nat * EditBone)) (bones : edit_bones_t) :
  remove_bones to_remove bones = remove_where (fun _ => true) to_remove bones.
Proof.
  revert bones. induction to_remove as [|[r b] rest IH]; intros bones; simpl; [done|].
  destruct (edit_bones_remove bones r); simpl; [apply IH | done].
Qed.

Lemma remove_unmapped_where (mapped : gset string) (to_visit : list (nat * EditBone))
    (bones : edit_bones_t) :
  remove_unmapped mapped to_visit bones
  = remove_where (fun b => unmapped_doomed mapped (eb_name b)) to_visit bones.
Proof.
  revert bones. induction to_visit as [|[r b] rest IH]; intros bones; simpl; [done|].
  unfold unmapped_doomed.
  destruct (bool_decide (eb_name b ∈ mapped)) eqn:Hm; simpl; [apply IH|].
  destruct (bool_decide (eb_name b ∈ ["pelvis.L"; "pelvis.R"])) eqn:Hp.
  { apply bool_decide_eq_true_1 in Hp.
    rewrite bool_decide_eq_true_2 by set_solver.
    destruct (edit_bones_remove bones r); simpl; [apply IH | done]. }
  destruct (bool_decide (eb_name b ∈ ["breast.L"; "breast.R"])) eqn:Hb.
  { apply bool_decide_eq_true_1 in Hb.
    rewrite bool_decide_eq_true_2 by set_solver.
    destruct (edit_bones_remove bones r); simpl; [apply IH | done]. }
  apply bool_decide_eq_false_1 in Hp, Hb.
  destruct (bool_decide (eb_name b ∉ ["spine.003"])) eqn:Hs.
  - apply bool_decide_eq_true_1 in Hs.
    rewrite bool_decide_eq_false_2 by set_solver. apply IH.
  - apply bool_decide_eq_false_1 in Hs.
    rewrite bool_decide_eq_true_2 by (apply dec_stable in Hs; set_solver).
    destruct (edit_bones_remove bones r); simpl; [apply IH | done].
Qed.

Lemma doomed_refs_cons (doomed : EditBone → bool) (r : nat) (b : EditBone)
    (rest : list (nat * EditBone)) :
  doomed_refs doomed ((r, b) :: rest)
  = if doomed b then r :: doomed_refs doomed rest else doomed_refs doomed rest.
Proof.
  unfold doomed_refs. rewrite filter_cons. simpl.
  destruct (doomed b); case_decide; done.
Qed.

(** Such a loop never fails when it visits distinct bones that are in
    the armature; it empties the slots of the doomed bones and keeps the
    others. *)
Lemma remove_where_spec (doomed : EditBone → bool) (to_visit : list (nat * EditBone))
    (bones : edit_bones_t) :
  NoDup (to_visit.*1) →
  (∀ r b, (r, b) ∈ to_visit → is_Some (deref bones r)) →
  ∃ bones', remove_where doomed to_visit bones = Ok bones'
    ∧ length bones' = length bones
    ∧ ∀ r, unparented (deref bones' r)
           = if decide (r ∈ doomed_refs doomed to_visit) then None
             else unparented (deref bones r).
Proof.
  revert bones. induction to_visit as [|[r0 b0] rest IH]; intros bones Hnd Hlive.
  - exists bones. split; [done|]. split; [done|]. intros r.
    rewrite decide_False; [done|]. apply not_elem_of_nil.
  - rewrite fmap_cons in Hnd. apply NoDup_cons in Hnd as [Hr0 Hnd].
    cbn [remove_where]. rewrite doomed_refs_cons.
    destruct (doomed b0) eqn:Hd.
    + destruct (Hlive r0 b0 ltac:(left)) as [c0 Hc0].
      destruct (edit_bones_remove_live bones r0 c0 Hc0) as (bones1 & -> & Hlen1 & Hview1).
      rewrite bind_Ok. destruct (IH bones1 Hnd) as (bones' & Hrun & Hlen & Hview).
      { intros r b Hin. destruct (Hlive r b ltac:(by right)) as [c Hc].
        specialize (Hview1 r). rewrite decide_False in Hview1.
        - rewrite Hc in Hview1. destruct (deref bones1 r); [eauto|done].
        - intros ->. apply Hr0. apply list_elem_of_fmap. by exists (r0, b). }
      exists bones'. split; [done|]. split; [congruence|].
      intros r. rewrite Hview, Hview1.
      destruct (decide (r = r0)) as [->|Hne].
      * rewrite (decide_True (P := r0 ∈ r0 :: _)) by left. by case_decide.
      * destruct (decide (r ∈ doomed_refs doomed rest)).
        -- by rewrite decide_True by by right.
        -- rewrite decide_False; [done|]. by intros [?|?]%elem_of_cons.
    + destruct (IH bones Hnd) as (bones' & Hrun & Hlen & Hview).
      { intros r b Hin. apply (Hlive r b). by right. }
      exists bones'. by repeat split.
Qed.

Lemma doomed_refs_elem (doomed : EditBone → bool) (bones : edit_bones_t) (r : nat) :
  r ∈ doomed_refs doomed (edit_bones_iter bones)
  ↔ ∃ b, deref bones r = Some b ∧ doomed b = true.
Proof.
  unfold doomed_refs. rewrite list_elem_of_fmap. split.
  - intros ([r' b] & -> & Hin). apply list_elem_of_filter in Hin as [Hd Hin].
    apply edit_bones_iter_elem in Hin. eauto.
  - intros (b & Hb & Hd). exists (r, b). split; [done|].
    apply list_elem_of_filter. split; [done|]. by apply edit_bones_iter_elem.
Qed.

Lemma is_pruned_iff (bone_mapping : list (string * string)) (name : string) :
  is_pruned bone_mapping name = true
  ↔ re_match_palm name = true
    ∨ ((name ∉ bone_mapping.*1)
       ∧ name ∈ ["pelvis.L"; "pelvis.R"; "breast.L"; "breast.R"; "spine.003"]).
Proof.
  unfold is_pruned, unmapped_doomed.
  rewrite orb_true_iff, andb_true_iff, negb_true_iff.
  rewrite bool_decide_eq_false, bool_decide_eq_true, elem_of_list_to_set. done.
Qed.

Lemma matched_palm_elem (bones : edit_bones_t) (r : nat) (b : EditBone) :
  (r, b) ∈ matche_objects_by_name_patterns (edit_bones_iter bones) [re_match_palm]
  ↔ deref bones r = Some b ∧ re_match_palm (eb_name b) = true.
Proof.
  unfold matche_objects_by_name_patterns.
  rewrite list_elem_of_filter, edit_bones_iter_elem. simpl. tauto.
Qed.

Lemma filter_fst_NoDup {A} (P : nat * A → Prop) `{∀ x, Decision (P x)}
    (l : list (nat * A)) :
  NoDup (l.*1) → NoDup ((filter P l).*1).
Proof.
  intros Hnd. eapply sublist_NoDup; [exact Hnd|].
  apply fmap_sublist, sublist_filter.
Qed.

(** What one run of the pruner does to every slot of the store. *)
Lemma remove_or_log_unmapped_metarig_bones_spec (bones : edit_bones_t)
    (bone_mapping : list (string * string)) :
  ∃ bones', remove_or_log_unmapped_metarig_bones bones bone_mapping = Ok bones'
    ∧ length bones' = length bones
    ∧ ∀ r, unparented (deref bones' r)
           = match deref bones r with
             | Some b => if is_pruned bone_mapping (eb_name b) then None
                         else unparented (Some b)
             | None => None
             end.
Proof.
  unfold remove_or_log_unmapped_metarig_bones.
  rewrite remove_bones_where.
  destruct (remove_where_spec (fun _ => true)
              (matche_objects_by_name_patterns (edit_bones_iter bones) [re_match_palm])
              bones) as (bones1 & -> & Hlen1 & Hview1).
  { apply filter_fst_NoDup, edit_bones_iter_NoDup. }
  { intros r b [Hb _]%matched_palm_elem. eauto. }
  rewrite bind_Ok, remove_unmapped_where.
  destruct (remove_where_spec
              (fun b => unmapped_doomed (list_to_set (bone_mapping.*1)) (eb_name b))
              (edit_bones_iter bones1) bones1) as (bones' & -> & Hlen & Hview).
  { apply edit_bones_iter_NoDup. }
  { intros r b Hb%edit_bones_iter_elem. eauto. }
  exists bones'. split; [done|]. split; [congruence|].
  intros r. rewrite Hview. clear Hview.
  assert (Hpalm : r ∈ doomed_refs (fun _ => true)
                        (matche_objects_by_name_patterns (edit_bones_iter bones) [re_match_palm])
                  ↔ ∃ b, deref bones r = Some b ∧ re_match_palm (eb_name b) = true).
  { unfold doomed_refs. rewrite list_elem_of_fmap. split.
    - intros ([r' b] & -> & [_ Hin]%list_elem_of_filter).
      apply matched_palm_elem in Hin. eauto.
    - intros (b & Hb & Hp). exists (r, b). split; [done|].
      apply list_elem_of_filter. split; [done|]. by apply matched_palm_elem. }
  specialize (Hview1 r). unfold is_pruned.
  destruct (deref bones r) as [b|] eqn:Hb.
  - destruct (re_match_palm (eb_name b)) eqn:Hp; simpl.
    + rewrite decide_True in Hview1 by (apply Hpalm; eauto).
      apply unparented_None_inv in Hview1.
      rewrite decide_False; [by rewrite Hview1|].
      intros (b1 & Hb1 & _)%doomed_refs_elem. congruence.
    + rewrite decide_False in Hview1
        by (intros (b1 & Hb1 & Hp1)%Hpalm; congruence).
      destruct (unparented_Some_inv _ _ Hview1) as (b1 & Hb1 & Heq).
      apply set_parent_None_name in Heq as Hname.
      destruct (unmapped_doomed _ (eb_name b)) eqn:Hd.
      * rewrite decide_True; [done|]. apply doomed_refs_elem.
        exists b1. by rewrite Hname.
      * rewrite decide_False; [done|].
        intros (b2 & Hb2 & Hd2)%doomed_refs_elem. congruence.
  - rewrite decide_False in Hview1
      by (intros (b1 & Hb1 & _)%Hpalm; congruence).
    apply unparented_None_inv in Hview1.
    rewrite decide_False; [by rewrite Hview1|].
    intros (b1 & Hb1 & _)%doomed_refs_elem. congruence.
Qed.

(** C5.  After one run of the pruner a template bone has been deleted
    exactly when its name matches the palm pattern or it is not named by
    the correspondence list and is called pelvis.L, pelvis.R, breast.L,
    breast.R or spine.003; every other bone is still in the skeleton,
    unchanged but for the parent link it may have inherited from a
    deleted parent. *)
Theorem pruner_deletes_exactly (bones : edit_bones_t)
    (bone_mapping : list (string * string)) :
  ∃ bones', remove_or_log_unmapped_metarig_bones bones bone_mapping = Ok bones'
    ∧ ∀ r b, deref bones r = Some b →
        (deref bones' r = None
         ↔ re_match_palm (eb_name b) = true
           ∨ ((eb_name b ∉ bone_mapping.*1)
              ∧ eb_name b ∈ ["pelvis.L"; "pelvis.R"; "breast.L"; "breast.R"; "spine.003"]))
        ∧ (deref bones' r = None
           ∨ ∃ b', deref bones' r = Some b' ∧ set_parent None b' = set_parent None b).
Proof.
  destruct (remove_or_log_unmapped_metarig_bones_spec bones bone_mapping)
    as (bones' & Hrun & _ & Hview).
  exists bones'. split; [done|]. intros r b Hb.
  specialize (Hview r). rewrite Hb in Hview. rewrite <- is_pruned_iff.
  destruct (is_pruned bone_mapping (eb_name b)).
  - apply unparented_None_inv in Hview. split; [by split | by left].
  - destruct (unparented_Some_inv _ _ Hview) as (b' & Hb' & Heq).
    split; [rewrite Hb'; split; intros; done | right; eauto].
Qed.

(** The theorem on a template with a palm bone, an unmapped pelvis bone
    and a mapped spine bone. *)
Lemma pruner_deletes_exactly_witness :
  ∃ bones', remove_or_log_unmapped_metarig_bones
              [Some (mkEditBone "spine" None zero3 zero3 true false [] []);
               Some (mkEditBone "pelvis.L" (Some 0) zero3 zero3 true false [] []);
               Some (mkEditBone "palm.01.L" (Some 0) zero3 zero3 true false [] [])]
              [("spine", "J_Bip_C_Hips")] = Ok bones'
    ∧ deref bones' 0 ≫= (fun b => Some (eb_name b)) = Some "spine"
    ∧ deref bones' 1 = None.
Proof.
  destruct (pruner_deletes_exactly
              [Some (mkEditBone "spine" None zero3 zero3 true false [] []);
               Some (mkEditBone "pelvis.L" (Some 0) zero3 zero3 true false [] []);
               Some (mkEditBone "palm.01.L" (Some 0) zero3 zero3 true false [] [])]
              [("spine", "J_Bip_C_Hips")]) as (bones' & Hrun & Hspec).
  exists bones'. split; [exact Hrun|]. split.
  - destruct (Hspec 0 _ eq_refl) as [Hiff [Hnone|(b' & Hb' & Heq)]].
    + apply Hiff in Hnone. exfalso.
      destruct Hnone as [Hp|[Hm _]]; [discriminate Hp|].
      apply Hm. simpl. left.
    + rewrite Hb'. simpl. f_equal. by apply set_parent_None_name in Heq.
  - destruct (Hspec 1 _ eq_refl) as [Hiff _]. apply Hiff. right. split.
    + simpl. intros Hin. apply list_elem_of_singleton in Hin. discriminate Hin.
    + left.
Defined.

Lemma remove_where_none (doomed : EditBone → bool) (to_visit : list (nat * EditBone))
    (bones : edit_bones_t) :
  (∀ r b, (r, b) ∈ to_visit → doomed b = false) →
  remove_where doomed to_visit bones = Ok bones.
Proof.
  induction to_visit as [|[r b] rest IH]; intros Hnone; [done|].
  cbn [remove_where]. rewrite (Hnone r b) by left.
  apply IH. intros r' b' Hin. apply (Hnone r' b'). by right.
Qed.

(** No bone that survives a run of the pruner is one that the pruner
    deletes. *)
Lemma pruned_bones_are_gone (bones bones' : edit_bones_t)
    (bone_mapping : list (string * string)) (r : nat) (b' : EditBone) :
  remove_or_log_unmapped_metarig_bones bones bone_mapping = Ok bones' →
  deref bones' r = Some b' →
  is_pruned bone_mapping (eb_name b') = false.
Proof.
  intros Hrun Hb'.
  destruct (remove_or_log_unmapped_metarig_bones_spec bones bone_mapping)
    as (bones2 & Hrun2 & _ & Hview).
  rewrite Hrun in Hrun2. injection Hrun2 as <-.
  specialize (Hview r). rewrite Hb' in Hview.
  destruct (deref bones r) as [b|]; [|done].
  destruct (is_pruned bone_mapping (eb_name b)) eqn:Hp; [done|].
  destruct (unparented_Some_inv (Some b') b Hview) as (b2 & [= <-] & Heq).
  apply set_parent_None_name in Heq. by rewrite Heq.
Qed.

(** A run of the pruner on a skeleton in which no bone is one that it
    deletes attempts no deletion and changes nothing. *)
Lemma pruner_without_targets (bones : edit_bones_t)
    (bone_mapping : list (string * string)) :
  (∀ r b, deref bones r = Some b → is_pruned bone_mapping (eb_name b) = false) →
  remove_or_log_unmapped_metarig_bones bones bone_mapping = Ok bones.
Proof.
  intros Hnone. unfold remove_or_log_unmapped_metarig_bones.
  assert (matche_objects_by_name_patterns (edit_bones_iter bones) [re_match_palm] = [])
    as ->.
  { apply elem_of_nil_inv. intros [r b] [Hb Hp]%matched_palm_elem.
    apply Hnone in Hb. unfold is_pruned in Hb. by rewrite Hp in Hb. }
  cbn [remove_bones]. rewrite bind_Ok, remove_unmapped_where.
  apply remove_where_none. intros r b Hb%edit_bones_iter_elem.
  apply Hnone in Hb. unfold is_pruned in Hb.
  by apply orb_false_iff in Hb as [_ ?].
Qed.

(** C6.  Running the pruner a second time, with the same correspondence
    list, on the skeleton that the first run leaves yields that same
    skeleton: the bones that the first run deleted are absent, no
    deletion is attempted for them, and nothing fails. *)
Theorem pruner_is_idempotent (bones : edit_bones_t)
    (bone_mapping : list (string * string)) :
  ∃ bones', remove_or_log_unmapped_metarig_bones bones bone_mapping = Ok bones'
    ∧ remove_or_log_unmapped_metarig_bones bones' bone_mapping = Ok bones'.
Proof.
  destruct (remove_or_log_unmapped_metarig_bones_spec bones bone_mapping)
    as (bones' & Hrun & _ & _).
  exists bones'. split; [done|].
  apply pruner_without_targets. intros r b Hb.
  by eapply pruned_bones_are_gone.
Qed.

(** ** Looking bones up and writing to them *)

Lemma edit_bones_find_from_Some (bones : edit_bones_t) (s : nat) (name : string)
    (r : nat) (b : EditBone) :
  edit_bones_find_from s bones name = Some (r, b) →
  (s ≤ r)%nat ∧ bones !! (r - s) = Some (Some b) ∧ eb_name b = name.
Proof.
  revert s. induction bones as [|[b0|] bones IH]; intros s; simpl; [done| |].
  - case_bool_decide as Hn.
    + intros [= <- <-]. by rewrite Nat.sub_diag.
    + intros (Hle & Hl & Hname)%IH. split; [lia|].
      by replace (r - s) with (S (r - S s)) by lia.
  - intros (Hle & Hl & Hname)%IH. split; [lia|].
    by replace (r - s) with (S (r - S s)) by lia.
Qed.

Lemma edit_bones_find_Some (bones : edit_bones_t) (name : string) (r : nat) (b : EditBone) :
  edit_bones_find bones name = Some (r, b) → deref bones r = Some b ∧ eb_name b = name.
Proof.
  intros (_ & Hl & Hname)%edit_bones_find_from_Some.
  rewrite Nat.sub_0_r in Hl. by rewrite deref_Some.
Qed.

Lemma edit_bones_find_from_None (bones : edit_bones_t) (s : nat) (name : string) :
  edit_bones_find_from s bones name = None
  ↔ ∀ r b, bones !! r = Some (Some b) → eb_name b ≠ name.
Proof.
  revert s. induction bones as [|[b0|] bones IH]; intros s; simpl.
  - split; [intros _ r b Hl; done | done].
  - case_bool_decide as Hn.
    + split; [done|]. intros H. exfalso. by apply (H 0 b0).
    + rewrite IH. split.
      * intros H [|r] b Hl; simpl in Hl; [congruence | by apply (H r)].
      * intros H r b Hl. by apply (H (S r)).
  - rewrite IH. split.
    + intros H [|r] b Hl; simpl in Hl; [congruence | by apply (H r)].
    + intros H r b Hl. by apply (H (S r)).
Qed.

(** A name is found exactly when a bone of the armature bears it. *)
Lemma edit_bones_contains_iff (bones : edit_bones_t) (name : string) :
  edit_bones_contains bones name = true
  ↔ ∃ r b, deref bones r = Some b ∧ eb_name b = name.
Proof.
  unfold edit_bones_contains. rewrite bool_decide_eq_true. split.
  - intros [[r b] Hf]. apply edit_bones_find_Some in Hf. eauto.
  - intros (r & b & Hb & Hname).
    destruct (edit_bones_find bones name) eqn:Hf; [eauto|].
    exfalso. apply (proj1 (edit_bones_find_from_None _ _ _) Hf r b);
      [by apply deref_Some | done].
Qed.

(** Which reference a name denotes depends on the names in the store
    only. *)
Lemma edit_bones_find_from_names (bones bones' : edit_bones_t) (s : nat) (name : string) :
  names_of bones = names_of bones' →
  fst <$> edit_bones_find_from s bones name = fst <$> edit_bones_find_from s bones' name.
Proof.
  revert bones' s. induction bones as [|slot bones IH]; intros [|slot' bones'] s Hn;
    simpl in *; try done.
  injection Hn as Hslot Hn.
  destruct slot as [b|], slot' as [b'|]; simpl in *; try done.
  - injection Hslot as ->. case_bool_decide; [done|]. by apply IH.
  - by apply IH.
Qed.

Lemma deref_update (bones : edit_bones_t) (r r' : nat) (f : EditBone → EditBone) :
  deref (edit_bones_update bones r f) r'
  = if decide (r' = r) then f <$> deref bones r else deref bones r'.
Proof.
  unfold edit_bones_update.
  destruct (deref bones r) as [b|] eqn:Hb.
  - apply deref_Some in Hb as Hl. apply lookup_lt_Some in Hl.
    unfold deref. case_decide as Hr.
    + subst r'. by rewrite list_lookup_insert_eq.
    + by rewrite list_lookup_insert_ne.
  - case_decide as Hr; [by subst r'|done].
Qed.

Lemma names_of_update (bones : edit_bones_t) (r : nat) (f : EditBone → EditBone) :
  (∀ b, eb_name (f b) = eb_name b) →
  names_of (edit_bones_update bones r f) = names_of bones.
Proof.
  intros Hf. unfold edit_bones_update, names_of.
  destruct (deref bones r) as [b|] eqn:Hb; [|done].
  apply deref_Some in Hb. rewrite list_fmap_insert. simpl. rewrite Hf.
  apply list_insert_id. by rewrite list_lookup_fmap, Hb.
Qed.

Lemma length_update (bones : edit_bones_t) (r : nat) (f : EditBone → EditBone) :
  length (edit_bones_update bones r f) = length bones.
Proof.
  unfold edit_bones_update. destruct (deref bones r); [apply length_insert|done].
Qed.

(** ** The geometric aligner *)

Lemma edit_bones_getitem_Ok (bones : edit_bones_t) (name : string) (rb : nat * EditBone) :
  edit_bones_getitem bones name = Ok rb ↔ edit_bones_find bones name = Some rb.
Proof.
  unfold edit_bones_getitem. destruct (edit_bones_find bones name); split; congruence.
Qed.

Section AlignerProperties.

Variable use_connect : nat → bool.


Lemma names_of_transform_update (bones : edit_bones_t) (r : nat) :
  names_of (transform_update use_connect bones r) = names_of bones.
Proof.
  unfold transform_update. destruct (deref bones r) as [bone|]; [|done].
  set (bones1 := match eb_parent bone with Some _ => _ | None => _ end).
  assert (names_of bones1 = names_of bones) as H1.
  { unfold bones1. destruct (eb_parent bone); [|done].
    destruct (use_connect r); [|done]. by apply names_of_update. }
  destruct (deref bones1 r) as [bone'|]; [|done].
  rewrite <- H1. unfold names_of. apply list_eq. intros i.
  rewrite !list_lookup_fmap, list_lookup_imap.
  destruct (bones1 !! i) as [[c|]|]; simpl; try done.
  unfold follow_tail. by destruct (_ && _).
Qed.










End AlignerProperties.


(** On a chain of three connected bones of which the correspondence
    list names the middle one, the tail of the first bone and the head
    of the third go with the joints of the second. *)
Example aligner_on_a_connected_chain :
  let identity : mat4 :=
    ((1, 0, 0, 0), (0, 1, 0, 0), (0, 0, 1, 0), (0, 0, 0, 1))%float in
  let connected := fun r : nat => bool_decide (r ≠ 0%nat) in
  let spine := mkEditBone "spine" None zero3 (0, 0, 1)%float true false [] [] in
  let spine1 :=
    mkEditBone "spine.001" (Some 0%nat) (0, 0, 1)%float (0, 0, 2)%float true false [] [] in
  let spine2 :=
    mkEditBone "spine.002" (Some 1%nat) (0, 0, 2)%float (0, 0, 3)%float true false [] [] in
  let src := mkBone "J_Bip_C_Spine" None (0, 0, 5)%float (0, 0, 6)%float in
  position_metarig_bones_to_vrm_model connected
    (mkArmatureObject identity [Some spine; Some spine1; Some spine2])
    (mkSourceObject identity [src]) [("spine.001", "J_Bip_C_Spine")]
  = Ok (mkArmatureObject identity
          [Some (set_tail (0, 0, 5)%float spine);
           Some (positioned src spine1);
           Some (set_head (0, 0, 6)%float spine2)]).
Proof. reflexivity. Qed.


(** ** Grafting of the unmapped source bones *)

Lemma deref_app_l (bones extra : edit_bones_t) (r : nat) (b : EditBone) :
  deref bones r = Some b → deref (bones ++ extra) r = Some b.
Proof.
  intros Hl%deref_Some. by apply deref_Some, lookup_app_l_Some.
Qed.

Lemma edit_bones_update_new (bones : edit_bones_t) (b : EditBone) (f : EditBone → EditBone) :
  edit_bones_update (bones ++ [Some b]) (length bones) f = bones ++ [Some (f b)].
Proof.
  unfold edit_bones_update, deref.
  rewrite lookup_app_r, Nat.sub_diag by lia. simpl.
  rewrite insert_app_r_alt, Nat.sub_diag by lia. done.
Qed.

Lemma edit_bones_find_from_app (bones extra : edit_bones_t) (s : nat) (name : string)
    (rb : nat * EditBone) :
  edit_bones_find_from s bones name = Some rb →
  edit_bones_find_from s (bones ++ extra) name = Some rb.
Proof.
  revert s. induction bones as [|[b0|] bones IH]; intros s; simpl; [done| |apply IH].
  case_bool_decide; [done|apply IH].
Qed.

Lemma foldl_collection_assign_fields (b : EditBone) (collections : list string) :
  let b' := foldl collection_assign b collections in
  eb_name b' = eb_name b ∧ eb_parent b' = eb_parent b
  ∧ eb_head b' = eb_head b ∧ eb_tail b' = eb_tail b.
Proof.
  revert b. induction collections as [|c cs IH]; intros b; simpl; [done|].
  destruct (IH (collection_assign b c)) as (-> & -> & -> & ->).
  unfold collection_assign. by case_bool_decide.
Qed.

Lemma grafted_fields (blender_version parent_ref : nat) (parent_bone : EditBone)
    (original_name : string) (vrm_bone : Bone) :
  let b := grafted blender_version parent_ref parent_bone original_name vrm_bone in
  eb_name b = original_name ∧ eb_parent b = Some parent_ref
  ∧ eb_head b = head_local vrm_bone ∧ eb_tail b = tail_local vrm_bone.
Proof.
  unfold grafted. destruct (blender_version <=? 3)%nat; [done|].
  apply foldl_collection_assign_fields.
Qed.

(** A turn of the loop never fails: the parent is looked up only after
    it has been found to exist. *)
Lemma attach_bones_cons (blender_version : nat)
    (bone_name_mapping : option (gmap string string)) (vrm_bone : Bone)
    (rest : list Bone) (bones : edit_bones_t) :
  attach_bones blender_version bone_name_mapping (vrm_bone :: rest) bones
  = attach_bones blender_version bone_name_mapping rest
      (bones ++ graft_one blender_version bone_name_mapping bones vrm_bone).
Proof.
  cbn [attach_bones]. unfold graft_one.
  destruct (edit_bones_contains bones _) eqn:Hin; simpl; [by rewrite app_nil_r|].
  destruct (b_parent vrm_bone) as [p|] eqn:Hp; simpl.
  2:{ by rewrite app_nil_r. }
  unfold edit_bones_contains, edit_bones_getitem.
  destruct (edit_bones_find bones (original_name_of bone_name_mapping p))
    as [[pr pb]|] eqn:Hf.
  - rewrite bool_decide_eq_true_2 by eauto. simpl.
    unfold edit_bones_new, grafted.
    rewrite !edit_bones_update_new.
    by destruct (blender_version <=? 3)%nat.
  - rewrite bool_decide_eq_false_2 by (by intros [? ?]). simpl. by rewrite app_nil_r.
Qed.

(** The grafting step never raises, and only adds bones. *)
Lemma attach_bones_total (blender_version : nat)
    (bone_name_mapping : option (gmap string string)) (vrm_bones : list Bone)
    (bones : edit_bones_t) :
  ∃ added, attach_bones blender_version bone_name_mapping vrm_bones bones
           = Ok (bones ++ added).
Proof.
  revert bones. induction vrm_bones as [|v rest IH]; intros bones.
  - exists []. by rewrite app_nil_r.
  - rewrite attach_bones_cons.
    destruct (IH (bones ++ graft_one blender_version bone_name_mapping bones v))
      as [added ->].
    eexists. by rewrite <- app_assoc.
Qed.

Lemma deref_app_inv (bones extra : edit_bones_t) (r : nat) (b : EditBone) :
  deref (bones ++ extra) r = Some b →
  deref bones r = Some b ∨ ((length bones ≤ r)%nat ∧ deref extra (r - length bones) = Some b).
Proof.
  intros Hl%deref_Some. apply lookup_app_Some in Hl as [Hl|[Hle Hl]].
  - left. by apply deref_Some.
  - right. split; [done|]. by apply deref_Some.
Qed.

Lemma graft_one_cases (blender_version : nat)
    (bone_name_mapping : option (gmap string string)) (bones : edit_bones_t)
    (vrm_bone : Bone) :
  graft_one blender_version bone_name_mapping bones vrm_bone = []
  ∨ ∃ p pr pb,
      b_parent vrm_bone = Some p
      ∧ edit_bones_find bones (original_name_of bone_name_mapping p) = Some (pr, pb)
      ∧ graft_one blender_version bone_name_mapping bones vrm_bone
        = [Some (grafted blender_version pr pb
                   (original_name_of bone_name_mapping (b_name vrm_bone)) vrm_bone)].
Proof.
  unfold graft_one. destruct (edit_bones_contains bones _); [by left|].
  destruct (b_parent vrm_bone) as [p|]; [|by left].
  destruct (edit_bones_find bones _) as [[pr pb]|] eqn:Hf; [|by left].
  right. by exists p, pr, pb.
Qed.

(** Every bone that the grafting loop adds comes from a source bone,
    whose name (restored), head and tail it has, and hangs under a rig
    bone that bears the restored name of that source bone's parent. *)
Lemma attach_bones_added (blender_version : nat)
    (bone_name_mapping : option (gmap string string)) (vrm_bones : list Bone)
    (bones added : edit_bones_t) :
  attach_bones blender_version bone_name_mapping vrm_bones bones = Ok (bones ++ added) →
  ∀ r b, deref (bones ++ added) r = Some b → (length bones ≤ r)%nat →
    ∃ v p pr pb,
      v ∈ vrm_bones ∧ b_parent v = Some p
      ∧ eb_name b = original_name_of bone_name_mapping (b_name v)
      ∧ eb_head b = head_local v ∧ eb_tail b = tail_local v
      ∧ eb_parent b = Some pr
      ∧ deref (bones ++ added) pr = Some pb
      ∧ eb_name pb = original_name_of bone_name_mapping p.
Proof.
  revert bones added. induction vrm_bones as [|v rest IH]; intros bones added Hrun r b Hb Hr.
  - injection Hrun as Hrun. rewrite <- (app_nil_r bones) in Hrun at 1.
    apply app_inv_head in Hrun as <-. rewrite app_nil_r in Hb.
    apply deref_Some, lookup_lt_Some in Hb. lia.
  - rewrite attach_bones_cons in Hrun.
    destruct (attach_bones_total blender_version bone_name_mapping rest
                (bones ++ graft_one blender_version bone_name_mapping bones v))
      as [added1 Hrun1].
    rewrite Hrun1 in Hrun. injection Hrun as Hrun.
    rewrite <- app_assoc in Hrun. apply app_inv_head in Hrun as <-.
    rewrite app_assoc in Hb |- *.
    specialize (IH _ _ Hrun1 r b Hb).
    destruct (graft_one_cases blender_version bone_name_mapping bones v)
      as [Hg|(p & pr & pb & Hp & Hf & Hg)]; rewrite Hg in *.
    + rewrite app_nil_r in IH |- *.
      destruct (IH Hr) as (v' & p' & pr' & pb' & Hin & H).
      exists v', p', pr', pb'. split; [by right|done].
    + destruct (decide (r = length bones)) as [->|Hne].
      * assert (deref ((bones ++ [Some (grafted blender_version pr pb
                   (original_name_of bone_name_mapping (b_name v)) v)]) ++ added1)
                  (length bones) = Some (grafted blender_version pr pb
                   (original_name_of bone_name_mapping (b_name v)) v)) as Hnew.
        { apply deref_app_l, deref_Some. by rewrite lookup_app_r, Nat.sub_diag by lia. }
        rewrite Hnew in Hb. injection Hb as <-.
        destruct (grafted_fields blender_version pr pb
                    (original_name_of bone_name_mapping (b_name v)) v)
          as (Hn & Hpar & Hh & Ht).
        apply edit_bones_find_Some in Hf as [Hpb Hpn].
        exists v, p, pr, pb. split; [left|]. repeat split; try done.
        by apply deref_app_l, deref_app_l.
      * destruct IH as (v' & p' & pr' & pb' & Hin & H).
        { rewrite length_app. simpl. lia. }
        exists v', p', pr', pb'. split; [by right|done].
Qed.

Lemma edit_bones_contains_app (bones extra : edit_bones_t) (name : string) :
  edit_bones_contains bones name = true →
  edit_bones_contains (bones ++ extra) name = true.
Proof.
  rewrite !edit_bones_contains_iff. intros (r & b & Hb & Hn).
  exists r, b. split; [by apply deref_app_l|done].
Qed.

Lemma graft_one_keeps_absent (blender_version : nat)
    (bone_name_mapping : option (gmap string string)) (bones : edit_bones_t)
    (u : Bone) (name : string) :
  edit_bones_contains bones name = false →
  original_name_of bone_name_mapping (b_name u) ≠ name →
  edit_bones_contains
    (bones ++ graft_one blender_version bone_name_mapping bones u) name = false.
Proof.
  intros Habsent Hne. apply not_true_is_false. intros Hin.
  apply edit_bones_contains_iff in Hin as (r & b & Hb & Hn).
  apply deref_app_inv in Hb as [Hb|[Hle Hb]].
  - apply not_true_iff_false in Habsent. apply Habsent.
    apply edit_bones_contains_iff. eauto.
  - destruct (graft_one_cases blender_version bone_name_mapping bones u)
      as [Hg|(p & pr & pb & _ & _ & Hg)]; rewrite Hg in Hb.
    + unfold deref in Hb. by rewrite lookup_nil in Hb.
    + destruct (r - length bones) as [|k]; [|by destruct k].
      injection Hb as <-.
      destruct (grafted_fields blender_version pr pb
                  (original_name_of bone_name_mapping (b_name u)) u) as (Hu & _).
      congruence.
Qed.

(** A source bone whose restored name is not in the rig, while the
    restored name of its parent is, is grafted under the rig bone that
    bears the latter name, unless an earlier source bone has taken its
    restored name. *)
Lemma attach_bones_grafts (blender_version : nat)
    (bone_name_mapping : option (gmap string string))
    (before : list Bone) (v : Bone) (after : list Bone) (p : string)
    (bones added : edit_bones_t) :
  attach_bones blender_version bone_name_mapping (before ++ v :: after) bones
  = Ok (bones ++ added) →
  b_parent v = Some p →
  edit_bones_contains bones (original_name_of bone_name_mapping (b_name v)) = false →
  edit_bones_contains bones (original_name_of bone_name_mapping p) = true →
  (∀ u, u ∈ before →
     original_name_of bone_name_mapping (b_name u)
     ≠ original_name_of bone_name_mapping (b_name v)) →
  ∃ r pr pb,
    edit_bones_find bones (original_name_of bone_name_mapping p) = Some (pr, pb)
    ∧ (length bones ≤ r)%nat
    ∧ deref (bones ++ added) r
      = Some (grafted blender_version pr pb
                (original_name_of bone_name_mapping (b_name v)) v).
Proof.
  revert bones added. induction before as [|u before IH];
    intros bones added Hrun Hp Habsent Hparent Hfirst.
  - rewrite app_nil_l, attach_bones_cons in Hrun.
    unfold graft_one in Hrun. rewrite Habsent, Hp in Hrun.
    unfold edit_bones_contains in Hparent. apply bool_decide_eq_true in Hparent.
    destruct Hparent as [[pr pb] Hf]. rewrite Hf in Hrun.
    destruct (attach_bones_total blender_version bone_name_mapping after
                (bones ++ [Some (grafted blender_version pr pb
                   (original_name_of bone_name_mapping (b_name v)) v)]))
      as [added1 Hrun1].
    rewrite Hrun1 in Hrun. injection Hrun as Hrun.
    rewrite <- app_assoc in Hrun. apply app_inv_head in Hrun as <-.
    exists (length bones), pr, pb. split; [done|]. split; [lia|].
    apply deref_Some. rewrite lookup_app_r by lia. by rewrite Nat.sub_diag.
  - rewrite <- app_comm_cons, attach_bones_cons in Hrun.
    destruct (attach_bones_total blender_version bone_name_mapping (before ++ v :: after)
                (bones ++ graft_one blender_version bone_name_mapping bones u))
      as [added1 Hrun1].
    rewrite Hrun1 in Hrun. injection Hrun as Hrun.
    rewrite <- app_assoc in Hrun. apply app_inv_head in Hrun as <-.
    destruct (IH _ _ Hrun1 Hp) as (r & pr & pb & Hf & Hr & Hb).
    + apply graft_one_keeps_absent; [done|]. apply Hfirst. left.
    + by apply edit_bones_contains_app.
    + intros u' Hu'. apply Hfirst. by right.
    + exists r, pr, pb. rewrite app_assoc. split; [|split; [|done]].
      * unfold edit_bones_contains in Hparent. apply bool_decide_eq_true in Hparent.
        destruct Hparent as [rb Hf0]. unfold edit_bones_find in *.
        rewrite (edit_bones_find_from_app _ _ _ _ _ Hf0) in Hf. congruence.
      * rewrite length_app in Hr. lia.
Qed.

(** C8.  Every bone that the grafting step creates has the head and
    tail of the source bone it was made for, unchanged, and is parented
    to a bone of the rig whose name is the restoration-mapped name of the
    source bone's parent.  In particular a source bone whose restored
    name is not in the rig (it has no role mapping), whose parent's
    restored name is (it has one and was renamed), and whose restored
    name no earlier source bone shares, is grafted under that renamed
    parent with the same head and tail. *)
Theorem grafting_preserves_geometry (blender_version : nat)
    (bones : edit_bones_t) (vrm_bones : list Bone)
    (bone_name_mapping : option (gmap string string)) :
  ∃ added,
    attach_unmapped_vrm_model_bones_to_rig blender_version bones vrm_bones
      bone_name_mapping = Ok (bones ++ added)
    ∧ (∀ r b, deref (bones ++ added) r = Some b → (length bones ≤ r)%nat →
         ∃ v p pr pb,
           v ∈ vrm_bones ∧ b_parent v = Some p
           ∧ eb_name b = original_name_of bone_name_mapping (b_name v)
           ∧ eb_head b = head_local v ∧ eb_tail b = tail_local v
           ∧ eb_parent b = Some pr
           ∧ deref (bones ++ added) pr = Some pb
           ∧ eb_name pb = original_name_of bone_name_mapping p)
    ∧ (∀ before v after p,
         vrm_bones = before ++ v :: after →
         b_parent v = Some p →
         edit_bones_contains bones (original_name_of bone_name_mapping (b_name v)) = false →
         edit_bones_contains bones (original_name_of bone_name_mapping p) = true →
         (∀ u, u ∈ before →
            original_name_of bone_name_mapping (b_name u)
            ≠ original_name_of bone_name_mapping (b_name v)) →
         ∃ r b pr pb,
           deref (bones ++ added) r = Some b ∧ (length bones ≤ r)%nat
           ∧ eb_name b = original_name_of bone_name_mapping (b_name v)
           ∧ eb_head b = head_local v ∧ eb_tail b = tail_local v
           ∧ eb_parent b = Some pr
           ∧ edit_bones_getitem bones (original_name_of bone_name_mapping p) = Ok (pr, pb)).
Proof.
  unfold attach_unmapped_vrm_model_bones_to_rig.
  destruct (attach_bones_total blender_version bone_name_mapping vrm_bones bones)
    as [added Hrun].
  exists added. split; [done|]. split.
  - by apply (attach_bones_added blender_version bone_name_mapping vrm_bones).
  - intros before v after p -> Hp Habsent Hparent Hfirst.
    destruct (attach_bones_grafts _ _ _ _ _ _ _ _ Hrun Hp Habsent Hparent Hfirst)
      as (r & pr & pb & Hf & Hr & Hb).
    destruct (grafted_fields blender_version pr pb
                (original_name_of bone_name_mapping (b_name v)) v)
      as (Hn & Hpar & Hh & Ht).
    eexists r, _, pr, pb. split; [exact Hb|]. repeat split; try done.
    by apply edit_bones_getitem_Ok.
Qed.

(** The theorem on the scenario of the specification: the source bone
    "Tail" has no role and its parent "Spine" has been renamed in the
    rig. *)
Lemma grafting_preserves_geometry_witness :
  let rig := [Some (mkEditBone "Spine" None (0, 0, 1)%float (0, 0, 2)%float
                      true false [] ["DEF"])] in
  let spine := mkBone "J_Bip_C_Spine" None (0, 0, 1)%float (0, 0, 2)%float in
  let tail := mkBone "J_Sec_Tail" (Some "J_Bip_C_Spine") (0, 1, 1)%float (0, 2, 1)%float in
  let restore : gmap string string :=
    <["J_Bip_C_Spine" := "Spine"]> (<["J_Sec_Tail" := "Tail"]> ∅) in
  ∃ added r b,
    attach_unmapped_vrm_model_bones_to_rig 4 rig [spine; tail] (Some restore)
    = Ok (rig ++ added)
    ∧ deref (rig ++ added) r = Some b
    ∧ eb_name b = "Tail"
    ∧ eb_head b = (0, 1, 1)%float ∧ eb_tail b = (0, 2, 1)%float
    ∧ eb_parent b = Some 0.
Proof.
  intros rig spine tail restore.
  destruct (grafting_preserves_geometry 4 rig [spine; tail] (Some restore))
    as (added & Hrun & _ & Hgraft).
  destruct (Hgraft [spine] tail [] "J_Bip_C_Spine" eq_refl eq_refl
              ltac:(vm_compute; reflexivity) ltac:(vm_compute; reflexivity))
    as (r & b & pr & pb & Hb & _ & Hn & Hh & Ht & Hpar & Hget).
  - intros u Hu Heq. apply list_elem_of_singleton in Hu. subst u.
    vm_compute in Heq. discriminate Heq.
  - exists added, r, b. split; [exact Hrun|]. split; [exact Hb|].
    vm_compute in Hget. injection Hget as <- _.
    split; [exact Hn|]. split; [exact Hh|]. split; [exact Ht | exact Hpar].
Defined.

(** ** Deformation rename *)

(** The guarded lookup in the restoration map cannot fail. *)
Lemma rename_target_total (bone_name_mapping : option (gmap string string))
    (vrm_bone_name : string) :
  ∃ target_name, rename_target bone_name_mapping vrm_bone_name = Ok target_name.
Proof.
  unfold rename_target. destruct bone_name_mapping as [m|]; [|eauto].
  destruct (mapping_truthy (Some m)); simpl; [|eauto].
  unfold dict_contains, dict_getitem.
  destruct (m !! vrm_bone_name) as [v|] eqn:Hv.
  - rewrite bool_decide_eq_true_2 by eauto. eauto.
  - rewrite bool_decide_eq_false_2 by (by intros [? ?]). eauto.
Qed.

Section RenameFailure.

Variable stored_name : list string → string → string → string.

(** The two ways in which one turn of the rename loop fails. *)
Lemma rename_pair_Err (bone_name_mapping : option (gmap string string))
    (bones : edit_bones_t) (t s : string) (e : exn) :
  rename_pair stored_name bone_name_mapping bones (t, s) = Err e
  ↔ (edit_bones_find bones (rename_address t) = None ∧ e = KeyError)
    ∨ (∃ r b, edit_bones_find bones (rename_address t) = Some (r, b)
         ∧ (t ∉ ["eye.L"; "eye.R"]) ∧ use_deform b = false ∧ e = AssertionError).
Proof.
  unfold rename_pair, rename_select, rename_address, edit_bones_getitem.
  destruct (rename_target_total bone_name_mapping s) as [target ->].
  case_bool_decide as Heye.
  - destruct (edit_bones_find bones ("ORG-" +:+ t)) as [[r b]|]; simpl.
    + split; [done|]. intros [[? _]|(? & ? & _ & ? & _)]; done.
    + split.
      * intros [= <-]. by left.
      * intros [[_ ->]|(? & ? & ? & _)]; done.
  - destruct (edit_bones_find bones ("DEF-" +:+ t)) as [[r b]|]; simpl.
    + destruct (use_deform b) eqn:Hd; simpl.
      * split; [done|]. intros [[? _]|(? & ? & [= <- <-] & _ & ? & _)]; congruence.
      * split.
        -- intros [= <-]. right. by exists r, b.
        -- intros [[? _]|(? & ? & _ & _ & _ & ->)]; done.
    + split.
      * intros [= <-]. by left.
      * intros [[_ ->]|(? & ? & ? & _)]; done.
Qed.

(** The rename loop fails exactly when one of its turns does, on the rig
    that the turns before it have left. *)
Lemma rename_pairs_Err (bone_name_mapping : option (gmap string string))
    (bone_mapping : list (string * string)) (bones : edit_bones_t) (e : exn) :
  rename_pairs stored_name bone_name_mapping bone_mapping bones = Err e
  ↔ ∃ before names after bones1,
      bone_mapping = before ++ names :: after
      ∧ rename_pairs stored_name bone_name_mapping before bones = Ok bones1
      ∧ rename_pair stored_name bone_name_mapping bones1 names = Err e.
Proof.
  revert bones. induction bone_mapping as [|names rest IH]; intros bones.
  - split; [done|]. intros (before & ? & ? & ? & Heq & _). by destruct before.
  - cbn [rename_pairs].
    destruct (rename_pair stored_name bone_name_mapping bones names) as [bones2|e2] eqn:Hstep.
    + rewrite bind_Ok, IH. split.
      * intros (before & names' & after & bones1 & -> & Hrun & Herr).
        exists (names :: before), names', after, bones1. split; [done|].
        split; [|done]. cbn [rename_pairs]. by rewrite Hstep.
      * intros (before & names' & after & bones1 & Heq & Hrun & Herr).
        destruct before as [|names0 before].
        -- injection Heq as <- <-. injection Hrun as <-. congruence.
        -- injection Heq as <- ->. cbn [rename_pairs] in Hrun.
           rewrite Hstep, bind_Ok in Hrun.
           by exists before, names', after, bones1.
    + rewrite bind_Err. split.
      * intros [= <-]. by exists [], names, rest, bones.
      * intros (before & names' & after & bones1 & Heq & Hrun & Herr).
        destruct before as [|names0 before].
        -- injection Heq as <- <-. injection Hrun as <-. congruence.
        -- injection Heq as <- ->. cbn [rename_pairs] in Hrun.
           by rewrite Hstep in Hrun.
Qed.

End RenameFailure.

(** ** Eye control derivation *)

Lemma finite_float_cases (x : float) :
  is_finite x = true →
  (∃ s, Prim2SF x = S754_zero s) ∨ (∃ s m e, Prim2SF x = S754_finite s m e).
Proof.
  unfold is_finite, is_nan, is_infinity. intros H.
  apply negb_true_iff, orb_false_iff in H as [Hnan Hinf].
  apply negb_false_iff in Hnan.
  rewrite FloatAxioms.eqb_spec in Hnan.
  rewrite FloatAxioms.eqb_spec, abs_spec in Hinf.
  destruct (Prim2SF x) as [s|s| |s m e]; eauto.
  - destruct s; discriminate Hinf.
  - discriminate Hnan.
Qed.

(** Two equal finite coordinates make the denominator of the slope
    zero. *)
Lemma float_sub_diag_zero (x : float) :
  is_finite x = true → (x - x =? 0)%float = true.
Proof.
  intros H. rewrite FloatAxioms.eqb_spec, sub_spec.
  destruct (finite_float_cases x H) as [[s ->]|(s & m & e & ->)].
  - by destruct s.
  - unfold SF64sub, SFsub. cbv zeta.
    set (a := cond_Zopp s _).
    replace (a - a)%Z with 0%Z by (symmetry; apply Z.sub_diag).
    reflexivity.
Qed.

Section EyeControlsProperties.

Variable mat_vec : mat4 → vec3 → vec3.
Variable bone_length : EditBone → float.

(** The first loop binds the locals of the master eye bone to the
    world-space head and tail of the bone called ["master_eye.L"]. *)
Lemma read_eye_bones_master (obj_matrix_world : mat4)
    (to_visit : list (nat * EditBone)) (locals : eye_locals) (b : EditBone) :
  eb_name b = "master_eye.L" →
  (∀ r' b', (r', b') ∈ to_visit → eb_name b' = "master_eye.L" → b' = b) →
  master_eye locals = Some (mat_vec obj_matrix_world (eb_head b),
                            mat_vec obj_matrix_world (eb_tail b))
  ∨ (∃ r, (r, b) ∈ to_visit) →
  master_eye (read_eye_bones mat_vec bone_length obj_matrix_world to_visit locals)
  = Some (mat_vec obj_matrix_world (eb_head b), mat_vec obj_matrix_world (eb_tail b)).
Proof.
  intros Hname. revert locals.
  induction to_visit as [|[r0 b0] rest IH]; intros locals Huniq Hsrc.
  - destruct Hsrc as [?|[r Hin]]; [done|]. by apply elem_of_nil in Hin.
  - cbn [read_eye_bones]. case_bool_decide as Hm.
    + rewrite (Huniq r0 b0) by (done || left).
      apply IH; [|by left]. intros r' b' Hin. apply (Huniq r' b'). by right.
    + assert (∀ locals', master_eye locals' = master_eye locals →
                master_eye (read_eye_bones mat_vec bone_length obj_matrix_world rest locals')
                = Some (mat_vec obj_matrix_world (eb_head b),
                        mat_vec obj_matrix_world (eb_tail b))) as Hrest.
      { intros locals' Hsame. apply IH.
        - intros r' b' Hin. apply (Huniq r' b'). by right.
        - destruct Hsrc as [Hl|[r Hin]]; [left; congruence|right].
          apply elem_of_cons in Hin as [[= -> ->]|Hin]; [done|eauto]. }
      case_bool_decide; by apply Hrest.
Qed.

(** C9.  When the reference pair is horizontally degenerate, that is,
    when the denominator of the slope, the world-space tail x minus the
    world-space head x of the master eye control bone, is zero (as it
    is whenever the two coordinates are the same finite number), the
    slope [x_a] is 0 and the computed [x_position] is the world-space
    head x of the master eye control bone itself. *)
Theorem eye_x_position_degenerate (obj_matrix_world : mat4) (bones : edit_bones_t)
    (r : nat) (b : EditBone) :
  deref bones r = Some b →
  eb_name b = "master_eye.L" →
  (∀ r' b', deref bones r' = Some b' → eb_name b' = "master_eye.L" → r' = r) →
  let locals :=
    read_eye_bones mat_vec bone_length obj_matrix_world (edit_bones_iter bones)
      (mkEyeLocals None None) in
  let m_head := mat_vec obj_matrix_world (eb_head b) in
  let m_tail := mat_vec obj_matrix_world (eb_tail b) in
  (vec_x m_tail - vec_x m_head =? 0)%float = true →
  eye_x_a locals = Ok 0%float ∧ eye_x_position locals = Ok (vec_x m_head).
Proof.
  intros Hb Hname Huniq locals m_head m_tail Hzero.
  assert (master_eye locals = Some (m_head, m_tail)) as Hm.
  { apply read_eye_bones_master; [done| |].
    - intros r' b' Hin%edit_bones_iter_elem Hn'.
      assert (r' = r) as -> by by apply (Huniq r' b'). congruence.
    - right. exists r. by apply edit_bones_iter_elem. }
  assert (eye_x_a locals = Ok 0%float) as Hxa.
  { unfold eye_x_a. rewrite Hm. simpl.
    destruct m_head as [[hx hy] hz], m_tail as [[tx ty] tz].
    unfold float_ne, vec_x in *. simpl in Hzero. by rewrite Hzero. }
  split; [done|].
  unfold eye_x_position. rewrite Hxa, Hm. simpl.
  by destruct m_head as [[hx hy] hz].
Qed.

(** The loops of the eye step pass over absent bones, but its
    arithmetic reads the locals of the master eye bone: without a bone
    called ["master_eye.L"] the step raises. *)
Lemma read_eye_bones_no_master (obj_matrix_world : mat4)
    (to_visit : list (nat * EditBone)) (locals : eye_locals) :
  (∀ r b, (r, b) ∈ to_visit → eb_name b ≠ "master_eye.L") →
  master_eye (read_eye_bones mat_vec bone_length obj_matrix_world to_visit locals)
  = master_eye locals.
Proof.
  revert locals. induction to_visit as [|[r0 b0] rest IH]; intros locals Hnone; [done|].
  cbn [read_eye_bones].
  rewrite bool_decide_eq_false_2 by (apply (Hnone r0 b0); left).
  assert (∀ r b, (r, b) ∈ rest → eb_name b ≠ "master_eye.L") as Hrest
    by (intros r b Hin; apply (Hnone r b); by right).
  case_bool_decide; by rewrite IH.
Qed.

Lemma eye_step_needs_master_eye (set_bone_length : float → EditBone → EditBone)
    (use_connect : nat → bool) (obj_matrix_world : mat4) (bones : edit_bones_t) :
  (∀ r b, deref bones r = Some b → eb_name b ≠ "master_eye.L") →
  modify_rigify_rig_eyes_control_bones mat_vec bone_length set_bone_length use_connect
    obj_matrix_world bones = Err UnboundLocalError.
Proof.
  intros Hnone. unfold modify_rigify_rig_eyes_control_bones, eye_x_a.
  rewrite read_eye_bones_no_master; [done|].
  intros r b Hin%edit_bones_iter_elem. by apply (Hnone r b).
Qed.

End EyeControlsProperties.

(** A rig with an eye bone and no master eye bone. *)
Lemma eye_step_needs_master_eye_witness :
  modify_rigify_rig_eyes_control_bones (fun _ v => v) (fun _ => 1%float)
    (fun _ b => b) (fun _ => false)
    ((1, 0, 0, 0), (0, 1, 0, 0), (0, 0, 1, 0), (0, 0, 0, 1))%float
    [Some (mkEditBone "eye.L" None (0.25, 1, 3)%float (0.25, 1, 4)%float
             false false [] [])]
  = Err UnboundLocalError.
Proof.
  apply eye_step_needs_master_eye.
  intros [|r] b Hb Hn.
  - injection Hb as <-. discriminate Hn.
  - destruct r; discriminate Hb.
Defined.

(** The theorem on a rig whose master eye bone stands upright in world
    space (head and tail share the finite x-coordinate 0.5). *)
Lemma eye_x_position_degenerate_witness :
  let rig := [Some (mkEditBone "master_eye.L" None (0.5, 0, 3)%float (0.5, 0, 4)%float
                      false false [] []);
              Some (mkEditBone "eye.L" None (0.25, 1, 3)%float (0.25, 1, 4)%float
                      false false [] [])] in
  let locals :=
    read_eye_bones (fun _ v => v) (fun _ => 1%float)
      ((1, 0, 0, 0), (0, 1, 0, 0), (0, 0, 1, 0), (0, 0, 0, 1))%float
      (edit_bones_iter rig) (mkEyeLocals None None) in
  eye_x_a locals = Ok 0%float ∧ eye_x_position locals = Ok 0.5%float.
Proof.
  intros rig locals.
  apply (eye_x_position_degenerate (fun _ v => v) (fun _ => 1%float)
           ((1, 0, 0, 0), (0, 1, 0, 0), (0, 0, 1, 0), (0, 0, 0, 1))%float rig 0
           (mkEditBone "master_eye.L" None (0.5, 0, 3)%float (0.5, 0, 4)%float
              false false [] [])).
  - reflexivity.
  - reflexivity.
  - intros [|[|r']] b' Hb' Hn'; [reflexivity| |].
    + injection Hb' as <-. discriminate Hn'.
    + destruct r'; discriminate Hb'.
  - apply float_sub_diag_zero. reflexivity.
Defined.

(** ** Vertex groups of a copied mesh *)

Section VertexGroupsProperties.

Variable hash : string → Z.
Variable stored_name : list string → string → string → string.

Lemma temp_entries_keys (m : gmap string string) (names : list string) :
  (temp_entries hash m names).*1 = temp_name hash <$> affected m names.
Proof.
  unfold temp_entries, affected. induction names as [|n names IH]; [done|].
  rewrite filter_cons. simpl. destruct (m !! n) as [t|] eqn:Hn; simpl.
  - f_equal. exact IH.
  - exact IH.
Qed.

Lemma temp_entries_elem (m : gmap string string) (names : list string)
    (k : string) (v : string * string) :
  (k, v) ∈ temp_entries hash m names
  ↔ ∃ name target, name ∈ names ∧ m !! name = Some target
      ∧ k = temp_name hash name ∧ v = (name, target).
Proof.
  unfold temp_entries. rewrite list_elem_of_omap. split.
  - intros (name & Hin & Hsome). destruct (m !! name) as [target|] eqn:Hn; [|done].
    simpl in Hsome. injection Hsome as <- <-. by exists name, target.
  - intros (name & target & Hin & Hn & -> & ->). exists name. by rewrite Hn.
Qed.

Lemma temp_entries_app (m : gmap string string) (l1 l2 : list string) :
  temp_entries hash m (l1 ++ l2) = temp_entries hash m l1 ++ temp_entries hash m l2.
Proof. apply omap_app. Qed.

Lemma stage_name_cases (m : gmap string string) (name : string) :
  (∃ target, m !! name = Some target ∧ stage_name hash m name = temp_name hash name
             ∧ final_name m name = target
             ∧ temp_entries hash m [name] = [(temp_name hash name, (name, target))])
  ∨ (m !! name = None ∧ stage_name hash m name = name ∧ final_name m name = name
     ∧ temp_entries hash m [name] = []).
Proof.
  unfold stage_name, final_name, temp_entries. simpl.
  destruct (m !! name) as [target|]; [left; by exists target | by right].
Qed.

(** What the first loop does whatever the host stores: after [k]
    turns [temp_mapping] holds the entries of the first [k] groups, the
    groups that are still to be visited bear their names, and so do the
    groups whose name is not a key of the map. *)
Lemma first_loop_frame (m : gmap string string) (names : list string) (k : nat) :
  length (first_loop hash stored_name m names k).1 = length names
  ∧ (first_loop hash stored_name m names k).2
    = foldl insert_pair ∅ (temp_entries hash m (take k names))
  ∧ (∀ i, (k ≤ i)%nat → (first_loop hash stored_name m names k).1 !! i = names !! i)
  ∧ (∀ i n, names !! i = Some n → m !! n = None →
       (first_loop hash stored_name m names k).1 !! i = Some n).
Proof.
  unfold first_loop. induction k as [|k (IHlen & IHmap & IHrest & IHkept)].
  { rewrite take_0. done. }
  rewrite seq_S, foldl_app. cbn [foldl Nat.add].
  set (st := foldl (to_temp_name hash stored_name m) (names, ∅) (seq 0 k)) in *.
  unfold to_temp_name. rewrite (IHrest k) by lia.
  destruct (names !! k) as [n|] eqn:Hn.
  - rewrite (take_S_r _ _ _ Hn), temp_entries_app, foldl_app.
    destruct (stage_name_cases m n) as [(t & Hmn & _ & _ & ->)|(Hmn & _ & _ & ->)];
      rewrite Hmn; cbn [fst snd foldl].
    + split; [by rewrite length_insert|]. split; [by rewrite IHmap|]. split.
      * intros i Hi. rewrite list_lookup_insert_ne by lia. apply IHrest. lia.
      * intros i n0 Hi Hm0. rewrite list_lookup_insert_ne; [by apply IHkept|].
        intros <-. congruence.
    + split; [done|]. split; [done|]. split; [|done].
      intros i Hi. apply IHrest. lia.
  - apply lookup_ge_None in Hn.
    rewrite (take_ge names (S k)) by lia. rewrite (take_ge names k) in IHmap by lia.
    split; [done|]. split; [done|]. split; [|done].
    intros i Hi. apply IHrest. lia.
Qed.

Lemma temp_mapping_lookup_affected (m : gmap string string) (names : list string)
    (name target : string) :
  NoDup (temp_name hash <$> affected m names) →
  name ∈ names → m !! name = Some target →
  foldl insert_pair ∅ (temp_entries hash m names) !! temp_name hash name
  = Some (name, target).
Proof.
  intros Hnd Hin Hn. apply foldl_insert_pair_lookup_in.
  - by rewrite temp_entries_keys.
  - apply temp_entries_elem. by exists name, target.
Qed.

Lemma temp_mapping_lookup_unaffected (m : gmap string string) (names : list string)
    (name : string) :
  (∀ n, n ∈ affected m names → temp_name hash n ≠ name) →
  foldl insert_pair ∅ (temp_entries hash m names) !! name = None.
Proof.
  intros Hfresh.
  destruct (foldl insert_pair ∅ (temp_entries hash m names) !! name) as [v|] eqn:Hv; [|done].
  apply foldl_insert_pair_lookup_Some in Hv as [Hin|Hempty];
    [|by rewrite lookup_empty in Hempty].
  apply temp_entries_elem in Hin as (n & t & Hin & Hn & -> & _).
  exfalso. apply (Hfresh n); [|done].
  apply list_elem_of_filter. eauto.
Qed.

Lemma to_target_name_cases (temp_mapping : gmap string (string * string))
    (names : list string) (k : nat) :
  to_target_name stored_name temp_mapping names k = names
  ∨ ∃ name original target,
      names !! k = Some name ∧ temp_mapping !! name = Some (original, target)
      ∧ to_target_name stored_name temp_mapping names k
        = <[k := stored_name names name target]> names.
Proof.
  unfold to_target_name. destruct (names !! k) as [name|]; [|by left].
  destruct (temp_mapping !! name) as [[original target]|] eqn:Hname; [|by left].
  right. by exists name, original, target.
Qed.


(** In the second loop a group whose name is not a key of
    [temp_mapping] keeps its name. *)
Lemma to_target_names_frame (temp_mapping : gmap string (string * string))
    (names : list string) (k i : nat) (n : string) :
  names !! i = Some n → temp_mapping !! n = None →
  foldl (to_target_name stored_name temp_mapping) names (seq 0 k) !! i = Some n.
Proof.
  intros Hi Hn. induction k as [|k IH]; [done|].
  rewrite seq_S, foldl_app. cbn [foldl Nat.add].
  set (current := foldl (to_target_name stored_name temp_mapping) names (seq 0 k)) in *.
  destruct (to_target_name_cases temp_mapping current k)
    as [->|(name & original & target & Hk & Hname & ->)]; [done|].
  rewrite list_lookup_insert_ne; [done|]. intros <-. congruence.
Qed.

Lemma to_target_names_length (temp_mapping : gmap string (string * string))
    (names : list string) (k : nat) :
  length (foldl (to_target_name stored_name temp_mapping) names (seq 0 k))
  = length names.
Proof.
  induction k as [|k IH]; [done|].
  rewrite seq_S, foldl_app. cbn [foldl Nat.add].
  set (current := foldl (to_target_name stored_name temp_mapping) names (seq 0 k)) in *.
  destruct (to_target_name_cases temp_mapping current k)
    as [->|(name & original & target & Hk & Hname & ->)]; [done|].
  by rewrite length_insert.
Qed.

Lemma NoDup_fmap_inj_on {A B} (f : A → B) (l : list A) (x y : A) :
  NoDup (f <$> l) → x ∈ l → y ∈ l → f x = f y → x = y.
Proof.
  intros Hnd [i Hi]%list_elem_of_lookup [j Hj]%list_elem_of_lookup Heq.
  assert (i = j) as ->.
  { apply (NoDup_lookup (f <$> l) i j (f x) Hnd).
    - by rewrite list_lookup_fmap, Hi.
    - by rewrite list_lookup_fmap, Hj, Heq. }
  congruence.
Qed.

Lemma NoDup_two_parts {A} (f g : A → A) (l1 l2 : list A) :
  NoDup (l1 ++ l2) →
  (∀ x y, x ∈ l1 ++ l2 → y ∈ l1 ++ l2 → f x = f y → x = y) →
  (∀ x y, x ∈ l1 ++ l2 → y ∈ l1 ++ l2 → g x = g y → x = y) →
  (∀ x y, x ∈ l1 → y ∈ l2 → f x ≠ g y) →
  NoDup ((f <$> l1) ++ (g <$> l2)).
Proof.
  intros Hnd Hf Hg Hfg. apply NoDup_app in Hnd as (Hnd1 & _ & Hnd2).
  apply NoDup_app. split; [|split].
  - apply NoDup_fmap_2_strong; [|done].
    intros x y Hx Hy. apply Hf; apply elem_of_app; by left.
  - intros z (x & -> & Hx)%list_elem_of_fmap (y & Heq & Hy)%list_elem_of_fmap.
    by apply (Hfg x y).
  - apply NoDup_fmap_2_strong; [|done].
    intros x y Hx Hy. apply Hg; apply elem_of_app; by right.
Qed.

(** *** The host keeps the names distinct *)






(** *** When the rename gives the intended names *)

Lemma temp_name_host_name (name : string) : host_name (temp_name hash name) = true.
Proof. reflexivity. Qed.

Section Distinct.

Variables (m : gmap string string) (names : list string).
Hypothesis free_names_stored : stores_free_names stored_name.
Hypothesis targets_host_names :
  ∀ n target, n ∈ names → m !! n = Some target → host_name target = true.
Hypothesis names_distinct : NoDup names.
Hypothesis final_names_distinct : NoDup (final_name m <$> names).
Hypothesis temp_names_distinct : NoDup (temp_name hash <$> affected m names).
Hypothesis temp_names_fresh :
  ∀ n, n ∈ affected m names →
    (temp_name hash n ∉ names) ∧ (temp_name hash n ∉ final_name m <$> names).

Lemma affected_elem (n target : string) :
  n ∈ names → m !! n = Some target → n ∈ affected m names.
Proof. intros Hin Hn. apply list_elem_of_filter. eauto. Qed.

Lemma stage_name_inj (x y : string) :
  x ∈ names → y ∈ names → stage_name hash m x = stage_name hash m y → x = y.
Proof.
  intros Hx Hy.
  destruct (stage_name_cases m x) as [(tx & Hmx & -> & _)|(Hmx & -> & _)],
           (stage_name_cases m y) as [(ty & Hmy & -> & _)|(Hmy & -> & _)];
    intros Heq.
  - eapply (NoDup_fmap_inj_on (temp_name hash)); eauto using affected_elem.
  - exfalso. destruct (temp_names_fresh x) as [Hfresh _]; [by eapply affected_elem|].
    by rewrite Heq in Hfresh.
  - exfalso. destruct (temp_names_fresh y) as [Hfresh _]; [by eapply affected_elem|].
    by rewrite <- Heq in Hfresh.
  - done.
Qed.

Lemma final_name_inj (x y : string) :
  x ∈ names → y ∈ names → final_name m x = final_name m y → x = y.
Proof. intros Hx Hy. by apply (NoDup_fmap_inj_on (final_name m) names). Qed.

Lemma split_distinct (k : nat) (x y : string) :
  x ∈ take k names → y ∈ drop k names → x ≠ y.
Proof.
  intros Hx Hy ->. rewrite <- (take_drop k names) in names_distinct.
  apply NoDup_app in names_distinct as (_ & Hdis & _). by apply (Hdis y).
Qed.

Lemma take_elem (k : nat) (x : string) : x ∈ take k names → x ∈ names.
Proof. intros Hx. rewrite <- (take_drop k names), elem_of_app. by left. Qed.

Lemma drop_elem (k : nat) (x : string) : x ∈ drop k names → x ∈ names.
Proof. intros Hx. rewrite <- (take_drop k names), elem_of_app. by right. Qed.

(** The first loop after [k] turns: the first [k] groups bear their
    intermediate names, the others still their own; every temporary
    name was free when it was written. *)
Lemma first_loop_spec (k : nat) :
  (k ≤ length names)%nat →
  first_loop hash stored_name m names k
  = ((stage_name hash m <$> take k names) ++ drop k names,
     foldl insert_pair ∅ (temp_entries hash m (take k names))).
Proof.
  unfold first_loop. induction k as [|k IH]; intros Hk.
  - by rewrite take_0, drop_0.
  - rewrite seq_S, foldl_app, IH by lia. cbn [foldl Nat.add].
    destruct (lookup_lt_is_Some_2 names k ltac:(lia)) as [n Hn].
    assert (length (stage_name hash m <$> take k names) = k) as Hlen
      by (rewrite length_fmap, length_take; lia).
    unfold to_temp_name. cbn [fst snd].
    rewrite lookup_app_r, Hlen, Nat.sub_diag, lookup_drop, Nat.add_0_r, Hn by lia.
    rewrite (take_S_r _ _ _ Hn), fmap_app, temp_entries_app, foldl_app.
    assert (Hn_in : n ∈ drop k names) by (rewrite (drop_S _ _ _ Hn); left).
    rewrite (drop_S _ _ _ Hn), <- app_assoc. cbn [fmap list_fmap app].
    destruct (stage_name_cases m n) as [(t & Hmn & -> & _ & ->)|(-> & -> & _ & ->)];
      [|done].
    rewrite Hmn. rewrite free_names_stored; [| apply temp_name_host_name |].
    + rewrite insert_app_r_alt, Hlen, Nat.sub_diag by lia. done.
    + assert (Haff : n ∈ affected m names)
        by (apply (affected_elem n t); [by apply (drop_elem k)|done]).
      destruct (temp_names_fresh n Haff) as [Hfresh _].
      rewrite elem_of_app. intros [Hin|Hin].
      * apply list_elem_of_fmap in Hin as (x & Heq & Hx).
        destruct (stage_name_cases m x) as [(tx & Hmx & Hs & _)|(Hmx & Hs & _)];
          rewrite Hs in Heq.
        -- apply (split_distinct k x n Hx Hn_in).
           eapply (NoDup_fmap_inj_on (temp_name hash)); eauto.
           apply (affected_elem x tx); [by apply (take_elem k)|done].
        -- apply Hfresh. rewrite Heq. by apply (take_elem k).
      * apply Hfresh. apply (drop_elem k). by rewrite (drop_S _ _ _ Hn).
Qed.

(** The second loop after [k] turns: the first [k] groups bear their
    final names, the others their intermediate names; every final name
    was free when it was written. *)
Lemma second_loop_spec (k : nat) :
  (k ≤ length names)%nat →
  second_loop hash stored_name m names k
  = (final_name m <$> take k names) ++ (stage_name hash m <$> drop k names).
Proof.
  unfold second_loop.
  rewrite first_loop_spec by lia. rewrite take_ge, drop_ge, app_nil_r by lia.
  cbn [fst snd]. induction k as [|k IH]; intros Hk.
  - by rewrite take_0, drop_0.
  - rewrite seq_S, foldl_app, IH by lia. cbn [foldl Nat.add].
    destruct (lookup_lt_is_Some_2 names k ltac:(lia)) as [n Hn].
    assert (length (final_name m <$> take k names) = k) as Hlen
      by (rewrite length_fmap, length_take; lia).
    unfold to_target_name.
    rewrite lookup_app_r, Hlen, Nat.sub_diag by lia.
    assert (Hn_drop : n ∈ drop k names) by (rewrite (drop_S _ _ _ Hn); left).
    assert (Hin : n ∈ names) by (by eapply list_elem_of_lookup_2).
    assert (Hrest : ∀ y, y ∈ drop (S k) names → y ∈ names ∧ y ≠ n).
    { intros y Hy. split; [by apply (drop_elem (S k))|]. intros ->.
      apply (split_distinct (S k) n n); [|done|done].
      rewrite (take_S_r _ _ _ Hn), elem_of_app. right. left. }
    rewrite (drop_S _ _ _ Hn), (take_S_r _ _ _ Hn), fmap_app, <- app_assoc.
    cbn [fmap list_fmap app lookup list_lookup].
    destruct (stage_name_cases m n) as [(t & Hmn & Hs & Hf & _)|(Hmn & Hs & Hf & _)];
      rewrite Hs, Hf.
    + rewrite (temp_mapping_lookup_affected m names n t) by done.
      assert (Haff : n ∈ affected m names) by by apply (affected_elem n t).
      destruct (temp_names_fresh n Haff) as [_ Hfresh].
      rewrite free_names_stored; [|by apply (targets_host_names n)|].
      * rewrite insert_app_r_alt, Hlen, Nat.sub_diag by lia. done.
      * rewrite elem_of_app, elem_of_cons. intros [Hx|[Heq|Hy]].
        -- apply list_elem_of_fmap in Hx as (x & Heq & Hx).
           apply (split_distinct k x n Hx Hn_drop).
           apply final_name_inj; [by apply (take_elem k)|done|]. by rewrite <- Heq, Hf.
        -- apply Hfresh. rewrite <- Heq, <- Hf. by apply list_elem_of_fmap_2.
        -- apply list_elem_of_fmap in Hy as (y & Heq & Hy).
           destruct (Hrest y Hy) as [Hy_in Hne].
           destruct (stage_name_cases m y) as [(ty & Hmy & Hsy & _)|(Hmy & Hsy & Hfy & _)];
             rewrite Hsy in Heq.
           ++ destruct (temp_names_fresh y) as [_ Hfresh_y];
                [by apply (affected_elem y ty)|].
              apply Hfresh_y. rewrite <- Heq, <- Hf. by apply list_elem_of_fmap_2.
           ++ apply Hne. symmetry. apply final_name_inj; [done..|]. by rewrite Hf, Hfy.
    + rewrite temp_mapping_lookup_unaffected; [done|].
      intros n' Hn' Heq. destruct (temp_names_fresh n' Hn') as [Hfresh _].
      apply Hfresh. by rewrite Heq.
Qed.

End Distinct.

(** When the two-phase rename gives the intended names.  Let the
    names of the vertex groups be distinct, the names they are meant to
    end with (the value of the restoration map for a group that it
    renames, the group's own name otherwise) be distinct names that the
    host can hold, and the temporary names of the renamed groups be
    distinct and differ from every group name and every final name.
    Then every name is free when it is written, and the rename ends
    with exactly the intended names. *)
Theorem two_phase_rename_gives_final_names (m : gmap string string)
    (names : list string) :
  stores_free_names stored_name →
  (∀ n target, n ∈ names → m !! n = Some target → host_name target = true) →
  NoDup names →
  NoDup (final_name m <$> names) →
  NoDup (temp_name hash <$> affected m names) →
  (∀ n, n ∈ affected m names →
     (temp_name hash n ∉ names) ∧ (temp_name hash n ∉ final_name m <$> names)) →
  update_vertex_groups_to_original_names hash stored_name names (Some m)
  = final_name m <$> names.
Proof.
  intros Hfree Hhost Hnames Hfinal Htemp Hfresh.
  unfold update_vertex_groups_to_original_names.
  rewrite second_loop_spec by done.
  by rewrite take_ge, drop_ge, app_nil_r by lia.
Qed.

(** Two renamed groups whose names have the same hash modulo 1000000
    are given the same temporary name.  The host alters it for the
    second group, whose entry has replaced the first group's in
    [temp_mapping] under the unaltered name: the first group ends with
    what the host stores for the target of the second, and the second
    group is left with its altered temporary name. *)
Theorem temp_name_collision_strands_a_group (m : gmap string string)
    (n1 n2 t1 t2 : string) :
  stores_free_names stored_name →
  stores_fresh_names stored_name →
  (hash n1 `mod` 1000000 = hash n2 `mod` 1000000)%Z →
  m !! n1 = Some t1 → m !! n2 = Some t2 →
  temp_name hash n2 ∉ [n1; n2] →
  let temp := temp_name hash n2 in
  let altered := stored_name [temp; n2] n2 temp in
  altered ≠ temp
  ∧ (first_loop hash stored_name m [n1; n2] 2).1 = [temp; altered]
  ∧ update_vertex_groups_to_original_names hash stored_name [n1; n2] (Some m)
    = [stored_name [temp; altered] temp t2; altered].
Proof.
  intros Hfree Hfresh Hhash H1 H2 Htemp temp altered.
  assert (temp_name hash n1 = temp) as Htemp1
    by (unfold temp, temp_name; by rewrite Hhash).
  assert (Haltered : altered ≠ temp).
  { destruct (Hfresh [temp; n2] n2 temp) as [Hout|Heq].
    - fold altered in Hout. intros Heq. apply Hout. rewrite Heq. left.
    - fold altered in Heq. rewrite Heq. intros Hn. apply Htemp. unfold temp in Hn.
      rewrite <- Hn. right. left. }
  split; [done|].
  unfold update_vertex_groups_to_original_names, second_loop, first_loop.
  cbn [length seq foldl]. unfold to_temp_name. cbn [fst snd lookup list_lookup].
  rewrite H1, Htemp1. cbn [fst snd lookup list_lookup insert list_insert].
  rewrite (Hfree [n1; n2] n1 temp (temp_name_host_name n2) Htemp).
  cbn [lookup list_lookup]. rewrite H2. fold temp. cbn [fst snd insert list_insert].
  fold altered. split; [done|].
  unfold to_target_name. cbn [lookup list_lookup].
  rewrite insert_insert_eq, lookup_insert_eq. cbn [insert list_insert lookup list_lookup].
  rewrite lookup_insert_ne by done. by rewrite lookup_empty.
Qed.

End VertexGroupsProperties.


(** Two groups that swap their names end with each other's name. *)
Lemma two_phase_rename_gives_final_names_witness :
  update_vertex_groups_to_original_names sample_hash sample_stored_name ["A"; "B"]
    (Some (<["A" := "B"]> (<["B" := "A"]> ∅))) = ["B"; "A"].
Proof.
  rewrite (two_phase_rename_gives_final_names sample_hash sample_stored_name
             (<["A" := "B"]> (<["B" := "A"]> ∅)) ["A"; "B"]).
  - reflexivity.
  - apply sample_stores_free_names.
  - intros n target Hn.
    apply elem_of_cons in Hn as [->|Hn]; [|apply list_elem_of_singleton in Hn as ->].
    + rewrite lookup_insert_eq. by intros [= <-].
    + rewrite lookup_insert_ne, lookup_insert_eq by done. by intros [= <-].
  - apply (bool_decide_unpack _). vm_compute. exact I.
  - apply (bool_decide_unpack _). vm_compute. exact I.
  - apply (bool_decide_unpack _). vm_compute. exact I.
  - apply Forall_forall. apply (bool_decide_unpack _). vm_compute. exact I.
Defined.

(** Two groups whose names start with the same character collide under
    the stand-in hash. *)
Lemma temp_name_collision_strands_a_group_witness :
  update_vertex_groups_to_original_names sample_hash sample_stored_name ["Aa"; "Ab"]
    (Some (<["Aa" := "P"]> (<["Ab" := "Q"]> ∅)))
  = ["Q"; "_TMP_000065.001"].
Proof.
  destruct (temp_name_collision_strands_a_group sample_hash sample_stored_name
              (<["Aa" := "P"]> (<["Ab" := "Q"]> ∅)) "Aa" "Ab" "P" "Q")
    as (_ & _ & Hend).
  - apply sample_stores_free_names.
  - apply sample_stores_fresh_names.
  - reflexivity.
  - vm_compute. reflexivity.
  - vm_compute. reflexivity.
  - apply (bool_decide_unpack _). vm_compute. exact I.
  - rewrite Hend. vm_compute. reflexivity.
Defined.

(** ** The role correspondence builder *)

Lemma mapping_loop_omap (metarig_human_bones vrm_human_bones : HumanBones)
    (bone_types : list string) (bone_mapping : list (string * string)) :
  (∀ bone_type node, bone_type ∈ bone_types →
     hb_getattr metarig_human_bones bone_type = AttrHumanBone node →
     is_Some (bone_name node)) →
  mapping_loop metarig_human_bones vrm_human_bones bone_types bone_mapping
  = Ok (bone_mapping ++ omap (role_pair metarig_human_bones vrm_human_bones) bone_types).
Proof.
  revert bone_mapping. induction bone_types as [|bone_type rest IH];
    intros bone_mapping Htyped.
  - by rewrite app_nil_r.
  - assert (∀ acc, mapping_loop metarig_human_bones vrm_human_bones rest acc
              = Ok (acc ++ omap (role_pair metarig_human_bones vrm_human_bones) rest))
      as Hrest.
    { intros acc. apply IH. intros k node Hk. apply Htyped. by right. }
    cbn [mapping_loop omap list_omap]. unfold role_pair at 1.
    case_bool_decide; [apply Hrest|].
    destruct (hb_getattr metarig_human_bones bone_type) as [| |metarig_bone] eqn:Hm;
      try apply Hrest.
    destruct (hb_getattr vrm_human_bones bone_type) as [| |vrm_bone]; try apply Hrest.
    destruct (Htyped bone_type metarig_bone ltac:(left) Hm) as [metarig_name Hname].
    unfold get_bone_name. rewrite Hname.
    destruct (bone_name vrm_bone) as [vrm_name|]; [|apply Hrest].
    destruct (str_truthy vrm_name); [|apply Hrest].
    rewrite bind_Ok, Hrest. by rewrite <- app_assoc.
Qed.

(** What the builder does: for the keys of the template's role map, in
    their order and leaving out the two bookkeeping keys, one pair for
    every role that is a human bone in both maps and whose binding in the
    source map is not empty; whether the binding in the template map is
    empty is not examined. *)
Lemma mapping_metarig_and_vrm_model_bones_omap
    (metarig_human_bones vrm_human_bones : HumanBones) :
  (∀ bone_type node,
     hb_getattr metarig_human_bones bone_type = AttrHumanBone node →
     is_Some (bone_name node)) →
  mapping_metarig_and_vrm_model_bones metarig_human_bones vrm_human_bones
  = Ok (omap (role_pair metarig_human_bones vrm_human_bones)
          (hb_keys metarig_human_bones)).
Proof.
  intros Htyped. unfold mapping_metarig_and_vrm_model_bones.
  rewrite mapping_loop_omap; [done|]. intros k node _. apply Htyped.
Qed.

(** C1 fails on the code: for the role jaw, bound in the source map and
    not in the template map, a pair is emitted all the same, with the
    empty string as the name of the template bone. *)
Theorem correspondence_pairs_unbound_template_role :
  mapping_metarig_and_vrm_model_bones sample_metarig_human_bones sample_vrm_human_bones
  = Ok [("spine", "J_Bip_C_Hips"); ("", "J_Adj_C_Jaw")].
Proof. reflexivity. Qed.

(** The characterisation on the sample role maps. *)
Lemma mapping_metarig_and_vrm_model_bones_omap_witness :
  mapping_metarig_and_vrm_model_bones sample_metarig_human_bones sample_vrm_human_bones
  = Ok (omap (role_pair sample_metarig_human_bones sample_vrm_human_bones)
          (hb_keys sample_metarig_human_bones)).
Proof.
  apply mapping_metarig_and_vrm_model_bones_omap.
  intros bone_type node. unfold sample_metarig_human_bones. simpl.
  destruct (bool_decide (bone_type = "hips")); [intros [= <-]; eauto|].
  destruct (bool_decide (bone_type = "jaw")); [intros [= <-]; eauto|].
  destruct (bool_decide (bone_type ∈ reserved_bone_types)); discriminate.
Defined.

(** * Further properties *)

(** ** Giving the source armature its names back *)

Lemma edit_bones_iter_from_refs (s : nat) (bones bones' : edit_bones_t) :
  Forall2 (fun a b : option EditBone => is_Some a ↔ is_Some b) bones bones' →
  (edit_bones_iter_from s bones).*1 = (edit_bones_iter_from s bones').*1.
Proof.
  intros H. revert s. induction H as [|a b l l' Hab _ IH]; intros s; [done|].
  destruct a as [a|], b as [b|]; cbn [edit_bones_iter_from].
  - rewrite !fmap_cons. cbn [fst]. by rewrite IH.
  - destruct Hab as [Hab _]. by destruct Hab; [eexists|].
  - destruct Hab as [_ Hab]. by destruct Hab; [eexists|].
  - apply IH.
Qed.

Lemma same_liveness (bones bones' : edit_bones_t) :
  length bones' = length bones →
  (∀ r, is_Some (deref bones r) ↔ is_Some (deref bones' r)) →
  Forall2 (fun a b : option EditBone => is_Some a ↔ is_Some b) bones bones'.
Proof.
  intros Hlen Hlive. apply Forall2_same_length_lookup. split; [done|].
  intros i a b Ha Hb. specialize (Hlive i). unfold deref in Hlive.
  by rewrite Ha, Hb in Hlive.
Qed.

Lemma edit_bones_iter_lookup_deref (bones : edit_bones_t) (i r : nat) (b : EditBone) :
  edit_bones_iter bones !! i = Some (r, b) → deref bones r = Some b.
Proof. intros H. apply edit_bones_iter_elem. by eapply list_elem_of_lookup_2. Qed.

(** The bones that a renaming of bones in place leaves: the same
    references in the same order. *)
Lemma edit_bones_iter_relabel (bones bones' : edit_bones_t) (g : nat → EditBone → EditBone) :
  length bones' = length bones →
  (∀ i r b, edit_bones_iter bones !! i = Some (r, b) → deref bones' r = Some (g i b)) →
  (∀ r, deref bones r = None → deref bones' r = None) →
  ∀ i, edit_bones_iter bones' !! i
       = (fun rb : nat * EditBone => (rb.1, g i rb.2)) <$> edit_bones_iter bones !! i.
Proof.
  intros Hlen Hlive Hdead.
  assert (Hrefs : (edit_bones_iter bones').*1 = (edit_bones_iter bones).*1).
  { symmetry. apply edit_bones_iter_from_refs, same_liveness; [done|].
    intros r. split.
    - intros [b Hb]. apply edit_bones_iter_elem in Hb.
      apply list_elem_of_lookup_1 in Hb as [i Hi]. rewrite (Hlive i r b Hi). by eexists.
    - intros [b' Hb']. destruct (deref bones r) eqn:Hr; [by eexists|].
      rewrite (Hdead r Hr) in Hb'. discriminate. }
  intros i.
  assert (Hi : (edit_bones_iter bones').*1 !! i = (edit_bones_iter bones).*1 !! i)
    by by rewrite Hrefs.
  rewrite !list_lookup_fmap in Hi.
  destruct (edit_bones_iter bones !! i) as [[r b]|] eqn:Hb;
    destruct (edit_bones_iter bones' !! i) as [[r' b']|] eqn:Hb'; try discriminate; [|done].
  cbn in Hi. injection Hi as ->. cbn.
  apply edit_bones_iter_lookup_deref in Hb'. rewrite (Hlive i r b Hb) in Hb'.
  by injection Hb' as <-.
Qed.

Lemma bone_names_lookup (bones : edit_bones_t) (i : nat) (name : string) :
  bone_names bones !! i = Some name
  ↔ ∃ r b, edit_bones_iter bones !! i = Some (r, b) ∧ eb_name b = name.
Proof.
  unfold bone_names. rewrite list_lookup_fmap. split.
  - destruct (edit_bones_iter bones !! i) as [[r b]|]; [|done].
    intros [= <-]. by exists r, b.
  - intros (r & b & -> & <-). done.
Qed.

Section RestoreProperties.

Variable stored_name : list string → string → string → string.
Hypothesis own_name_kept : keeps_own_name stored_name.
Hypothesis free_names_stored : stores_free_names stored_name.

(** The restoring loop, when every name that it writes is free at the
    time: [k] turns have been made, [cur] is the armature they have
    left. *)
Lemma restore_names_spec (bones : edit_bones_t) (values : list string) :
  (∀ i v, values !! i = Some v → host_name v = true) →
  NoDup (take (length (bone_names bones)) values) →
  (∀ i j v, (i < j)%nat → values !! i = Some v → bone_names bones !! j ≠ Some v) →
  ∀ n k cur,
    (k + n = length (edit_bones_iter bones))%nat →
    length cur = length bones →
    (∀ i r b, edit_bones_iter bones !! i = Some (r, b) →
       deref cur r = Some (if (i <? k)%nat then restored values i b else b)) →
    (∀ r, deref bones r = None → deref cur r = None) →
    let bones' :=
      restore_names stored_name values
        (enumerate_from k (drop k (edit_bones_iter bones))) cur in
    length bones' = length bones
    ∧ (∀ i r b, edit_bones_iter bones !! i = Some (r, b) →
         deref bones' r = Some (restored values i b))
    ∧ (∀ r, deref bones r = None → deref bones' r = None).
Proof.
  intros Hhost Hnd Hlater. induction n as [|n IH]; intros k cur Hk Hlen Hlive Hdead.
  { rewrite drop_ge by lia. cbn. split; [done|]. split; [|done].
    intros i r b Hi. rewrite (Hlive i r b Hi).
    apply lookup_lt_Some in Hi. by rewrite (proj2 (Nat.ltb_lt i k)) by lia. }
  destruct (lookup_lt_is_Some_2 (edit_bones_iter bones) k ltac:(lia)) as [[r0 b0] Hk0].
  rewrite (drop_S _ _ _ Hk0). cbn [enumerate_from restore_names].
  assert (Hr0 : deref cur r0 = Some b0).
  { rewrite (Hlive k r0 b0 Hk0). by rewrite Nat.ltb_irrefl. }
  assert (Hkeep : ∀ cur1,
            cur1 = cur → values !! k = None →
            ∀ i r b, edit_bones_iter bones !! i = Some (r, b) →
              deref cur1 r = Some (if (i <? S k)%nat then restored values i b else b)).
  { intros cur1 -> Hnone i r b Hi. rewrite (Hlive i r b Hi).
    destruct (decide (i = k)) as [->|].
    - rewrite Nat.ltb_irrefl, (proj2 (Nat.ltb_lt k (S k))) by lia.
      unfold restored. by rewrite Hnone.
    - destruct (i <? k)%nat eqn:Hik.
      + apply Nat.ltb_lt in Hik. by rewrite (proj2 (Nat.ltb_lt i (S k))) by lia.
      + apply Nat.ltb_ge in Hik. by rewrite (proj2 (Nat.ltb_ge i (S k))) by lia. }
  destruct (values !! k) as [v|] eqn:Hv.
  2:{ assert (restore_names stored_name values
                (enumerate_from (S k) (drop (S k) (edit_bones_iter bones))) cur
              = (if bool_decide (k < length values)%nat
                 then restore_names stored_name values
                        (enumerate_from (S k) (drop (S k) (edit_bones_iter bones))) cur
                 else restore_names stored_name values
                        (enumerate_from (S k) (drop (S k) (edit_bones_iter bones))) cur))
        as <- by by destruct (bool_decide _).
      apply IH; [lia|done| |done]. by apply Hkeep. }
  rewrite bool_decide_eq_true_2 by (by apply lookup_lt_Some in Hv).
  assert (Hstored : stored_name (bone_names cur) (eb_name b0) v = v).
  { destruct (decide (v = eb_name b0)) as [->|Hne]; [apply own_name_kept|].
    apply free_names_stored; [by apply (Hhost k)|].
    intros Hin. apply list_elem_of_lookup in Hin as [i Hi].
    assert (Hrel : ∀ i, edit_bones_iter cur !! i
                     = (fun rb : nat * EditBone =>
                          (rb.1, if (i <? k)%nat then restored values i rb.2 else rb.2))
                       <$> edit_bones_iter bones !! i).
    { apply (edit_bones_iter_relabel bones cur
               (fun i b => if (i <? k)%nat then restored values i b else b));
        done. }
    apply bone_names_lookup in Hi as (r & b' & Hi & Hname). rewrite Hrel in Hi.
    destruct (edit_bones_iter bones !! i) as [[r' b]|] eqn:Hi0; [|done].
    destruct (i <? k)%nat eqn:Hik;
      cbn [fmap option_fmap option_map fst snd] in Hi; injection Hi as -> <-.
    - apply Nat.ltb_lt in Hik. unfold restored in Hname.
      destruct (values !! i) as [vi|] eqn:Hvi.
      + change (vi = v) in Hname. subst vi.
        assert (i = k); [|lia].
        apply lookup_lt_Some in Hi0, Hk0.
        assert (Hlen' : length (bone_names bones) = length (edit_bones_iter bones))
          by (unfold bone_names; by rewrite length_fmap).
        apply (NoDup_lookup _ i k v Hnd); apply lookup_take_Some; split; (done || lia).
      + apply lookup_ge_None in Hvi. apply lookup_lt_Some in Hv. lia.
    - apply Nat.ltb_ge in Hik. destruct (decide (i = k)) as [->|].
      + rewrite Hk0 in Hi0. injection Hi0 as -> ->. by apply Hne.
      + apply (Hlater k i v); [lia|done|]. apply bone_names_lookup. eauto. }
  apply IH; [lia|by unfold edit_bones_rename; rewrite length_update| |].
  - intros i r b Hi. unfold edit_bones_rename. rewrite deref_update.
    destruct (decide (r = r0)) as [->|Hne].
    + assert (i = k) as ->.
      { apply (NoDup_lookup _ i k r0 (edit_bones_iter_NoDup bones));
          by rewrite list_lookup_fmap, ?Hi, ?Hk0. }
      rewrite Hk0 in Hi. injection Hi as <-. rewrite Hr0.
      cbn [fmap option_fmap option_map].
      rewrite (proj2 (Nat.ltb_lt k (S k))) by lia. unfold restored.
      by rewrite Hv, Hstored.
    + rewrite (Hlive i r b Hi).
      assert (i ≠ k) by (intros ->; rewrite Hk0 in Hi; congruence).
      destruct (i <? k)%nat eqn:Hik.
      * apply Nat.ltb_lt in Hik. by rewrite (proj2 (Nat.ltb_lt i (S k))) by lia.
      * apply Nat.ltb_ge in Hik. by rewrite (proj2 (Nat.ltb_ge i (S k))) by lia.
  - intros r Hr. unfold edit_bones_rename. rewrite deref_update.
    destruct (decide (r = r0)) as [->|]; [|by apply Hdead].
    apply edit_bones_iter_lookup_deref in Hk0. congruence.
Qed.

Lemma restore_is_positional_aux (bones : edit_bones_t)
    (original_bone_names : ODict.t string string) :
  (∀ i v, ODict.values original_bone_names !! i = Some v → host_name v = true) →
  NoDup (take (length (bone_names bones)) (ODict.values original_bone_names)) →
  (∀ i j v, (i < j)%nat → ODict.values original_bone_names !! i = Some v →
     bone_names bones !! j ≠ Some v) →
  length (restore_original_bone_names stored_name bones original_bone_names)
  = length bones
  ∧ (∀ i r b, edit_bones_iter bones !! i = Some (r, b) →
       deref (restore_original_bone_names stored_name bones original_bone_names) r
       = Some (restored (ODict.values original_bone_names) i b))
  ∧ (∀ r, deref bones r = None →
       deref (restore_original_bone_names stored_name bones original_bone_names) r
       = None).
Proof.
  intros Hhost Hnd Hlater. unfold restore_original_bone_names, enumerate.
  pose proof (restore_names_spec bones (ODict.values original_bone_names)
                Hhost Hnd Hlater (length (edit_bones_iter bones)) 0 bones) as H.
  rewrite drop_0 in H. apply H; try done.
  intros i r b Hi. by apply edit_bones_iter_lookup_deref in Hi.
Qed.

(** [restore_original_bone_names] writes by position.  When the
    stored values are names that the host can hold, the values that are
    written are distinct, and none of them is the name of a bone that
    the iteration meets later, every name is free when it is written:
    the bone that the iteration meets at position [i] is given the
    [i]-th of the stored values, and keeps its name when there are fewer
    values than bones.  Nothing but names is written, and no bone is
    added or removed. *)
Theorem restore_is_positional (bones : edit_bones_t)
    (original_bone_names : ODict.t string string) :
  (∀ i v, ODict.values original_bone_names !! i = Some v → host_name v = true) →
  NoDup (take (length (bone_names bones)) (ODict.values original_bone_names)) →
  (∀ i j v, (i < j)%nat → ODict.values original_bone_names !! i = Some v →
     bone_names bones !! j ≠ Some v) →
  length (restore_original_bone_names stored_name bones original_bone_names)
  = length bones
  ∧ (∀ i r b, edit_bones_iter bones !! i = Some (r, b) →
       deref (restore_original_bone_names stored_name bones original_bone_names) r
       = Some (restored (ODict.values original_bone_names) i b))
  ∧ (∀ r, deref bones r = None →
       deref (restore_original_bone_names stored_name bones original_bone_names) r
       = None).
Proof. apply restore_is_positional_aux. Qed.

Lemma bone_names_restore (bones : edit_bones_t)
    (original_bone_names : ODict.t string string) (i : nat) :
  (∀ i v, ODict.values original_bone_names !! i = Some v → host_name v = true) →
  NoDup (take (length (bone_names bones)) (ODict.values original_bone_names)) →
  (∀ i j v, (i < j)%nat → ODict.values original_bone_names !! i = Some v →
     bone_names bones !! j ≠ Some v) →
  bone_names (restore_original_bone_names stored_name bones original_bone_names) !! i
  = (fun name => default name (ODict.values original_bone_names !! i))
      <$> bone_names bones !! i.
Proof.
  intros Hhost Hnd Hlater.
  destruct (restore_is_positional_aux bones original_bone_names Hhost Hnd Hlater)
    as (Hlen & Hlive & Hdead).
  unfold bone_names. rewrite !list_lookup_fmap.
  rewrite (edit_bones_iter_relabel bones _
             (restored (ODict.values original_bone_names)) Hlen Hlive Hdead).
  destruct (edit_bones_iter bones !! i) as [[r b]|]; [|done]. cbn. unfold restored.
  by destruct (ODict.values original_bone_names !! i).
Qed.

End RestoreProperties.

Lemma store_original_bone_names_entries (bones : list Bone) :
  NoDup (b_name <$> bones) →
  store_original_bone_names bones = (fun bone => (b_name bone, b_name bone)) <$> bones.
Proof.
  unfold store_original_bone_names.
  enough (H : ∀ d : ODict.t string string,
             NoDup (ODict.keys d ++ (b_name <$> bones)) →
             foldl (fun d bone => ODict.setitem d (b_name bone) (b_name bone)) d bones
             = d ++ ((fun bone => (b_name bone, b_name bone)) <$> bones)).
  { intros Hnd. by rewrite (H []). }
  induction bones as [|bone bones IH]; intros d Hnd; cbn [foldl].
  { by rewrite app_nil_r. }
  rewrite fmap_cons in Hnd. rewrite setitem_fresh.
  - rewrite IH.
    + by rewrite fmap_cons, <- app_assoc.
    + unfold ODict.keys in *. rewrite fmap_app, <- app_assoc. done.
  - apply NoDup_app in Hnd as (_ & Hnd & _). intros Hin. apply (Hnd _ Hin). left.
Qed.

Lemma store_original_bone_names_diagonal (bones : list Bone) :
  ODict.values (store_original_bone_names bones)
  = ODict.keys (store_original_bone_names bones).
Proof.
  unfold store_original_bone_names.
  enough (H : ∀ d : ODict.t string string,
             ODict.values d = ODict.keys d →
             ODict.values (foldl (fun d bone => ODict.setitem d (b_name bone) (b_name bone))
                             d bones)
             = ODict.keys (foldl (fun d bone => ODict.setitem d (b_name bone) (b_name bone))
                             d bones)) by by apply H.
  induction bones as [|bone bones IH]; intros d Hd; [done|]. cbn [foldl]. apply IH.
  clear IH. unfold ODict.values, ODict.keys in *.
  induction d as [|[k v] d IHd]; [done|]. cbn [ODict.setitem].
  rewrite !fmap_cons in Hd. injection Hd as Hv Hd.
  destruct (decide (k = b_name bone)).
  - rewrite !fmap_cons. cbn. by rewrite Hd.
  - rewrite !fmap_cons. cbn in *. by rewrite Hv, IHd.
Qed.

Lemma set_name_same (b : EditBone) : set_name (eb_name b) b = b.
Proof. by destruct b. Qed.

Lemma store_original_bone_names_values_NoDup (bones : list Bone) :
  NoDup (ODict.values (store_original_bone_names bones)).
Proof.
  rewrite store_original_bone_names_diagonal. unfold store_original_bone_names.
  enough (H : ∀ d : ODict.t string string,
             NoDup (ODict.keys d) →
             NoDup (ODict.keys (foldl (fun d bone =>
                                         ODict.setitem d (b_name bone) (b_name bone))
                                      d bones)))
    by (apply H; constructor).
  induction bones as [|bone bones IH]; intros d Hd; [done|]. cbn [foldl]. apply IH.
  clear IH. unfold ODict.keys in *.
  induction d as [|[k v] d IHd]; cbn [ODict.setitem].
  { rewrite fmap_cons. apply NoDup_singleton. }
  rewrite fmap_cons in Hd. apply NoDup_cons in Hd as [Hk Hd]. cbn [fst] in Hk.
  destruct (decide (k = b_name bone)) as [->|Hne].
  - rewrite fmap_cons. cbn [fst]. by apply NoDup_cons.
  - rewrite fmap_cons. cbn [fst]. apply NoDup_cons. split; [|by apply IHd].
    intros Hin. apply Hk. clear IHd Hd Hk.
    induction d as [|[k' v'] d IHd]; cbn [ODict.setitem] in Hin.
    + apply list_elem_of_singleton in Hin. cbn in Hin. congruence.
    + destruct (decide (k' = b_name bone)) as [->|].
      * rewrite fmap_cons in Hin |- *. cbn [fst] in *.
        apply elem_of_cons in Hin as [->|Hin]; [done|]. by right.
      * rewrite fmap_cons in Hin |- *. cbn [fst] in *.
        apply elem_of_cons in Hin as [->|Hin]; [left|right; by apply IHd].
Qed.

Section RoundTrip.

Variable stored_name : list string → string → string → string.
Hypothesis own_name_kept : keeps_own_name stored_name.
Hypothesis free_names_stored : stores_free_names stored_name.

(** Storing the names and restoring them is a round trip, when no
    name has to be altered on the way: the stored names being distinct
    names that the host can hold, the armature having as many bones as
    before, and no bone bearing the stored name of a bone that the
    iteration meets earlier, [restore_original_bone_names] gives every
    bone the name it had when [store_original_bone_names] ran. *)
Theorem store_then_restore_round_trip (before : list Bone) (bones : edit_bones_t) :
  NoDup (b_name <$> before) →
  Forall (fun name => host_name name = true) (b_name <$> before) →
  length (edit_bones_iter bones) = length before →
  (∀ i j v, (i < j)%nat → (b_name <$> before) !! i = Some v →
     bone_names bones !! j ≠ Some v) →
  bone_names (restore_original_bone_names stored_name bones
                (store_original_bone_names before))
  = b_name <$> before.
Proof.
  intros Hnd Hhost Hlen Hlater.
  assert (Hvalues : ODict.values (store_original_bone_names before) = b_name <$> before).
  { rewrite (store_original_bone_names_entries _ Hnd). unfold ODict.values.
    rewrite <- list_fmap_compose. done. }
  apply list_eq. intros i.
  rewrite (bone_names_restore stored_name own_name_kept free_names_stored).
  - rewrite Hvalues. unfold bone_names. rewrite !list_lookup_fmap.
    destruct (edit_bones_iter bones !! i) as [rb|] eqn:Hi.
    + destruct (before !! i) as [v|] eqn:Hv; [done|].
      apply lookup_lt_Some in Hi. apply lookup_ge_None in Hv. lia.
    + destruct (before !! i) as [v|] eqn:Hv; [|done].
      apply lookup_lt_Some in Hv. apply lookup_ge_None in Hi. lia.
  - rewrite Hvalues. intros j v Hj. rewrite Forall_forall in Hhost. apply Hhost.
    by eapply list_elem_of_lookup_2.
  - rewrite Hvalues. eapply sublist_NoDup; [done|apply sublist_take].
  - by rewrite Hvalues.
Qed.

(** Restoring applies the restoration map, when no name has to be
    altered on the way: when the bones bear the distinct names from
    which [update_bone_name_mapping_after_rename] built the map, the
    stored names are names that the host can hold, and no bone bears
    the stored name of a bone that the iteration meets earlier,
    [restore_original_bone_names] renames each bone to what the map
    holds for its name, and leaves a bone whose name the map does not
    hold as it is. *)
Theorem restore_applies_restoration_map (before after : list Bone)
    (bones : edit_bones_t) :
  bone_names bones = b_name <$> after →
  NoDup (b_name <$> after) →
  Forall (fun name => host_name name = true) (b_name <$> before) →
  (∀ i j v, (i < j)%nat →
     ODict.keys (store_original_bone_names before) !! i = Some v →
     (b_name <$> after) !! j ≠ Some v) →
  ∃ m, update_bone_name_mapping_after_rename after (store_original_bone_names before) = Ok m
     ∧ ∀ r b, deref bones r = Some b →
         deref (restore_original_bone_names stored_name bones
                  (store_original_bone_names before)) r
         = Some (set_name (default (eb_name b) (m !! eb_name b)) b).
Proof.
  intros Hnames Hnd Hhost Hlater. rewrite update_bone_name_mapping_after_rename_zip.
  eexists. split; [done|]. intros r b Hr.
  apply edit_bones_iter_elem, list_elem_of_lookup_1 in Hr as [i Hi].
  assert (Hvalid : ∀ j v, ODict.values (store_original_bone_names before) !! j = Some v →
                     host_name v = true).
  { intros j v Hj. rewrite Forall_forall in Hhost. apply Hhost.
    rewrite store_original_bone_names_diagonal in Hj.
    apply list_elem_of_lookup_2 in Hj. unfold ODict.keys in Hj.
    apply list_elem_of_fmap in Hj as ([k' v'] & -> & Hj). cbn.
    assert (Hkeys : ∀ (l : list Bone) (d : ODict.t string string) k,
              k ∈ ODict.keys (foldl (fun d bone =>
                                       ODict.setitem d (b_name bone) (b_name bone)) d l) →
              k ∈ ODict.keys d ∨ k ∈ b_name <$> l).
    { clear. induction l as [|bone l IH]; intros d k Hk; [by left|].
      cbn [foldl] in Hk. apply IH in Hk as [Hk|Hk]; [|right; rewrite fmap_cons; by right].
      assert (k ∈ ODict.keys d ∨ k = b_name bone) as [? | ->]; [|by left|right; left].
      clear IH. unfold ODict.keys in *.
      induction d as [|[k0 v0] d IHd]; cbn [ODict.setitem] in Hk.
      - apply list_elem_of_singleton in Hk. by right.
      - destruct (decide (k0 = b_name bone)) as [->|].
        + rewrite fmap_cons in Hk |- *. cbn [fst] in *.
          apply elem_of_cons in Hk as [->|Hk]; [by right|]. left. by right.
        + rewrite fmap_cons in Hk |- *. cbn [fst] in *.
          apply elem_of_cons in Hk as [->|Hk]; [left; left|].
          destruct (IHd Hk) as [?|?]; [left; by right|by right]. }
    destruct (Hkeys before [] k') as [Hin|Hin]; [|by apply elem_of_nil in Hin|done].
    unfold store_original_bone_names in Hj. unfold ODict.keys.
    apply list_elem_of_fmap. by exists (k', v'). }
  destruct (restore_is_positional_aux stored_name own_name_kept free_names_stored bones
              (store_original_bone_names before)) as (_ & Hlive & _).
  - done.
  - eapply sublist_NoDup; [apply store_original_bone_names_values_NoDup|apply sublist_take].
  - rewrite store_original_bone_names_diagonal, Hnames. apply Hlater.
  - rewrite (Hlive i r b Hi). f_equal. unfold restored.
    rewrite store_original_bone_names_diagonal.
    set (keys := ODict.keys (store_original_bone_names before)).
    assert (Hname : (b_name <$> after) !! i = Some (eb_name b)).
    { rewrite <- Hnames. unfold bone_names. by rewrite list_lookup_fmap, Hi. }
    destruct (keys !! i) as [k|] eqn:Hk.
    + rewrite (foldl_insert_pair_lookup_in _ _ (eb_name b) k); [done| |].
      * rewrite zip_fst_take. eapply sublist_NoDup; [done|apply sublist_take].
      * apply list_elem_of_lookup. exists i. by apply zip_lookup_Some.
    + assert (Hnone : foldl insert_pair (∅ : gmap string string)
                        (zip (b_name <$> after) keys) !! eb_name b = None).
      { apply not_elem_of_dom. rewrite foldl_insert_pair_dom, zip_fst_take.
        rewrite dom_empty_L, (left_id_L ∅ (∪)), elem_of_list_to_set.
        intros Hin'. apply list_elem_of_lookup in Hin' as [j Hj].
        apply lookup_take_Some in Hj as [Hj Hlt].
        apply lookup_ge_None in Hk.
        assert (i = j) by (eapply NoDup_lookup; eauto). lia. }
      rewrite Hnone. cbn. by rewrite set_name_same.
Qed.

End RoundTrip.

Lemma restore_is_positional_witness :
  deref (restore_original_bone_names sample_stored_name
           [Some (mkEditBone "J_Bip_C_Hips" None zero3 zero3 true false [] []);
            None;
            Some (mkEditBone "J_Bip_C_Spine" (Some 0) zero3 zero3 true false [] [])]
           [("Hips", "Hips"); ("Spine", "Spine")]) 2
  = Some (mkEditBone "Spine" (Some 0) zero3 zero3 true false [] []).
Proof.
  destruct (restore_is_positional sample_stored_name sample_keeps_own_name
              sample_stores_free_names
              [Some (mkEditBone "J_Bip_C_Hips" None zero3 zero3 true false [] []);
               None;
               Some (mkEditBone "J_Bip_C_Spine" (Some 0) zero3 zero3 true false [] [])]
              [("Hips", "Hips"); ("Spine", "Spine")]) as (_ & Hlive & _).
  - intros [|[|i]] v; cbn; intros [= <-]; reflexivity.
  - apply (bool_decide_unpack _). vm_compute. exact I.
  - intros [|[|i]] [|[|j]] v Hij; cbn; intros [= <-]; (done || lia).
  - rewrite (Hlive 1%nat 2%nat _ eq_refl). reflexivity.
Defined.

(** Where a name that is written is the name of a bone that the
    iteration meets later, the host alters it: two bones do not swap
    their names. *)
Example restore_of_swapped_names :
  bone_names
    (restore_original_bone_names sample_stored_name
       [Some (mkEditBone "Spine" None zero3 zero3 true false [] []);
        Some (mkEditBone "Hips" (Some 0) zero3 zero3 true false [] [])]
       [("Hips", "Hips"); ("Spine", "Spine")])
  = ["Hips.001"; "Spine"].
Proof. reflexivity. Qed.

Lemma store_then_restore_round_trip_witness :
  bone_names
    (restore_original_bone_names sample_stored_name
       [Some (mkEditBone "J_Bip_C_Hips" None zero3 zero3 true false [] []);
        None;
        Some (mkEditBone "J_Bip_C_Spine" (Some 0) zero3 zero3 true false [] [])]
       (store_original_bone_names
          [mkBone "Hips" None zero3 zero3; mkBone "Spine" (Some "Hips") zero3 zero3]))
  = ["Hips"; "Spine"].
Proof.
  apply (store_then_restore_round_trip sample_stored_name sample_keeps_own_name
           sample_stores_free_names
           [mkBone "Hips" None zero3 zero3; mkBone "Spine" (Some "Hips") zero3 zero3]).
  - apply (bool_decide_unpack _). vm_compute. exact I.
  - repeat constructor.
  - reflexivity.
  - intros [|[|i]] [|[|j]] v Hij; cbn; intros [= <-]; (done || lia).
Defined.

Lemma restore_applies_restoration_map_witness :
  ∃ m, update_bone_name_mapping_after_rename
         [mkBone "J_Bip_C_Hips" None zero3 zero3;
          mkBone "J_Bip_C_Spine" (Some "J_Bip_C_Hips") zero3 zero3]
         (store_original_bone_names
            [mkBone "Hips" None zero3 zero3; mkBone "Spine" (Some "Hips") zero3 zero3])
       = Ok m
     ∧ m !! "J_Bip_C_Spine" = Some "Spine"
     ∧ deref (restore_original_bone_names sample_stored_name
                [Some (mkEditBone "J_Bip_C_Hips" None zero3 zero3 true false [] []);
                 Some (mkEditBone "J_Bip_C_Spine" (Some 0) zero3 zero3 true false [] [])]
                (store_original_bone_names
                   [mkBone "Hips" None zero3 zero3;
                    mkBone "Spine" (Some "Hips") zero3 zero3])) 1
       = Some (mkEditBone "Spine" (Some 0) zero3 zero3 true false [] []).
Proof.
  destruct (restore_applies_restoration_map sample_stored_name sample_keeps_own_name
              sample_stores_free_names
              [mkBone "Hips" None zero3 zero3; mkBone "Spine" (Some "Hips") zero3 zero3]
              [mkBone "J_Bip_C_Hips" None zero3 zero3;
               mkBone "J_Bip_C_Spine" (Some "J_Bip_C_Hips") zero3 zero3]
              [Some (mkEditBone "J_Bip_C_Hips" None zero3 zero3 true false [] []);
               Some (mkEditBone "J_Bip_C_Spine" (Some 0) zero3 zero3 true false [] [])])
    as (m & Hm & Hrestore).
  - reflexivity.
  - apply (bool_decide_unpack _). vm_compute. exact I.
  - repeat constructor.
  - intros [|[|i]] [|[|j]] v Hij; cbn; intros [= <-]; (done || lia).
  - exists m. split; [exact Hm|]. split.
    + injection Hm as <-. reflexivity.
    + rewrite (Hrestore 1 _ eq_refl). injection Hm as <-. reflexivity.
Defined.

(** ** When the aligner fails *)

Lemma bone_names_elem (bones : edit_bones_t) (name : string) :
  name ∈ bone_names bones ↔ ∃ r b, deref bones r = Some b ∧ eb_name b = name.
Proof.
  unfold bone_names. rewrite list_elem_of_fmap. split.
  - intros ([r b] & -> & Hin). apply edit_bones_iter_elem in Hin. eauto.
  - intros (r & b & Hr & <-). exists (r, b). split; [done|].
    by apply edit_bones_iter_elem.
Qed.

Lemma edit_bones_contains_names (bones : edit_bones_t) (name : string) :
  edit_bones_contains bones name = true ↔ name ∈ bone_names bones.
Proof. by rewrite edit_bones_contains_iff, bone_names_elem. Qed.

Lemma edit_bones_find_is_Some (bones : edit_bones_t) (name : string) :
  is_Some (edit_bones_find bones name) ↔ name ∈ bone_names bones.
Proof.
  rewrite <- edit_bones_contains_names. unfold edit_bones_contains.
  by rewrite bool_decide_eq_true.
Qed.

Lemma bones_getitem_is_Ok (bones : list Bone) (name : string) :
  (∃ v, bones_getitem bones name = Ok v) ↔ name ∈ b_name <$> bones.
Proof.
  unfold bones_getitem.
  destruct (list_find _ bones) as [[i v]|] eqn:Hfind.
  - apply list_find_Some in Hfind as (Hi & Hv & _).
    apply bool_decide_unpack in Hv. split; [|by eauto]. intros _.
    apply list_elem_of_fmap. exists v. split; [done|]. by eapply list_elem_of_lookup_2.
  - split; [by intros [? ?]|]. intros Hin.
    apply list_elem_of_fmap in Hin as (v & -> & Hin).
    eapply list_find_None, Forall_forall in Hfind; [|done].
    destruct Hfind. by apply bool_decide_pack.
Qed.

Lemma bones_getitem_Err (bones : list Bone) (name : string) (e : exn) :
  bones_getitem bones name = Err e → e = KeyError.
Proof. unfold bones_getitem. destruct (list_find _ _) as [[? ?]|]; congruence. Qed.

Lemma bone_names_names_of (bones bones' : edit_bones_t) :
  names_of bones = names_of bones' → bone_names bones = bone_names bones'.
Proof.
  unfold bone_names, edit_bones_iter. generalize 0.
  revert bones'. induction bones as [|slot bones IH]; intros [|slot' bones'] s H;
    try done.
  unfold names_of in H. rewrite !fmap_cons in H. injection H as Hslot H.
  destruct slot as [b|], slot' as [b'|]; try done; cbn [edit_bones_iter_from].
  - rewrite !fmap_cons. cbn. injection Hslot as ->. f_equal. by apply IH.
  - by apply IH.
Qed.

Section AlignerOutcome.

Variable use_connect : nat → bool.

(** The aligner's loop goes through exactly when every pair names a
    bone of the template and a bone of the source; a missing bone is a
    [KeyError]. *)
Lemma position_bones_outcome (vrm_bones : list Bone)
    (bone_mapping : list (string * string)) (bones : edit_bones_t) :
  (∀ e, position_bones use_connect vrm_bones bone_mapping bones = Err e → e = KeyError)
  ∧ ((∃ bones', position_bones use_connect vrm_bones bone_mapping bones = Ok bones')
     ↔ ∀ t s, (t, s) ∈ bone_mapping →
         t ∈ bone_names bones ∧ s ∈ b_name <$> vrm_bones).
Proof.
  revert bones. induction bone_mapping as [|[t s] rest IH]; intros bones.
  { split; [done|]. split; [|by eauto]. intros _ t s Hin. by apply elem_of_nil in Hin. }
  cbn [position_bones]. unfold edit_bones_getitem.
  destruct (edit_bones_find bones t) as [[r b]|] eqn:Hfind.
  - rewrite bind_Ok.
    destruct (bones_getitem vrm_bones s) as [v|e'] eqn:Hget.
    + rewrite bind_Ok. cbn [fst].
      set (bones1 := edit_bones_set_tail _ _ r _).
      assert (Hnames : names_of bones1 = names_of bones).
      { unfold bones1, edit_bones_set_tail, edit_bones_set_head, edit_bones_move.
        by repeat (rewrite names_of_transform_update
                   || rewrite names_of_update by done). }
      destruct (IH bones1) as [IHerr IHok]. split; [done|].
      rewrite IHok, <- (bone_names_names_of _ _ Hnames). split.
      * intros H t' s' Hin. apply elem_of_cons in Hin as [[= -> ->]|Hin]; [|by auto].
        split.
        -- rewrite (bone_names_names_of _ _ Hnames). apply edit_bones_find_is_Some.
           by rewrite Hfind.
        -- apply bones_getitem_is_Ok. eauto.
      * intros H t' s' Hin. apply H. by right.
    + rewrite bind_Err. split.
      * intros e [= <-]. by eapply bones_getitem_Err.
      * split; [by intros [? ?]|]. intros H.
        destruct (H t s) as [_ Hs]; [left|]. apply bones_getitem_is_Ok in Hs as [v Hv].
        congruence.
  - rewrite bind_Err. split; [by intros e [= <-]|].
    split; [by intros [? ?]|]. intros H.
    destruct (H t s) as [Ht _]; [left|]. apply edit_bones_find_is_Some in Ht.
    rewrite Hfind in Ht. by destruct Ht.
Qed.

(** The aligner fails with a [KeyError] and with nothing else, and it
    goes through exactly when every correspondence pair names a bone of
    the template and a bone of the source. *)
Theorem aligner_fails_iff_a_bone_is_missing (metarig : ArmatureObject)
    (vrm_object : SourceObject) (bone_mapping : list (string * string)) :
  (∀ e, position_metarig_bones_to_vrm_model use_connect metarig vrm_object bone_mapping = Err e →
        e = KeyError)
  ∧ ((∃ metarig',
        position_metarig_bones_to_vrm_model use_connect metarig vrm_object bone_mapping = Ok metarig')
     ↔ ∀ t s, (t, s) ∈ bone_mapping →
         t ∈ bone_names (edit_bones metarig) ∧ s ∈ b_name <$> src_bones vrm_object).
Proof.
  unfold position_metarig_bones_to_vrm_model. cbn [edit_bones matrix_world].
  destruct (position_bones_outcome (src_bones vrm_object) bone_mapping (edit_bones metarig))
    as [Herr Hok].
  destruct (position_bones _ _ _) as [bones'|e'].
  - rewrite bind_Ok. split; [done|]. rewrite <- Hok. split; eauto.
  - rewrite bind_Err. split; [by intros e [= <-]; apply Herr|].
    rewrite <- Hok. split; by intros [? ?].
Qed.

(** ** The aligner after the pruner *)

Lemma pruned_bone_names (bones bones' : edit_bones_t)
    (bone_mapping : list (string * string)) (name : string) :
  remove_or_log_unmapped_metarig_bones bones bone_mapping = Ok bones' →
  name ∈ bone_names bones'
  ↔ name ∈ bone_names bones ∧ is_pruned bone_mapping name = false.
Proof.
  intros Hrun.
  destruct (remove_or_log_unmapped_metarig_bones_spec bones bone_mapping)
    as (bones'' & Hrun' & _ & Hspec).
  rewrite Hrun in Hrun'. injection Hrun' as <-. rewrite !bone_names_elem. split.
  - intros (r & b' & Hr & <-). specialize (Hspec r). rewrite Hr in Hspec.
    destruct (deref bones r) as [b|] eqn:Hb; [|done].
    destruct (is_pruned bone_mapping (eb_name b)) eqn:Hp; [done|].
    symmetry in Hspec. apply unparented_Some_inv in Hspec as (b0 & [= <-] & Heq).
    apply set_parent_None_name in Heq. rewrite <- Heq. eauto.
  - intros [(r & b & Hr & <-) Hp]. specialize (Hspec r). rewrite Hr, Hp in Hspec.
    apply unparented_Some_inv in Hspec as (b' & Hb' & Heq).
    apply set_parent_None_name in Heq. eauto.
Qed.

(** The aligner after the pruner, both with the same correspondence
    list: the pruner goes through, and the aligner then goes through
    exactly when every pair names a bone that the template had before
    the pruning and that is not a palm bone, and a bone of the source.
    A mapped template bone is lost to the pruner only as a palm bone. *)
Theorem aligner_after_pruner (metarig : ArmatureObject) (vrm_object : SourceObject)
    (bone_mapping : list (string * string)) :
  ∃ bones',
    remove_or_log_unmapped_metarig_bones (edit_bones metarig) bone_mapping = Ok bones'
    ∧ ((∃ metarig',
          position_metarig_bones_to_vrm_model use_connect
            (mkArmatureObject (matrix_world metarig) bones') vrm_object bone_mapping
          = Ok metarig')
       ↔ ∀ t s, (t, s) ∈ bone_mapping →
           t ∈ bone_names (edit_bones metarig) ∧ re_match_palm t = false
           ∧ s ∈ b_name <$> src_bones vrm_object).
Proof.
  destruct (remove_or_log_unmapped_metarig_bones_spec (edit_bones metarig) bone_mapping)
    as (bones' & Hrun & _ & _).
  exists bones'. split; [done|].
  unfold position_metarig_bones_to_vrm_model. cbn [edit_bones matrix_world].
  destruct (position_bones_outcome (src_bones vrm_object) bone_mapping bones')
    as [_ Hok].
  assert (Hbind : (∃ metarig',
             position_bones use_connect (src_bones vrm_object) bone_mapping bones'
             ≫= (fun bones => Ok (mkArmatureObject (src_matrix_world vrm_object) bones))
             = Ok metarig')
          ↔ ∃ bones'', position_bones use_connect (src_bones vrm_object) bone_mapping bones'
                       = Ok bones'').
  { destruct (position_bones _ _ _); [rewrite bind_Ok|rewrite bind_Err];
      split; intros [? ?]; by eauto. }
  rewrite Hbind, Hok. clear Hbind Hok.
  assert (Hpalm : ∀ t s, (t, s) ∈ bone_mapping →
             is_pruned bone_mapping t = re_match_palm t).
  { intros t s Hin. unfold is_pruned, unmapped_doomed.
    rewrite bool_decide_eq_true_2; [by rewrite orb_false_r|].
    apply elem_of_list_to_set, list_elem_of_fmap. by exists (t, s). }
  split; intros H t s Hin; specialize (H t s Hin).
  - destruct H as [Ht Hs]. apply (pruned_bone_names _ _ _ _ Hrun) in Ht as [Ht Hp].
    rewrite (Hpalm t s Hin) in Hp. done.
  - destruct H as (Ht & Hp & Hs). split; [|done].
    apply (pruned_bone_names _ _ _ _ Hrun). by rewrite (Hpalm t s Hin).
Qed.

End AlignerOutcome.

(** ** What the deformation rename does *)

Lemma rename_target_original_name (bone_name_mapping : option (gmap string string))
    (vrm_bone_name : string) :
  rename_target bone_name_mapping vrm_bone_name
  = Ok (original_name_of bone_name_mapping vrm_bone_name).
Proof.
  unfold rename_target, original_name_of, dict_contains, dict_getitem, dict_get.
  destruct bone_name_mapping as [m|]; [|done].
  destruct (mapping_truthy (Some m)); [|done]. cbn.
  destruct (m !! vrm_bone_name) eqn:H.
  - by rewrite bool_decide_eq_true_2 by eauto.
  - rewrite bool_decide_eq_false_2; [done|]. by intros [? ?].
Qed.

Lemma set_use_deform_same (b : EditBone) :
  use_deform b = true → set_use_deform true b = b.
Proof. destruct b. cbn. by intros ->. Qed.

Lemma bone_names_update (bones : edit_bones_t) (r : nat) (f : EditBone → EditBone) :
  (∀ b, eb_name (f b) = eb_name b) →
  bone_names (edit_bones_update bones r f) = bone_names bones.
Proof. intros Hf. by apply bone_names_names_of, names_of_update. Qed.

#[local] Instance renamed_from_refl : Reflexive renamed_from.
Proof. intros b. by repeat split. Qed.

#[local] Instance renamed_from_trans : Transitive renamed_from.
Proof.
  intros b1 b2 b3 (?&?&?&?&?&?&?) (?&?&?&?&?&?&?). repeat split; try congruence. auto.
Qed.

Lemma renamed_from_set_name (name : string) (b : EditBone) :
  renamed_from b (set_name name b).
Proof. by repeat split. Qed.

Lemma renamed_from_deform (name : string) (b : EditBone) :
  renamed_from b (set_name name (set_use_deform true b)).
Proof. by repeat split. Qed.




Section RenameProperties.

Variable stored_name : list string → string → string → string.

(** One turn of the loop, when it goes through. *)
Lemma rename_pair_Ok (bone_name_mapping : option (gmap string string))
    (bones bones' : edit_bones_t) (t s : string) :
  rename_pair stored_name bone_name_mapping bones (t, s) = Ok bones' →
  ∃ r b, edit_bones_find bones (rename_address t) = Some (r, b)
    ∧ length bones' = length bones
    ∧ ∀ r', deref bones' r'
            = if decide (r' = r)
              then Some (set_name
                           (stored_name (bone_names bones) (eb_name b)
                              (original_name_of bone_name_mapping s))
                           (set_use_deform true b))
              else deref bones r'.
Proof.
  unfold rename_pair, rename_select, rename_address, edit_bones_getitem.
  rewrite rename_target_original_name.
  destruct (bool_decide (t ∈ ["eye.L"; "eye.R"])).
  - destruct (edit_bones_find bones ("ORG-" +:+ t)) as [[r b]|] eqn:Hfind;
      [|by rewrite bind_Err].
    rewrite !bind_Ok. cbn [fst snd]. intros [= <-]. exists r, b. split; [done|].
    apply edit_bones_find_Some in Hfind as [Hr _]. unfold edit_bones_rename.
    split; [by rewrite !length_update|]. intros r'. rewrite !deref_update.
    destruct (decide (r' = r)) as [->|]; [|done].
    rewrite decide_True, Hr by done. by rewrite bone_names_update.
  - destruct (edit_bones_find bones ("DEF-" +:+ t)) as [[r b]|] eqn:Hfind;
      [|by rewrite bind_Err].
    rewrite bind_Ok. cbn [fst snd]. destruct (use_deform b) eqn:Hdeform;
      [|by rewrite bind_Err].
    rewrite !bind_Ok. cbn [fst snd]. intros [= <-]. exists r, b. split; [done|].
    apply edit_bones_find_Some in Hfind as [Hr _]. unfold edit_bones_rename.
    split; [by rewrite !length_update|]. intros r'. rewrite !deref_update.
    destruct (decide (r' = r)) as [->|]; [|done].
    by rewrite Hr, set_use_deform_same.
Qed.

Lemma rename_root_spec (to_visit : list (nat * EditBone)) (bones : edit_bones_t) :
  (∀ r b, (r, b) ∈ to_visit → deref bones r = Some b) →
  length (rename_root stored_name to_visit bones) = length bones
  ∧ ((∀ r, deref (rename_root stored_name to_visit bones) r = deref bones r)
     ∨ ∃ r0 b0, (r0, b0) ∈ to_visit ∧ eb_name b0 = "root"
         ∧ ∀ r, deref (rename_root stored_name to_visit bones) r
                = if decide (r = r0)
                  then set_name (stored_name (bone_names bones) "root" "Root")
                       <$> deref bones r
                  else deref bones r).
Proof.
  induction to_visit as [|[r0 b0] rest IH]; intros Hlive; cbn [rename_root];
    [by split; [|left]|].
  destruct (bool_decide (eb_name b0 = "root")) eqn:Hroot.
  - apply bool_decide_eq_true in Hroot. unfold edit_bones_rename.
    split; [apply length_update|]. right. exists r0, b0. split; [left|]. split; [done|].
    intros r. rewrite deref_update. destruct (decide (r = r0)) as [->|]; [|done].
    rewrite (Hlive r0 b0) by left. cbn. by rewrite Hroot.
  - destruct IH as [IHlen [IH|(r1 & b1 & Hin & Hname & IH)]].
    + intros r b Hin. apply Hlive. by right.
    + by split; [|left].
    + split; [done|]. right. exists r1, b1. split; [by right|]. done.
Qed.

Lemma rename_pairs_frame (bone_name_mapping : option (gmap string string))
    (bone_mapping : list (string * string)) (bones bones' : edit_bones_t) :
  rename_pairs stored_name bone_name_mapping bone_mapping bones = Ok bones' →
  length bones' = length bones
  ∧ ∀ r, option_Forall2 renamed_from (deref bones r) (deref bones' r).
Proof.
  revert bones. induction bone_mapping as [|[t s] rest IH]; intros bones.
  { intros [= <-]. split; [done|]. intros r. by destruct (deref bones r); constructor. }
  cbn [rename_pairs]. intros H. apply bind_Ok_inv in H as (bones1 & Hpair & Hrest).
  apply rename_pair_Ok in Hpair as (r0 & b0 & Hfind & Hlen & Hderef).
  apply edit_bones_find_Some in Hfind as [Hr0 _].
  destruct (IH _ Hrest) as [IHlen IHr]. split; [congruence|]. intros r.
  etrans; [|apply IHr]. rewrite Hderef. destruct (decide (r = r0)) as [->|].
  - rewrite Hr0. constructor. apply renamed_from_deform.
  - by destruct (deref bones r); constructor.
Qed.

(** The deformation rename changes names and switches deform flags
    on, and nothing else: when it goes through, the rig has the same
    bones in the same slots, each with the parent, head, tail, selection
    state, layers and collections it had, and a deform flag that was on
    is still on. *)
Theorem rename_keeps_geometry_and_hierarchy (bones bones' : edit_bones_t)
    (bone_mapping : list (string * string))
    (bone_name_mapping : option (gmap string string)) :
  rename_rig_bones_to_match_vrm_model_vertex_groups stored_name bones bone_mapping
    bone_name_mapping
  = Ok bones' →
  length bones' = length bones
  ∧ ∀ r, match deref bones r, deref bones' r with
         | Some b, Some b' => renamed_from b b'
         | None, None => True
         | _, _ => False
         end.
Proof.
  unfold rename_rig_bones_to_match_vrm_model_vertex_groups. intros H.
  apply bind_Ok_inv in H as (bones1 & Hpairs & [= <-]).
  apply rename_pairs_frame in Hpairs as [Hlen Hframe].
  destruct (rename_root_spec (edit_bones_iter bones1) bones1) as [Hlen' Hroot].
  { intros r b. apply edit_bones_iter_elem. }
  split; [congruence|]. intros r. specialize (Hframe r).
  assert (Hr : option_Forall2 renamed_from (deref bones1 r)
                 (deref (rename_root stored_name (edit_bones_iter bones1) bones1) r)).
  { destruct Hroot as [Hroot|(r0 & b0 & _ & _ & Hroot)]; rewrite Hroot.
    - by destruct (deref bones1 r); constructor.
    - destruct (decide (r = r0)); destruct (deref bones1 r); constructor;
        try apply renamed_from_set_name; reflexivity. }
  destruct Hframe as [b b1 Hb|]; inversion Hr; subst; [|done]. by etrans.
Qed.



End RenameProperties.

Lemma rename_keeps_geometry_and_hierarchy_witness :
  let rig := [Some (mkEditBone "DEF-spine" None (0, 0, 1)%float (0, 0, 2)%float
                      true false [] ["DEF"]);
              Some (mkEditBone "ORG-eye.L" (Some 0) (0, 1, 1)%float (0, 2, 1)%float
                      false false [] ["ORG"])] in
  let rig' := [Some (mkEditBone "Hips" None (0, 0, 1)%float (0, 0, 2)%float
                       true false [] ["DEF"]);
               Some (mkEditBone "LeftEye" (Some 0) (0, 1, 1)%float (0, 2, 1)%float
                       true false [] ["ORG"])] in
  length rig' = length rig
  ∧ ∀ r, match deref rig r, deref rig' r with
         | Some b, Some b' => renamed_from b b'
         | None, None => True
         | _, _ => False
         end.
Proof.
  intros rig rig'.
  apply (rename_keeps_geometry_and_hierarchy sample_stored_name rig rig'
           [("spine", "J_Bip_C_Hips"); ("eye.L", "J_Adj_L_FaceEye")]
           (Some (<["J_Bip_C_Hips" := "Hips"]> (<["J_Adj_L_FaceEye" := "LeftEye"]> ∅)))).
  reflexivity.
Defined.

(** Where a pair gives a name that a bone of the rig bears, the host
    alters it. *)
Example rename_to_a_name_in_use :
  ∃ bones',
    rename_rig_bones_to_match_vrm_model_vertex_groups sample_stored_name
      [Some (mkEditBone "DEF-spine" None zero3 zero3 true false [] []);
       Some (mkEditBone "Hips" None zero3 zero3 true false [] []);
       Some (mkEditBone "DEF-chest" (Some 0) zero3 zero3 true false [] [])]
      [("spine", "Hips")] None
    = Ok bones'
    ∧ bone_names bones' = ["Hips.001"; "Hips"; "DEF-chest"].
Proof. eexists. split; reflexivity. Qed.


(** ** Grafting and the uniqueness of names *)

Lemma edit_bones_iter_from_app (s : nat) (bones extra : edit_bones_t) :
  edit_bones_iter_from s (bones ++ extra)
  = edit_bones_iter_from s bones ++ edit_bones_iter_from (s + length bones) extra.
Proof.
  revert s. induction bones as [|[b|] bones IH]; intros s; cbn [edit_bones_iter_from app length].
  - by rewrite Nat.add_0_r.
  - by rewrite IH, Nat.add_succ_r.
  - by rewrite IH, Nat.add_succ_r.
Qed.

Lemma bone_names_app (bones extra : edit_bones_t) :
  bone_names (bones ++ extra) = bone_names bones ++ bone_names extra.
Proof.
  unfold bone_names, edit_bones_iter. rewrite edit_bones_iter_from_app, fmap_app.
  f_equal. generalize (0 + length bones)%nat. generalize 0.
  induction extra as [|[b|] extra IH]; intros s s'; cbn [edit_bones_iter_from]; [done| |].
  - rewrite !fmap_cons. cbn. f_equal. apply IH.
  - apply IH.
Qed.

Lemma graft_one_fresh (blender_version : nat)
    (bone_name_mapping : option (gmap string string)) (bones : edit_bones_t)
    (vrm_bone : Bone) :
  bone_names (graft_one blender_version bone_name_mapping bones vrm_bone) = []
  ∨ (bone_names (graft_one blender_version bone_name_mapping bones vrm_bone)
     = [original_name_of bone_name_mapping (b_name vrm_bone)]
     ∧ original_name_of bone_name_mapping (b_name vrm_bone) ∉ bone_names bones).
Proof.
  unfold graft_one.
  destruct (edit_bones_contains bones _) eqn:Hin; [by left|].
  destruct (b_parent vrm_bone) as [p|]; [|by left].
  destruct (edit_bones_find bones _) as [[pr pb]|]; [|by left].
  right. split.
  - unfold bone_names. cbn. f_equal. apply grafted_fields.
  - rewrite <- edit_bones_contains_names. by rewrite Hin.
Qed.

(** Grafting keeps the names of the rig distinct: it never fails,
    only appends bones, and when no two bones of the rig bear the same
    name before, none do after. *)
Theorem grafting_keeps_names_distinct (blender_version : nat)
    (bones : edit_bones_t) (vrm_bones : list Bone)
    (bone_name_mapping : option (gmap string string)) :
  NoDup (bone_names bones) →
  ∃ added,
    attach_unmapped_vrm_model_bones_to_rig blender_version bones vrm_bones
      bone_name_mapping = Ok (bones ++ added)
    ∧ NoDup (bone_names (bones ++ added)).
Proof.
  unfold attach_unmapped_vrm_model_bones_to_rig. revert bones.
  induction vrm_bones as [|v rest IH]; intros bones Hnd.
  { exists []. by rewrite app_nil_r. }
  rewrite attach_bones_cons.
  destruct (IH (bones ++ graft_one blender_version bone_name_mapping bones v))
    as (added & Hrun & Hnd').
  { rewrite bone_names_app.
    destruct (graft_one_fresh blender_version bone_name_mapping bones v)
      as [->|[-> Hfresh]]; [by rewrite app_nil_r|].
    apply NoDup_app. split; [done|]. split; [|apply NoDup_singleton].
    intros x Hx ->%list_elem_of_singleton. done. }
  exists (graft_one blender_version bone_name_mapping bones v ++ added).
  by rewrite app_assoc.
Qed.

Lemma grafting_keeps_names_distinct_witness :
  let rig := [Some (mkEditBone "Spine" None (0, 0, 1)%float (0, 0, 2)%float
                      true false [] ["DEF"])] in
  let spine := mkBone "J_Bip_C_Spine" None (0, 0, 1)%float (0, 0, 2)%float in
  let tail := mkBone "J_Sec_Tail" (Some "J_Bip_C_Spine") (0, 1, 1)%float (0, 2, 1)%float in
  let tail2 := mkBone "J_Sec_Tail2" (Some "J_Bip_C_Spine") (0, 1, 1)%float (0, 2, 1)%float in
  let restore : gmap string string :=
    <["J_Bip_C_Spine" := "Spine"]> (<["J_Sec_Tail" := "Tail"]> (<["J_Sec_Tail2" := "Tail"]> ∅)) in
  ∃ added,
    attach_unmapped_vrm_model_bones_to_rig 4 rig [spine; tail; tail2] (Some restore)
    = Ok (rig ++ added)
    ∧ NoDup (bone_names (rig ++ added)).
Proof.
  intros rig spine tail tail2 restore.
  apply (grafting_keeps_names_distinct 4 rig [spine; tail; tail2] (Some restore)).
  apply (bool_decide_unpack _). vm_compute. exact I.
Defined.

(** ** The outcome of the eye control derivation *)

Lemma py_div_guarded (a b : float) : float_ne b 0 = true → py_div a b = Ok (a / b)%float.
Proof.
  unfold float_ne, py_div. intros H. apply negb_true_iff in H. by rewrite H.
Qed.

Section EyeControlsOutcome.

Variable mat_vec : mat4 → vec3 → vec3.
Variable bone_length : EditBone → float.
Variable set_bone_length : float → EditBone → EditBone.
Variable use_connect : nat → bool.

Lemma read_eye_bones_no_left (obj_matrix_world : mat4)
    (to_visit : list (nat * EditBone)) (locals : eye_locals) :
  (∀ r b, (r, b) ∈ to_visit → eb_name b ≠ "eye.L") →
  left_eye (read_eye_bones mat_vec bone_length obj_matrix_world to_visit locals)
  = left_eye locals.
Proof.
  revert locals. induction to_visit as [|[r0 b0] rest IH]; intros locals Hnone; [done|].
  cbn [read_eye_bones].
  assert (∀ r b, (r, b) ∈ rest → eb_name b ≠ "eye.L") as Hrest
    by (intros r b Hin; apply (Hnone r b); by right).
  case_bool_decide; [by rewrite IH|].
  rewrite bool_decide_eq_false_2 by (apply (Hnone r0 b0); left). by rewrite IH.
Qed.

Lemma read_eye_bones_left (obj_matrix_world : mat4)
    (to_visit : list (nat * EditBone)) (locals : eye_locals) (b : EditBone) :
  eb_name b = "eye.L" →
  (∀ r' b', (r', b') ∈ to_visit → eb_name b' = "eye.L" → b' = b) →
  left_eye locals = Some (mat_vec obj_matrix_world (eb_head b), bone_length b)
  ∨ (∃ r, (r, b) ∈ to_visit) →
  left_eye (read_eye_bones mat_vec bone_length obj_matrix_world to_visit locals)
  = Some (mat_vec obj_matrix_world (eb_head b), bone_length b).
Proof.
  intros Hname. revert locals.
  induction to_visit as [|[r0 b0] rest IH]; intros locals Huniq Hsrc.
  - destruct Hsrc as [?|[r Hin]]; [done|]. by apply elem_of_nil in Hin.
  - cbn [read_eye_bones].
    assert (Hrest : ∀ r' b', (r', b') ∈ rest → eb_name b' = "eye.L" → b' = b).
    { intros r' b' Hin. apply (Huniq r' b'). by right. }
    assert (Hskip : eb_name b0 ≠ "eye.L" →
              ∀ locals', left_eye locals' = left_eye locals →
                left_eye (read_eye_bones mat_vec bone_length obj_matrix_world rest locals')
                = Some (mat_vec obj_matrix_world (eb_head b), bone_length b)).
    { intros Hb0 locals' Hsame. apply IH; [done|].
      destruct Hsrc as [Hl|[r Hin]]; [left; congruence|right].
      apply elem_of_cons in Hin as [[= -> ->]|Hin]; [done|eauto]. }
    case_bool_decide as Hm.
    + apply Hskip; [|done]. rewrite Hm. discriminate.
    + case_bool_decide as He; [|by apply Hskip].
      rewrite (Huniq r0 b0) by (done || left). apply IH; [done|by left].
Qed.

Lemma read_eye_bones_master_is_Some (obj_matrix_world : mat4)
    (to_visit : list (nat * EditBone)) (locals : eye_locals) :
  is_Some (master_eye locals)
  ∨ (∃ r b, (r, b) ∈ to_visit ∧ eb_name b = "master_eye.L") →
  is_Some (master_eye
             (read_eye_bones mat_vec bone_length obj_matrix_world to_visit locals)).
Proof.
  revert locals. induction to_visit as [|[r0 b0] rest IH]; intros locals Hsrc.
  - destruct Hsrc as [?|(r & b & Hin & _)]; [done|]. by apply elem_of_nil in Hin.
  - cbn [read_eye_bones]. case_bool_decide as Hm.
    + apply IH. left. by eexists.
    + assert (Hrest : is_Some (master_eye locals)
                      ∨ (∃ r b, (r, b) ∈ rest ∧ eb_name b = "master_eye.L")).
      { destruct Hsrc as [?|(r & b & Hin & Hname)]; [by left|right].
        apply elem_of_cons in Hin as [[= -> ->]|Hin]; [done|eauto]. }
      case_bool_decide; apply IH; by destruct Hrest; [left|right].
Qed.

(** The slopes and the positions are computed without a division by
    zero once the locals of both bones are bound. *)
Lemma eye_positions_total (locals : eye_locals) (m : vec3 * vec3) (e : vec3 * float) :
  master_eye locals = Some m → left_eye locals = Some e →
  (∃ x_a, eye_x_a locals = Ok x_a) ∧ (∃ x, eye_x_position locals = Ok x)
  ∧ (∃ z, eye_z_position locals = Ok z).
Proof.
  intros Hm He.
  destruct m as [[[hx hy] hz] [[tx ty] tz]], e as [[[ex ey] ez] len].
  assert (Hxa : ∃ x_a, eye_x_a locals = Ok x_a).
  { unfold eye_x_a. rewrite Hm. cbn.
    destruct (float_ne (tx - hx) 0) eqn:Hne; [|by eauto].
    rewrite py_div_guarded by done. eauto. }
  assert (Hza : ∃ z_a, eye_z_a locals = Ok z_a).
  { unfold eye_z_a. rewrite Hm. cbn.
    destruct (float_ne (tz - hz) 0) eqn:Hne; [|by eauto].
    rewrite py_div_guarded by done. eauto. }
  split; [done|]. destruct Hxa as [x_a Hxa], Hza as [z_a Hza]. split.
  - unfold eye_x_position. rewrite Hxa, Hm, He. cbn.
    destruct (float_ne x_a 0) eqn:Hne; [|by eauto].
    rewrite py_div_guarded by done. eauto.
  - unfold eye_z_position. rewrite Hza, Hm, He. cbn.
    destruct (float_ne z_a 0) eqn:Hne; [|by eauto].
    rewrite py_div_guarded by done. eauto.
Qed.

(** Without the locals of the left eye bone every path through the
    arithmetic reads an unbound local. *)
Lemma eye_step_without_left_eye (obj_matrix_world : mat4) (bones : edit_bones_t) :
  left_eye (read_eye_bones mat_vec bone_length obj_matrix_world (edit_bones_iter bones)
              (mkEyeLocals None None)) = None →
  modify_rigify_rig_eyes_control_bones mat_vec bone_length set_bone_length use_connect
    obj_matrix_world bones = Err UnboundLocalError.
Proof.
  intros He. unfold modify_rigify_rig_eyes_control_bones.
  set (locals := read_eye_bones _ _ _ _ _) in *.
  destruct (master_eye locals) as [[[[hx hy] hz] [[tx ty] tz]]|] eqn:Hm.
  - assert (Hxa : ∃ x_a, eye_x_a locals = Ok x_a).
    { unfold eye_x_a. rewrite Hm. cbn.
      destruct (float_ne (tx - hx) 0) eqn:Hne; [|by eauto].
      rewrite py_div_guarded by done. eauto. }
    assert (Hza : ∃ z_a, eye_z_a locals = Ok z_a).
    { unfold eye_z_a. rewrite Hm. cbn.
      destruct (float_ne (tz - hz) 0) eqn:Hne; [|by eauto].
      rewrite py_div_guarded by done. eauto. }
    destruct Hxa as [x_a Hxa], Hza as [z_a Hza]. rewrite Hxa, bind_Ok.
    unfold eye_x_position. rewrite Hxa, Hm, He. cbn.
    destruct (float_ne x_a 0); [done|]. cbn.
    unfold eye_z_position. rewrite Hza, Hm, He. cbn.
    destruct (float_ne z_a 0); done.
  - unfold eye_x_a. by rewrite Hm.
Qed.

(** The outcome of the eye control derivation.  Without a bone
    called ["eye.L"] it raises [UnboundLocalError].  With exactly one
    such bone and a bone called ["master_eye.L"], it raises
    [ZeroDivisionError] when the world-space head of ["eye.L"] has the
    x-coordinate zero, where the scale ratio divides by it, and goes
    through otherwise: the slopes are never divided by zero. *)
Theorem eye_step_outcome (obj_matrix_world : mat4) (bones : edit_bones_t) :
  ((∀ r b, deref bones r = Some b → eb_name b ≠ "eye.L") →
   modify_rigify_rig_eyes_control_bones mat_vec bone_length set_bone_length use_connect
     obj_matrix_world bones = Err UnboundLocalError)
  ∧ (∀ r b,
       deref bones r = Some b → eb_name b = "eye.L" →
       (∀ r' b', deref bones r' = Some b' → eb_name b' = "eye.L" → r' = r) →
       (∃ r' b', deref bones r' = Some b' ∧ eb_name b' = "master_eye.L") →
       if (vec_x (mat_vec obj_matrix_world (eb_head b)) =? 0)%float
       then modify_rigify_rig_eyes_control_bones mat_vec bone_length set_bone_length use_connect
              obj_matrix_world bones = Err ZeroDivisionError
       else ∃ bones',
              modify_rigify_rig_eyes_control_bones mat_vec bone_length set_bone_length use_connect
                obj_matrix_world bones = Ok bones').
Proof.
  split.
  - intros Hnone. apply eye_step_without_left_eye.
    rewrite read_eye_bones_no_left; [done|].
    intros r b Hin%edit_bones_iter_elem. by apply (Hnone r b).
  - intros r b Hb Hname Huniq (r' & b' & Hb' & Hname').
    unfold modify_rigify_rig_eyes_control_bones.
    set (locals := read_eye_bones _ _ _ _ _).
    assert (He : left_eye locals
                 = Some (mat_vec obj_matrix_world (eb_head b), bone_length b)).
    { apply read_eye_bones_left; [done| |].
      - intros r1 b1 Hin%edit_bones_iter_elem Hn1.
        assert (r1 = r) as -> by by apply (Huniq r1 b1). congruence.
      - right. exists r. by apply edit_bones_iter_elem. }
    assert (Hm : is_Some (master_eye locals)).
    { apply read_eye_bones_master_is_Some. right. exists r', b'.
      split; [|done]. by apply edit_bones_iter_elem. }
    destruct Hm as [m Hm].
    destruct (eye_positions_total locals m _ Hm He)
      as ([x_a Hxa] & [x Hx] & [z Hz]).
    rewrite Hxa, Hx, Hz, He. rewrite !bind_Ok. cbn [read_local]. rewrite bind_Ok.
    destruct (mat_vec obj_matrix_world (eb_head b)) as [[ex ey] ez]. cbn [vec_x fst].
    unfold py_div. destruct (ex =? 0)%float; [done|]. rewrite bind_Ok.
    destruct (float_ne x_a 0); eauto.
Qed.

End EyeControlsOutcome.

(** A rig with both eye bones: the left eye bone stands on the plane
    x = 0 in the one case and off it in the other. *)
Lemma eye_step_outcome_witness :
  let identity : mat4 :=
    ((1, 0, 0, 0), (0, 1, 0, 0), (0, 0, 1, 0), (0, 0, 0, 1))%float in
  let master := mkEditBone "master_eye.L" None (0.5, 0, 3)%float (0.5, 0, 4)%float
                  false false [] [] in
  let centred := mkEditBone "eye.L" None (0, 1, 3)%float (0, 1, 4)%float
                   false false [] [] in
  let eye := mkEditBone "eye.L" None (0.25, 1, 3)%float (0.25, 1, 4)%float
               false false [] [] in
  modify_rigify_rig_eyes_control_bones (fun _ v => v) (fun _ => 1%float) (fun _ b => b)
    (fun _ => false) identity [Some master; Some centred] = Err ZeroDivisionError
  ∧ ∃ bones',
      modify_rigify_rig_eyes_control_bones (fun _ v => v) (fun _ => 1%float)
        (fun _ b => b) (fun _ => false) identity [Some master; Some eye] = Ok bones'.
Proof.
  intros identity master centred eye.
  assert (Huniq : ∀ (b0 : EditBone) (r' : nat) (b' : EditBone),
            deref [Some master; Some b0] r' = Some b' → eb_name b' = "eye.L" → r' = 1).
  { intros b0 [|[|r']] b' Hb' Hn'; [|reflexivity|].
    - injection Hb' as <-. discriminate Hn'.
    - destruct r'; discriminate Hb'. }
  split.
  - apply (proj2 (eye_step_outcome (fun _ v => v) (fun _ => 1%float) (fun _ b => b)
                    (fun _ => false) identity [Some master; Some centred]) 1 centred);
      [reflexivity|reflexivity|apply Huniq|].
    exists 0, master. split; reflexivity.
  - apply (proj2 (eye_step_outcome (fun _ v => v) (fun _ => 1%float) (fun _ b => b)
                    (fun _ => false) identity [Some master; Some eye]) 1 eye);
      [reflexivity|reflexivity|apply Huniq|].
    exists 0, master. split; reflexivity.
Defined.

(** ** Where the eye bones are put *)

Lemma edit_bones_update_twice (bones : edit_bones_t) (r : nat) (f g : EditBone → EditBone) :
  edit_bones_update (edit_bones_update bones r f) r g
  = edit_bones_update bones r (fun b => g (f b)).
Proof.
  unfold edit_bones_update at 2 3. destruct (deref bones r) as [b|] eqn:Hb.
  - apply deref_Some in Hb as Hl. apply lookup_lt_Some in Hl.
    unfold edit_bones_update, deref. rewrite list_lookup_insert_eq by done. cbn.
    by rewrite list_insert_insert_eq.
  - unfold edit_bones_update. by rewrite Hb.
Qed.

Section EyeControlsPlacement.

Variable mat_vec : mat4 → vec3 → vec3.
Variable bone_length : EditBone → float.
Variable set_bone_length : float → EditBone → EditBone.
Variable use_connect : nat → bool.

Lemma childless_joint_update (bones : edit_bones_t) (r : nat) (f : EditBone → EditBone) :
  childless_joint use_connect bones r →
  childless_joint use_connect (edit_bones_update bones r f) r.
Proof.
  intros H c bc Hc Hbc. rewrite deref_update, decide_False in Hbc by done.
  by apply (H c bc).
Qed.

(** A write to a bone that shares no joint moves no other bone. *)
Lemma edit_bones_move_quiet (bones : edit_bones_t) (r : nat) (f : EditBone → EditBone) :
  use_connect r = false → childless_joint use_connect bones r →
  edit_bones_move use_connect bones r f = edit_bones_update bones r f.
Proof.
  intros Hr Hchildren. unfold edit_bones_move, transform_update.
  set (bones1 := edit_bones_update bones r f).
  destruct (deref bones1 r) as [bone|] eqn:Hbone; [|done]. rewrite Hr.
  assert (match eb_parent bone with Some _ => bones1 | None => bones1 end = bones1)
    as -> by by destruct (eb_parent bone).
  rewrite Hbone. apply list_eq. intros i. rewrite list_lookup_imap.
  destruct (bones1 !! i) as [[c|]|] eqn:Hi; cbn; try done.
  do 2 f_equal. unfold follow_tail.
  destruct (bool_decide (eb_parent c = Some r)) eqn:Hp; [|done].
  apply bool_decide_eq_true in Hp. apply deref_Some in Hi.
  destruct (decide (i = r)) as [->|Hne]; [by rewrite Hr|].
  by rewrite (childless_joint_update bones r f Hchildren i c Hne Hi Hp).
Qed.

Lemma place_eye_quiet (x z len : float) (bones : edit_bones_t) (r : nat) :
  use_connect r = false → childless_joint use_connect bones r →
  place_eye use_connect x z len bones r = edit_bones_update bones r (placed_eye x z len).
Proof.
  intros Hr Hchildren. unfold place_eye.
  rewrite (edit_bones_move_quiet bones) by done.
  do 3 (rewrite (edit_bones_move_quiet (edit_bones_update bones r _))
          by (done || by apply childless_joint_update);
        rewrite edit_bones_update_twice).
  done.
Qed.

Lemma rescale_eyes_quiet (z len scale_ratio : float) (bones : edit_bones_t) (r : nat) :
  use_connect r = false → childless_joint use_connect bones r →
  ∃ f, rescale_eyes bone_length set_bone_length use_connect z len scale_ratio bones r
       = edit_bones_update bones r f.
Proof.
  intros Hr Hchildren. unfold rescale_eyes.
  rewrite (edit_bones_move_quiet bones) by done.
  do 2 (rewrite (edit_bones_move_quiet (edit_bones_update bones r _))
          by (done || by apply childless_joint_update);
        rewrite edit_bones_update_twice).
  by eexists.
Qed.

Lemma placed_eye_link (x z len : float) (b : EditBone) :
  link (placed_eye x z len b) = link b.
Proof. reflexivity. Qed.

(** The bone that the placing loop leaves for the bone [b], when no
    joint moves with the bones that it writes. *)
Lemma place_eyes_spec (x z len : float) (to_visit : list (nat * EditBone))
    (cur : edit_bones_t) :
  NoDup (to_visit.*1) →
  (∀ r b, (r, b) ∈ to_visit → deref cur r = Some b) →
  (∀ r b, (r, b) ∈ to_visit → eb_name b ∈ ["eye.L"; "eye.R"] →
     use_connect r = false ∧ childless_joint use_connect cur r) →
  length (place_eyes use_connect x z len to_visit cur) = length cur
  ∧ ∀ r,
      (r ∉ to_visit.*1 → deref (place_eyes use_connect x z len to_visit cur) r = deref cur r)
      ∧ (∀ b, (r, b) ∈ to_visit →
           deref (place_eyes use_connect x z len to_visit cur) r
           = Some (if bool_decide (eb_name b = "eye.L") then placed_eye x z len b
                   else if bool_decide (eb_name b = "eye.R")
                        then placed_eye (- x)%float z len b
                        else b)).
Proof.
  revert cur. induction to_visit as [|[r0 b0] rest IH]; intros cur Hnd Hcur Hquiet.
  { split; [done|]. intros r. split; [done|]. intros b Hin. by apply elem_of_nil in Hin. }
  rewrite fmap_cons in Hnd. apply NoDup_cons in Hnd as [Hr0 Hnd]. cbn [fst] in Hr0.
  cbn [place_eyes].
  assert (Hb0 : deref cur r0 = Some b0) by (apply Hcur; left).
  assert (Hstep : ∃ f,
    (if bool_decide (eb_name b0 = "eye.L")
     then place_eyes use_connect x z len rest (place_eye use_connect x z len cur r0)
     else if bool_decide (eb_name b0 = "eye.R")
          then place_eyes use_connect x z len rest
                 (place_eye use_connect (- x)%float z len cur r0)
          else place_eyes use_connect x z len rest cur)
    = place_eyes use_connect x z len rest (edit_bones_update cur r0 f)
    ∧ (∀ b, link (f b) = link b)
    ∧ f b0 = (if bool_decide (eb_name b0 = "eye.L") then placed_eye x z len b0
              else if bool_decide (eb_name b0 = "eye.R")
                   then placed_eye (- x)%float z len b0
                   else b0)).
  { destruct (bool_decide (eb_name b0 = "eye.L")) eqn:HL.
    - apply bool_decide_eq_true in HL.
      destruct (Hquiet r0 b0) as [Hc Hch]; [left|rewrite HL; left|].
      exists (placed_eye x z len). by rewrite place_eye_quiet.
    - destruct (bool_decide (eb_name b0 = "eye.R")) eqn:HR.
      + apply bool_decide_eq_true in HR.
        destruct (Hquiet r0 b0) as [Hc Hch]; [left|rewrite HR; right; left|].
        exists (placed_eye (- x)%float z len). by rewrite place_eye_quiet.
      + exists (fun b => b). split; [|done]. f_equal. unfold edit_bones_update.
        rewrite Hb0. symmetry. apply list_insert_id. by apply deref_Some. }
  destruct Hstep as (f & -> & Hlink & Hf).
  set (cur1 := edit_bones_update cur r0 f).
  assert (Hcur1 : ∀ r, deref cur1 r = if decide (r = r0) then Some (f b0) else deref cur r).
  { intros r. unfold cur1. rewrite deref_update.
    destruct (decide (r = r0)); [by rewrite Hb0|done]. }
  assert (Hne : ∀ r b, (r, b) ∈ rest → r ≠ r0).
  { intros r b Hin ->. apply Hr0, list_elem_of_fmap. by exists (r0, b). }
  destruct (IH cur1 Hnd) as [IHlen IHr].
  { intros r b Hin. rewrite Hcur1, decide_False by by eapply Hne.
    apply Hcur. by right. }
  { intros r b Hin Hname. destruct (Hquiet r b) as [Hc Hch]; [by right|done|].
    split; [done|]. intros c bc Hcr Hbc Hp. rewrite Hcur1 in Hbc.
    destruct (decide (c = r0)) as [->|Hc0].
    - injection Hbc as <-. apply (Hch r0 b0 Hcr Hb0).
      pose proof (Hlink b0) as Hl. injection Hl as _ Hl. congruence.
    - by apply (Hch c bc). }
  split; [rewrite IHlen; apply length_update|].
  intros r. destruct (IHr r) as [IHout IHin]. split.
  - intros Hr. rewrite fmap_cons, not_elem_of_cons in Hr. destruct Hr as [Hr1 Hr2].
    rewrite (IHout Hr2), Hcur1. by rewrite decide_False.
  - intros b Hin. apply elem_of_cons in Hin as [[= -> ->]|Hin].
    + rewrite (IHout Hr0), Hcur1, decide_True by done. by rewrite Hf.
    + by apply IHin.
Qed.

Lemma adjust_eyes_control_spec (z len scale_ratio : float)
    (to_visit : list (nat * EditBone)) (bones : edit_bones_t) :
  (∀ r b, (r, b) ∈ to_visit → eb_name b = "eyes" →
     use_connect r = false ∧ childless_joint use_connect bones r) →
  length (adjust_eyes_control bone_length set_bone_length use_connect z len scale_ratio
            to_visit bones)
  = length bones
  ∧ ((∀ r, deref (adjust_eyes_control bone_length set_bone_length use_connect z len
                    scale_ratio to_visit bones) r = deref bones r)
     ∨ ∃ r0 b0, (r0, b0) ∈ to_visit ∧ eb_name b0 = "eyes"
         ∧ ∀ r, r ≠ r0 →
             deref (adjust_eyes_control bone_length set_bone_length use_connect z len
                      scale_ratio to_visit bones) r = deref bones r).
Proof.
  induction to_visit as [|[r0 b0] rest IH]; intros Hquiet; cbn [adjust_eyes_control];
    [by split; [|left]|].
  destruct (bool_decide (eb_name b0 = "eyes")) eqn:Heyes.
  - apply bool_decide_eq_true in Heyes.
    destruct (Hquiet r0 b0) as [Hc Hch]; [left|done|].
    destruct (rescale_eyes_quiet z len scale_ratio bones r0 Hc Hch) as [f ->].
    split; [apply length_update|]. right. exists r0, b0. split; [left|]. split; [done|].
    intros r Hr. rewrite deref_update. by rewrite decide_False.
  - assert (Hrest : ∀ r b, (r, b) ∈ rest → eb_name b = "eyes" →
              use_connect r = false ∧ childless_joint use_connect bones r).
    { intros r b Hin. apply Hquiet. by right. }
    destruct (IH Hrest) as [IHlen [IH'|(r1 & b1 & Hin & Hname & IH')]]; split; try done;
      [by left|].
    right. exists r1, b1. split; [by right|]. done.
Qed.

(** A bone called ["eye.L"], ["eye.R"] or ["eyes"] shares no joint. *)
Lemma eyes_unconnected_quiet (bones : edit_bones_t) (r : nat) (b : EditBone) :
  eyes_unconnected use_connect bones →
  deref bones r = Some b → eb_name b ∈ ["eye.L"; "eye.R"; "eyes"] →
  use_connect r = false ∧ childless_joint use_connect bones r.
Proof.
  intros H Hb Hname. split.
  - destruct (use_connect r) eqn:Hc; [|done]. by destruct (H r b Hb Hc).
  - intros c bc _ Hbc Hp. destruct (use_connect c) eqn:Hc; [|done].
    destruct (H c bc Hbc Hc) as [_ Hparent]. by destruct (Hparent r b Hp Hb).
Qed.

(** Where the eye bones are put when the derivation goes through, in a
    rig in which no joint moves with a bone called ["eye.L"], ["eye.R"]
    or ["eyes"].  Every bone called ["eye.L"] has the x-coordinate
    [x_position] and every bone called ["eye.R"] the x-coordinate
    [- x_position] at head and tail, both have the head at height
    [z_position] and the tail at height [z_position + e_head_length],
    each of these numbers as the host stores it, in single precision;
    they keep their y-coordinates, names and parents.  The bones called
    otherwise, ["eyes"] apart, are left as they are. *)
Theorem eye_bones_are_mirrored (obj_matrix_world : mat4) (bones bones' : edit_bones_t) :
  eyes_unconnected use_connect bones →
  modify_rigify_rig_eyes_control_bones mat_vec bone_length set_bone_length use_connect
    obj_matrix_world bones = Ok bones' →
  let locals :=
    read_eye_bones mat_vec bone_length obj_matrix_world (edit_bones_iter bones)
      (mkEyeLocals None None) in
  ∃ x z e_head e_head_length,
    eye_x_position locals = Ok x ∧ eye_z_position locals = Ok z
    ∧ left_eye locals = Some (e_head, e_head_length)
    ∧ length bones' = length bones
    ∧ ∀ r b, deref bones r = Some b →
        (eb_name b = "eye.L" →
         ∃ b', deref bones' r = Some b'
           ∧ eb_head b' = (to_single x, vec_y (eb_head b), to_single z)
           ∧ eb_tail b'
             = (to_single x, vec_y (eb_tail b), to_single (z + e_head_length))
           ∧ eb_name b' = eb_name b ∧ eb_parent b' = eb_parent b)
        ∧ (eb_name b = "eye.R" →
           ∃ b', deref bones' r = Some b'
             ∧ eb_head b' = (to_single (- x), vec_y (eb_head b), to_single z)
             ∧ eb_tail b'
               = (to_single (- x), vec_y (eb_tail b), to_single (z + e_head_length))
             ∧ eb_name b' = eb_name b ∧ eb_parent b' = eb_parent b)
        ∧ (eb_name b ∉ ["eye.L"; "eye.R"; "eyes"] → deref bones' r = Some b).
Proof.
  intros Hjoints H locals. unfold modify_rigify_rig_eyes_control_bones in H.
  fold locals in H.
  apply bind_Ok_inv in H as (x_a & Hxa & H).
  apply bind_Ok_inv in H as (x & Hx & H).
  apply bind_Ok_inv in H as (z & Hz & H).
  apply bind_Ok_inv in H as ([e_head len] & He & H).
  destruct (left_eye locals) as [e|] eqn:Hleft; [|done]. injection He as ->.
  destruct e_head as [[ex ey] ez].
  apply bind_Ok_inv in H as (scale_ratio & _ & H).
  exists x, z, (ex, ey, ez), len. split; [done|]. split; [done|]. split; [done|].
  destruct (place_eyes_spec x z len (edit_bones_iter bones) bones
              (edit_bones_iter_NoDup bones)) as [Hlen1 Hplace].
  { intros r b. apply edit_bones_iter_elem. }
  { intros r b Hin%edit_bones_iter_elem Hname.
    apply (eyes_unconnected_quiet bones r b); [done|done|].
    revert Hname. rewrite !elem_of_cons. tauto. }
  set (bones1 := place_eyes use_connect x z len (edit_bones_iter bones) bones) in *.
  assert (Hplaced : ∀ r b, deref bones r = Some b →
            deref bones1 r
            = Some (if bool_decide (eb_name b = "eye.L") then placed_eye x z len b
                    else if bool_decide (eb_name b = "eye.R")
                         then placed_eye (- x)%float z len b
                         else b)).
  { intros r b Hb. destruct (Hplace r) as [_ Hin]. apply Hin.
    by apply edit_bones_iter_elem. }
  assert (Hback : ∀ r b1, deref bones1 r = Some b1 →
            ∃ b, deref bones r = Some b ∧ link b1 = link b).
  { intros r b1 Hb1. destruct (deref bones r) as [b|] eqn:Hb.
    - exists b. split; [done|]. rewrite (Hplaced r b Hb) in Hb1. injection Hb1 as <-.
      by repeat case_bool_decide.
    - destruct (Hplace r) as [Hout _]. rewrite Hout, Hb in Hb1; [done|].
      intros ([r' b'] & -> & Hin%edit_bones_iter_elem)%list_elem_of_fmap.
      cbn in Hb. congruence. }
  assert (Hjoints1 : eyes_unconnected use_connect bones1).
  { intros c bc1 Hbc1 Hc. destruct (Hback c bc1 Hbc1) as (bc & Hbc & Hl).
    injection Hl as Hn Hp. destruct (Hjoints c bc Hbc Hc) as [Hname Hparent].
    split; [by rewrite Hn|]. intros p bp1 Hp1 Hbp1.
    destruct (Hback p bp1 Hbp1) as (bp & Hbp & Hlp). injection Hlp as Hnp _.
    rewrite Hnp. apply (Hparent p bp); [congruence|done]. }
  assert (Hfinal : length bones' = length bones
            ∧ ∀ r b, deref bones r = Some b → eb_name b ≠ "eyes" →
                deref bones' r = deref bones1 r).
  { destruct (float_ne x_a 0); injection H as <-; [|by split].
    destruct (adjust_eyes_control_spec z len scale_ratio (edit_bones_iter bones1) bones1)
      as [Hlen2 [Hsame|(r0 & b0 & Hin & Hname & Hsame)]].
    - intros r b Hin%edit_bones_iter_elem Hname.
      apply (eyes_unconnected_quiet bones1 r b); [done|done|]. rewrite Hname.
      do 2 right. left.
    - split; [congruence|]. intros r b _ _. apply Hsame.
    - split; [congruence|]. intros r b Hb Hne. apply Hsame. intros ->.
      apply edit_bones_iter_elem in Hin. rewrite (Hplaced _ _ Hb) in Hin.
      injection Hin as <-. apply Hne. rewrite <- Hname.
      by repeat case_bool_decide. }
  destruct Hfinal as [Hlen Hfinal]. split; [done|]. intros r b Hb.
  specialize (Hplaced r b Hb). split; [|split].
  - intros Hname. rewrite (Hfinal r b Hb) by (rewrite Hname; discriminate).
    rewrite Hplaced, bool_decide_eq_true_2 by done. eexists. split; [done|].
    by destruct b as [? ? [[? ?] ?] [[? ?] ?]].
  - intros Hname. rewrite (Hfinal r b Hb) by (rewrite Hname; discriminate).
    rewrite Hplaced, bool_decide_eq_false_2, bool_decide_eq_true_2
      by (done || rewrite Hname; discriminate).
    eexists. split; [done|]. by destruct b as [? ? [[? ?] ?] [[? ?] ?]].
  - intros Hname. rewrite !not_elem_of_cons in Hname.
    destruct Hname as (HL & HR & Heyes & _).
    rewrite (Hfinal r b Hb) by done.
    by rewrite Hplaced, !bool_decide_eq_false_2.
Qed.

End EyeControlsPlacement.

(** The theorem on a rig whose master eye bone leans: the positions
    that the arithmetic gives are not single-precision numbers, and the
    right eye bone gets the nearest ones. *)
Lemma eye_bones_are_mirrored_witness :
  let identity : mat4 :=
    ((1, 0, 0, 0), (0, 1, 0, 0), (0, 0, 1, 0), (0, 0, 0, 1))%float in
  let master := mkEditBone "master_eye.L" None (0.5, 0, 3)%float (1.5, 3, 4)%float
                  false false [] [] in
  let left := mkEditBone "eye.L" None (0.25, 1, 3)%float (0.25, 1, 4)%float
                false false [] [] in
  let right := mkEditBone "eye.R" (Some 1%nat) (-0.25, 1, 3)%float (-0.25, 1, 4)%float
                 false false [] [] in
  ∃ bones' b',
    modify_rigify_rig_eyes_control_bones (fun _ v => v) (fun _ => 1%float) (fun _ b => b)
      (fun _ => false) identity [Some master; Some left; Some right] = Ok bones'
    ∧ deref bones' 2 = Some b'
    ∧ eb_head b' = (-0x1.aaaaaap-1, 1, 0x1.aaaaaap+1)%float
    ∧ eb_tail b' = (-0x1.aaaaaap-1, 1, 0x1.155556p+2)%float.
Proof.
  intros identity master left right.
  eexists.
  destruct (eye_bones_are_mirrored (fun _ v => v) (fun _ => 1%float) (fun _ b => b)
              (fun _ => false) identity [Some master; Some left; Some right] _
              ltac:(intros c bc _ Hc; discriminate Hc) eq_refl)
    as (x & z & e_head & len & Hx & Hz & He & _ & Hbones).
  vm_compute in Hx, Hz, He.
  injection Hx as <-. injection Hz as <-. injection He as <- <-.
  destruct (Hbones 2 right eq_refl) as (_ & HR & _).
  destruct (HR eq_refl) as (b' & Hb' & Hhead & Htail & _).
  exists b'. split; [reflexivity|]. split; [exact Hb'|].
  split; [rewrite Hhead|rewrite Htail]; vm_compute; reflexivity.
Defined.

(** ** Temporary names and hash values *)

Lemma decimal_digit_inj (a b : Z) :
  (0 ≤ a < 10)%Z → (0 ≤ b < 10)%Z → decimal_digit a = decimal_digit b → a = b.
Proof.
  intros Ha Hb H. unfold decimal_digit in H.
  apply (f_equal nat_of_ascii) in H.
  rewrite !nat_ascii_embedding in H by lia. lia.
Qed.

Lemma same_last_digit (n m : Z) :
  (n `mod` 10 = m `mod` 10)%Z → (n / 10 = m / 10)%Z → n = m.
Proof.
  intros Hmod Hdiv. rewrite (Z.div_mod n 10), (Z.div_mod m 10) by lia. lia.
Qed.

Lemma format_06d_inj (n m : Z) :
  (0 ≤ n < 1000000)%Z → (0 ≤ m < 1000000)%Z → format_06d n = format_06d m → n = m.
Proof.
  intros Hn Hm H. unfold format_06d in H.
  injection H as H5 H4 H3 H2 H1 H0.
  assert (Hd : ∀ k, (0 ≤ k `mod` 10 < 10)%Z) by (intros k; apply Z.mod_pos_bound; lia).
  apply decimal_digit_inj in H5, H4, H3, H2, H1, H0; try apply Hd. clear Hd.
  assert (Hsmall : ∀ k, (0 ≤ k < 1000000)%Z → ((k / 100000) `mod` 10 = k / 100000)%Z).
  { intros k Hk. apply Z.mod_small. split.
    - apply Z.div_pos; lia.
    - apply Z.div_lt_upper_bound; lia. }
  rewrite !Hsmall in H5 by done.
  assert (Hdiv : ∀ k d, (0 < d)%Z → (k / (d * 10) = k / d / 10)%Z).
  { intros k d Hd. rewrite Z.div_div by lia. done. }
  assert (E4 : (n / 10000 = m / 10000)%Z).
  { apply same_last_digit; [done|]. by rewrite <- !(Hdiv _ 10000%Z) by lia. }
  assert (E3 : (n / 1000 = m / 1000)%Z).
  { apply same_last_digit; [done|]. by rewrite <- !(Hdiv _ 1000%Z) by lia. }
  assert (E2 : (n / 100 = m / 100)%Z).
  { apply same_last_digit; [done|]. by rewrite <- !(Hdiv _ 100%Z) by lia. }
  assert (E1 : (n / 10 = m / 10)%Z).
  { apply same_last_digit; [done|]. by rewrite <- !(Hdiv _ 10%Z) by lia. }
  by apply same_last_digit.
Qed.

Section TemporaryNames.

Variable hash : string → Z.

(** Two names get the same temporary name exactly when their hash
    values agree modulo 1000000: the six digits determine the
    remainder. *)
Theorem temp_names_collide_iff (name1 name2 : string) :
  temp_name hash name1 = temp_name hash name2
  ↔ (hash name1 `mod` 1000000 = hash name2 `mod` 1000000)%Z.
Proof.
  unfold temp_name. split.
  - intros H. apply format_06d_inj; [apply Z.mod_pos_bound; lia..|].
    unfold String.app in H. congruence.
  - by intros ->.
Qed.

(** ** The groups that the rename leaves alone *)

Variable stored_name : list string → string → string → string.

(** The rename of the vertex groups keeps their number, and leaves
    alone every group whose name is not a key of the map and is not the
    temporary name of a group that the map renames; this does not
    depend on the names being distinct, nor on what the host stores for
    the other groups. *)
Theorem untouched_groups_keep_their_names (names : list string)
    (m : gmap string string) :
  length (update_vertex_groups_to_original_names hash stored_name names (Some m))
  = length names
  ∧ ∀ i name,
      names !! i = Some name → m !! name = None →
      (∀ n, n ∈ names → is_Some (m !! n) → temp_name hash n ≠ name) →
      update_vertex_groups_to_original_names hash stored_name names (Some m) !! i
      = Some name.
Proof.
  unfold update_vertex_groups_to_original_names, second_loop.
  destruct (first_loop_frame hash stored_name m names (length names))
    as (Hlen & Hmap & _ & Hkept).
  split; [by rewrite to_target_names_length|].
  intros i name Hi Hm Hfresh. apply to_target_names_frame; [by apply Hkept|].
  rewrite Hmap, take_ge by lia. apply temp_mapping_lookup_unaffected.
  intros n Hn. apply list_elem_of_filter in Hn as [Hn Hin]. by apply Hfresh.
Qed.

End TemporaryNames.

(** ** Removing the facial bones of the generated rig *)

Lemma foldl_orb_existsb {A} (f : A → bool) (l : list A) (acc : bool) :
  foldl (fun matches x => matches || f x) acc l = acc || existsb f l.
Proof.
  revert acc. induction l as [|x l IH]; intros acc; cbn [foldl existsb].
  - by rewrite orb_false_r.
  - by rewrite IH, orb_assoc.
Qed.

Lemma matche_objects_by_name_patterns_elem (objects : list (nat * EditBone))
    (patterns : list (string → bool)) (node : nat * EditBone) :
  node ∈ matche_objects_by_name_patterns objects patterns
  ↔ node ∈ objects ∧ existsb (fun pattern => pattern (eb_name node.2)) patterns = true.
Proof.
  unfold matche_objects_by_name_patterns.
  rewrite list_elem_of_filter, foldl_orb_existsb. cbn. tauto.
Qed.

Lemma facial_roots_elem (bones : edit_bones_t) (r : nat) (b : EditBone) :
  (r, b) ∈ matche_objects_by_name_patterns (edit_bones_iter bones)
             (re_match <$> rig_bones_to_delete_by_name_pattern)
  ↔ deref bones r = Some b ∧ facial_name (eb_name b) = true.
Proof.
  rewrite matche_objects_by_name_patterns_elem, edit_bones_iter_elem.
  unfold facial_name. cbn [snd].
  assert (H : ∀ l : list regex,
             existsb (fun pattern : string → bool => pattern (eb_name b)) (re_match <$> l)
             = existsb (fun pattern => re_match pattern (eb_name b)) l).
  { induction l as [|p l IH]; [done|]. rewrite fmap_cons. cbn [existsb]. by rewrite IH. }
  by rewrite H.
Qed.

(** *** The sort and the descendants *)

Lemma insert_by_index_elem {A} (x y : nat * A) (l : list (nat * A)) :
  y ∈ insert_by_index x l ↔ y = x ∨ y ∈ l.
Proof.
  induction l as [|z l IH]; cbn [insert_by_index].
  - rewrite list_elem_of_singleton. split; [by left|].
    intros [?|H]; [done|]. by apply elem_of_nil in H.
  - destruct (z.1 <? x.1)%nat.
    + rewrite !elem_of_cons, IH. tauto.
    + rewrite !elem_of_cons. tauto.
Qed.

Lemma sort_by_index_elem {A} (y : nat * A) (l : list (nat * A)) :
  y ∈ sort_by_index l ↔ y ∈ l.
Proof.
  unfold sort_by_index. induction l as [|x l IH]; cbn [foldr]; [done|].
  rewrite insert_by_index_elem, elem_of_cons, IH. tauto.
Qed.

Lemma children_recursive_elem (bones : edit_bones_t) (self : EditBone)
    (r : nat) (b : EditBone) :
  (r, b) ∈ children_recursive bones self
  ↔ deref bones r = Some b ∧ parent_index bones b self ≠ 0%nat.
Proof.
  unfold children_recursive. rewrite list_elem_of_fmap. split.
  - intros ([i rb] & Hrb & Hin). cbn in Hrb. subst rb.
    apply sort_by_index_elem, list_elem_of_omap in Hin as ([r' b'] & Hin & Hsome).
    cbn in Hsome. case_bool_decide as Hi; [|done]. injection Hsome as <- <- <-.
    by apply edit_bones_iter_elem in Hin.
  - intros [Hr Hi]. exists (parent_index bones b self, (r, b)). split; [done|].
    apply sort_by_index_elem, list_elem_of_omap. exists (r, b).
    split; [by apply edit_bones_iter_elem|]. cbn. by rewrite bool_decide_eq_true_2.
Qed.

Lemma in_chain_live (bones : edit_bones_t) (p : option nat) (a : nat) (ab : EditBone) :
  in_chain bones p a ab → deref bones a = Some ab.
Proof. induction 1; done. Qed.

Lemma parent_index_from_chain (fuel : nat) (bones : edit_bones_t) (name : string)
    (parent : option nat) (i : nat) :
  chain_ends fuel bones parent = true → i ≠ 0%nat →
  parent_index_from fuel bones name parent i ≠ 0%nat
  ↔ ∃ a ab, in_chain bones parent a ab ∧ eb_name ab = name.
Proof.
  revert parent i. induction fuel as [|fuel IH]; intros parent i Hends Hi.
  - cbn in *. destruct parent as [p|]; cbn in *.
    + destruct (deref bones p) eqn:Hp; [done|]. split; [done|].
      intros (a & ab & Hchain & _). inversion Hchain; congruence.
    + split; [done|]. intros (a & ab & Hchain & _). inversion Hchain.
  - cbn [parent_index_from]. cbn [chain_ends] in Hends.
    destruct parent as [p|]; cbn in *.
    + destruct (deref bones p) as [pb|] eqn:Hp.
      * case_bool_decide as Hname.
        -- split; [|done]. intros _. exists p, pb. split; [by constructor|done].
        -- rewrite IH by (done || lia). split.
           ++ intros (a & ab & Hchain & Hab). exists a, ab. split; [|done].
              by eapply in_chain_up.
           ++ intros (a & ab & Hchain & Hab). exists a, ab. split; [|done].
              inversion Hchain; subst; simplify_eq; done.
      * split; [done|]. intros (a & ab & Hchain & _). inversion Hchain; congruence.
    + split; [done|]. intros (a & ab & Hchain & _). inversion Hchain.
Qed.

Lemma acyclic_chain_ends (bones : edit_bones_t) (r : nat) (b : EditBone) :
  acyclic bones = true → deref bones r = Some b →
  chain_ends (length bones) bones (eb_parent b) = true.
Proof.
  unfold acyclic. rewrite forallb_forall. intros H Hr.
  apply (H (r, b)). apply list_elem_of_In. by apply edit_bones_iter_elem.
Qed.

(** In an armature without cycles, the host's [children_recursive] of a
    bone are the bones that have a bone of its name among their
    ancestors. *)
Lemma children_recursive_chain (bones : edit_bones_t) (self : EditBone)
    (r : nat) (b : EditBone) :
  acyclic bones = true →
  (r, b) ∈ children_recursive bones self
  ↔ deref bones r = Some b
    ∧ ∃ a ab, in_chain bones (eb_parent b) a ab ∧ eb_name ab = eb_name self.
Proof.
  intros Hacyclic. rewrite children_recursive_elem. split.
  - intros [Hr Hi]. split; [done|].
    apply (parent_index_from_chain (length bones) bones _ _ 1); [|done|done].
    by eapply acyclic_chain_ends.
  - intros [Hr Hchain]. split; [done|].
    apply (parent_index_from_chain (length bones) bones _ _ 1); [|done|done].
    by eapply acyclic_chain_ends.
Qed.

(** *** The bones that are gathered *)

Lemma append_unless_present_spec (acc l : list (nat * EditBone)) :
  (NoDup (acc.*1) → NoDup ((foldl append_unless_present acc l).*1))
  ∧ (∀ x, x ∈ foldl append_unless_present acc l → x ∈ acc ∨ x ∈ l)
  ∧ (∀ r, r ∈ (foldl append_unless_present acc l).*1 ↔ r ∈ acc.*1 ∨ r ∈ l.*1).
Proof.
  revert acc. induction l as [|y l IH]; intros acc; cbn [foldl].
  { split; [done|]. split; [by left|]. intros r. rewrite fmap_nil, elem_of_nil. tauto. }
  destruct (IH (append_unless_present acc y)) as (IHnd & IHin & IHref).
  unfold append_unless_present in *. case_bool_decide as Hy.
  - split; [done|]. split.
    + intros x Hx. destruct (IHin x Hx); [by left|right; by right].
    + intros r. rewrite IHref, fmap_cons, elem_of_cons. split; [tauto|].
      intros [?|[->|?]]; [by left|by left|by right].
  - split; [|split].
    + intros Hnd. apply IHnd. rewrite fmap_app. apply NoDup_app.
      split; [done|]. split; [|apply NoDup_singleton].
      intros r Hr ->%list_elem_of_singleton. done.
    + intros x Hx. destruct (IHin x Hx) as [Hx'|Hx']; [|right; by right].
      apply elem_of_app in Hx' as [?|Heq]; [by left|].
      apply list_elem_of_singleton in Heq as ->. right. left.
    + intros r. rewrite IHref, fmap_app, elem_of_app, !fmap_cons, !elem_of_cons.
      rewrite fmap_nil, elem_of_nil. tauto.
Qed.

Lemma collect_bones_to_remove_spec (bones : edit_bones_t)
    (roots : list (nat * EditBone)) :
  NoDup ((collect_bones_to_remove bones roots).*1)
  ∧ (∀ x, x ∈ collect_bones_to_remove bones roots →
       ∃ root, root ∈ roots ∧ (x = root ∨ x ∈ children_recursive bones root.2))
  ∧ (∀ r, r ∈ (collect_bones_to_remove bones roots).*1
          ↔ ∃ root, root ∈ roots
              ∧ (r = root.1 ∨ r ∈ (children_recursive bones root.2).*1)).
Proof.
  unfold collect_bones_to_remove.
  enough (H : ∀ acc : list (nat * EditBone),
    let res := foldl (fun bones_to_remove bone_root =>
                        foldl append_unless_present bones_to_remove
                          (children_recursive bones bone_root.2 ++ [bone_root]))
                     acc roots in
    (NoDup (acc.*1) → NoDup (res.*1))
    ∧ (∀ x, x ∈ res →
         x ∈ acc ∨ ∃ root, root ∈ roots
                      ∧ (x = root ∨ x ∈ children_recursive bones root.2))
    ∧ (∀ r, r ∈ res.*1
            ↔ r ∈ acc.*1
              ∨ ∃ root, root ∈ roots
                  ∧ (r = root.1 ∨ r ∈ (children_recursive bones root.2).*1))).
  { destruct (H []) as (Hnd & Hin & Href). split; [apply Hnd, NoDup_nil_2|]. split.
    - intros x Hx. destruct (Hin x Hx) as [Hx'|?]; [|done]. by apply elem_of_nil in Hx'.
    - intros r. rewrite Href, fmap_nil, elem_of_nil. tauto. }
  induction roots as [|root roots IH]; intros acc; cbn [foldl].
  { split; [done|]. split; [by left|]. intros r. split; [by left|].
    intros [?|(root & Hroot & _)]; [done|]. by apply elem_of_nil in Hroot. }
  destruct (append_unless_present_spec acc (children_recursive bones root.2 ++ [root]))
    as (Hnd1 & Hin1 & Href1).
  destruct (IH (foldl append_unless_present acc
                  (children_recursive bones root.2 ++ [root]))) as (IHnd & IHin & IHref).
  split; [by auto|]. split.
  - intros x Hx. destruct (IHin x Hx) as [Hx'|(root' & Hroot' & Hx')].
    + destruct (Hin1 x Hx') as [?|Hx'']; [by left|]. right. exists root.
      split; [left|]. apply elem_of_app in Hx'' as [?|Heq]; [by right|].
      apply list_elem_of_singleton in Heq as ->. by left.
    + right. exists root'. split; [by right|done].
  - intros r. rewrite IHref, Href1, fmap_app, elem_of_app, fmap_cons, fmap_nil.
    rewrite list_elem_of_singleton. split.
    + intros [[?|[?|?]]|(root' & Hroot' & Hr)].
      * by left.
      * right. exists root. split; [left|by right].
      * right. exists root. split; [left|by left].
      * right. exists root'. split; [by right|done].
    + intros [?|(root' & Hroot' & Hr)]; [by left; left|].
      apply elem_of_cons in Hroot' as [->|Hroot'].
      * left. right. destruct Hr; [by right|by left].
      * right. by exists root'.
Qed.

(** *** Removing a set of bones that is closed under descent *)

Lemma edit_bones_remove_deref (bones : edit_bones_t) (r0 : nat) (b0 : EditBone) :
  deref bones r0 = Some b0 →
  ∃ bones', edit_bones_remove bones r0 = Ok bones'
    ∧ length bones' = length bones
    ∧ ∀ r, deref bones' r
           = if decide (r = r0) then None
             else (fun c => if bool_decide (eb_parent c = Some r0)
                            then set_parent (eb_parent b0) c else c) <$> deref bones r.
Proof.
  intros Hlive. unfold edit_bones_remove. rewrite Hlive. eexists. split; [done|].
  split; [by rewrite length_fmap, length_insert|].
  intros r. unfold deref. rewrite list_lookup_fmap.
  apply deref_Some in Hlive. apply lookup_lt_Some in Hlive as Hlt.
  case_decide as Hr.
  - subst r. by rewrite list_lookup_insert_eq.
  - rewrite list_lookup_insert_ne by done.
    by destruct (bones !! r) as [[c|]|].
Qed.

Lemma remove_bones_closed (to_remove : list (nat * EditBone)) (bones : edit_bones_t) :
  NoDup (to_remove.*1) →
  (∀ r, r ∈ to_remove.*1 → is_Some (deref bones r)) →
  (∀ r b p, deref bones r = Some b → r ∉ to_remove.*1 → eb_parent b = Some p →
     p ∉ to_remove.*1) →
  ∃ bones', remove_bones to_remove bones = Ok bones'
    ∧ length bones' = length bones
    ∧ ∀ r, deref bones' r = if decide (r ∈ to_remove.*1) then None else deref bones r.
Proof.
  revert bones. induction to_remove as [|[r0 x0] rest IH]; intros bones Hnd Hlive Hclosed.
  { exists bones. split; [done|]. split; [done|]. intros r.
    rewrite decide_False; [done|]. apply not_elem_of_nil. }
  rewrite fmap_cons in Hnd, Hlive, Hclosed. cbn [fst] in *.
  apply NoDup_cons in Hnd as [Hr0 Hnd]. cbn [remove_bones].
  destruct (Hlive r0) as [b0 Hb0]; [left|].
  destruct (edit_bones_remove_deref bones r0 b0 Hb0) as (bones1 & -> & Hlen1 & Hderef1).
  rewrite bind_Ok.
  destruct (IH bones1 Hnd) as (bones' & Hrun & Hlen & Hderef).
  - intros r Hr. rewrite Hderef1, decide_False by (by intros ->).
    destruct (Hlive r) as [b Hb]; [by right|]. rewrite Hb. by eexists.
  - intros r b p Hb Hr Hp. rewrite Hderef1 in Hb.
    destruct (decide (r = r0)) as [->|Hne]; [done|].
    destruct (deref bones r) as [c|] eqn:Hc; [|done]. cbn in Hb.
    assert (Hout : r ∉ r0 :: rest.*1) by (by apply not_elem_of_cons).
    case_bool_decide as Hparent.
    + exfalso. apply (Hclosed r c r0 Hc Hout Hparent). left.
    + injection Hb as <-.
      specialize (Hclosed r c p Hc Hout Hp). by apply not_elem_of_cons in Hclosed as [_ ?].
  - exists bones'. split; [done|]. split; [congruence|]. intros r.
    rewrite fmap_cons. cbn [fst]. rewrite Hderef, Hderef1.
    destruct (decide (r = r0)) as [->|Hne].
    + rewrite (decide_True (P := r0 ∈ r0 :: _)) by left. by case_decide.
    + destruct (decide (r ∈ rest.*1)) as [Hin|Hout].
      * by rewrite decide_True by by right.
      * rewrite decide_False by (by apply not_elem_of_cons).
        destruct (deref bones r) as [c|] eqn:Hc; [|done]. cbn.
        rewrite bool_decide_eq_false_2; [done|]. intros Hparent.
        apply (Hclosed r c r0 Hc); [by apply not_elem_of_cons|done|left].
Qed.

Lemma facial_bones_to_remove_live (bones : edit_bones_t) (x : nat * EditBone) :
  x ∈ collect_bones_to_remove bones
        (matche_objects_by_name_patterns (edit_bones_iter bones)
           (re_match <$> rig_bones_to_delete_by_name_pattern)) →
  deref bones x.1 = Some x.2.
Proof.
  intros Hx. destruct (collect_bones_to_remove_spec bones
    (matche_objects_by_name_patterns (edit_bones_iter bones)
       (re_match <$> rig_bones_to_delete_by_name_pattern))) as (_ & Hin & _).
  destruct (Hin x Hx) as ([r b] & Hroot & [->|Hchild]).
  - by apply facial_roots_elem in Hroot as [? _].
  - destruct x as [r' b']. by apply children_recursive_elem in Hchild as [? _].
Qed.

(** The references that are gathered, in an armature without cycles:
    the bones of a facial name and the bones below them. *)
Lemma facial_bones_to_remove_refs (bones : edit_bones_t) (r : nat) :
  acyclic bones = true →
  r ∈ (collect_bones_to_remove bones
         (matche_objects_by_name_patterns (edit_bones_iter bones)
            (re_match <$> rig_bones_to_delete_by_name_pattern))).*1
  ↔ ∃ b, deref bones r = Some b
      ∧ (facial_name (eb_name b) = true
         ∨ ∃ a ab, in_chain bones (eb_parent b) a ab ∧ facial_name (eb_name ab) = true).
Proof.
  intros Hacyclic.
  destruct (collect_bones_to_remove_spec bones
    (matche_objects_by_name_patterns (edit_bones_iter bones)
       (re_match <$> rig_bones_to_delete_by_name_pattern))) as (_ & _ & Href).
  rewrite Href. split.
  - intros ([r0 b0] & Hroot & Hr). apply facial_roots_elem in Hroot as [Hr0 Hfacial].
    destruct Hr as [->|Hr]; [by eauto|].
    apply list_elem_of_fmap in Hr as ([r' b] & -> & Hchild).
    apply children_recursive_chain in Hchild as (Hb & a & ab & Hchain & Hname);
      [|done].
    exists b. split; [done|]. right. exists a, ab. split; [done|].
    cbn in Hname. by rewrite Hname.
  - intros (b & Hb & [Hfacial|(a & ab & Hchain & Hfacial)]).
    + exists (r, b). split; [by apply facial_roots_elem|by left].
    + exists (a, ab). split.
      * apply facial_roots_elem. split; [by eapply in_chain_live|done].
      * right. apply list_elem_of_fmap. exists (r, b). split; [done|].
        apply children_recursive_chain; [done|]. split; [done|]. by exists a, ab.
Qed.

(** In an armature without cycles [removed_rigify_rig_facial_bones]
    goes through and removes exactly the bones whose name matches one of
    its patterns and the bones that have such a bone among their
    ancestors; every other bone is left as it is, parent included. *)
Theorem facial_removal_deletes_subtrees (bones : edit_bones_t) :
  acyclic bones = true →
  ∃ bones',
    removed_rigify_rig_facial_bones bones = Ok bones'
    ∧ length bones' = length bones
    ∧ ∀ r b, deref bones r = Some b →
        (deref bones' r = None
         ↔ facial_name (eb_name b) = true
           ∨ ∃ a ab, in_chain bones (eb_parent b) a ab
               ∧ facial_name (eb_name ab) = true)
        ∧ (deref bones' r = None ∨ deref bones' r = Some b).
Proof.
  intros Hacyclic. unfold removed_rigify_rig_facial_bones.
  set (to_remove := collect_bones_to_remove bones _).
  destruct (remove_bones_closed to_remove bones) as (bones' & Hrun & Hlen & Hderef).
  - apply collect_bones_to_remove_spec.
  - intros r Hr. apply list_elem_of_fmap in Hr as (x & -> & Hx).
    rewrite (facial_bones_to_remove_live bones x Hx). by eexists.
  - intros r b p Hb Hr Hp Hin. apply Hr.
    apply facial_bones_to_remove_refs in Hin as (pb & Hpb & Hfacial); [|done].
    apply facial_bones_to_remove_refs; [done|]. exists b. split; [done|]. right.
    rewrite Hp. destruct Hfacial as [Hfacial|(a & ab & Hchain & Hfacial)].
    + exists p, pb. split; [by constructor|done].
    + exists a, ab. split; [by eapply in_chain_up|done].
  - exists bones'. split; [done|]. split; [done|]. intros r b Hb. rewrite Hderef.
    destruct (decide (r ∈ to_remove.*1)) as [Hin|Hout].
    + split; [|by left]. split; [|done]. intros _.
      apply facial_bones_to_remove_refs in Hin as (b' & Hb' & H); [|done].
      rewrite Hb in Hb'. by injection Hb' as <-.
    + split; [|by right]. rewrite Hb. split; [done|]. intros H. exfalso. apply Hout.
      apply facial_bones_to_remove_refs; [done|]. by exists b.
Qed.

Lemma facial_removal_deletes_subtrees_witness :
  let head := mkEditBone "ORG-face" None zero3 zero3 false false [] [] in
  let jaw := mkEditBone "jaw_master" (Some 0) zero3 zero3 false false [] [] in
  let teeth := mkEditBone "teeth.B" (Some 3) zero3 zero3 false false [] [] in
  let chin := mkEditBone "mouth_ctrl" (Some 1) zero3 zero3 false false [] [] in
  let eye := mkEditBone "ORG-eye.L" (Some 0) zero3 zero3 false false [] [] in
  removed_rigify_rig_facial_bones [Some head; Some jaw; Some teeth; Some chin; Some eye]
  = Ok [Some head; None; None; None; Some eye].
Proof.
  intros head jaw teeth chin eye.
  destruct (facial_removal_deletes_subtrees
              [Some head; Some jaw; Some teeth; Some chin; Some eye] eq_refl)
    as (bones' & Hrun & _ & _).
  rewrite Hrun. f_equal. injection Hrun as <-. reflexivity.
Defined.

Lemma doomed_refs_all (to_visit : list (nat * EditBone)) :
  doomed_refs (fun _ => true) to_visit = to_visit.*1.
Proof.
  induction to_visit as [|[r b] rest IH]; [done|].
  rewrite doomed_refs_cons, fmap_cons. cbn. by rewrite IH.
Qed.

(** The removal goes through on every armature; what it leaves has no
    bone of a facial name. *)
Lemma facial_removal_runs (bones : edit_bones_t) :
  ∃ bones', removed_rigify_rig_facial_bones bones = Ok bones'
    ∧ length bones' = length bones
    ∧ (∀ r b', deref bones' r = Some b' →
         ∃ b, deref bones r = Some b ∧ set_parent None b' = set_parent None b)
    ∧ (∀ r b', deref bones' r = Some b' → facial_name (eb_name b') = false).
Proof.
  unfold removed_rigify_rig_facial_bones.
  set (roots := matche_objects_by_name_patterns _ _).
  set (to_remove := collect_bones_to_remove bones roots).
  destruct (collect_bones_to_remove_spec bones roots) as (Hnd & _ & Href).
  fold to_remove in Hnd, Href.
  destruct (remove_where_spec (fun _ => true) to_remove bones Hnd)
    as (bones' & Hrun & Hlen & Hview).
  { intros r b Hin. exists b. apply (facial_bones_to_remove_live bones (r, b) Hin). }
  rewrite <- remove_bones_where in Hrun. rewrite doomed_refs_all in Hview.
  exists bones'. split; [done|]. split; [done|].
  assert (Hsurvivor : ∀ r b', deref bones' r = Some b' →
            (r ∉ to_remove.*1)
            ∧ ∃ b, deref bones r = Some b ∧ set_parent None b' = set_parent None b).
  { intros r b' Hb'. specialize (Hview r). rewrite Hb' in Hview.
    destruct (decide (r ∈ to_remove.*1)); [done|]. split; [done|].
    destruct (deref bones r) as [b|]; [|done]. exists b. split; [done|].
    apply unparented_Some_inv in Hview as (b'' & [= <-] & Heq). done. }
  split.
  - intros r b' Hb'. by apply Hsurvivor.
  - intros r b' Hb'. destruct (Hsurvivor r b' Hb') as (Hout & b & Hb & Heq).
    destruct (facial_name (eb_name b')) eqn:Hfacial; [|done]. exfalso. apply Hout.
    apply Href. exists (r, b). split; [|by left].
    apply facial_roots_elem. split; [done|].
    by rewrite <- (set_parent_None_name _ _ Heq).
Qed.

(** The removal of the facial bones never fails, and a second run
    on the rig that the first leaves removes nothing. *)
Theorem facial_removal_is_idempotent (bones : edit_bones_t) :
  ∃ bones', removed_rigify_rig_facial_bones bones = Ok bones'
    ∧ removed_rigify_rig_facial_bones bones' = Ok bones'.
Proof.
  destruct (facial_removal_runs bones) as (bones' & Hrun & _ & _ & Hclean).
  exists bones'. split; [done|]. unfold removed_rigify_rig_facial_bones.
  destruct (matche_objects_by_name_patterns (edit_bones_iter bones')
              (re_match <$> rig_bones_to_delete_by_name_pattern))
    as [|[r b'] roots] eqn:Hroots; [done|].
  assert (Hin : (r, b') ∈ matche_objects_by_name_patterns (edit_bones_iter bones')
                            (re_match <$> rig_bones_to_delete_by_name_pattern))
    by (rewrite Hroots; left).
  apply facial_roots_elem in Hin as [Hb' Hfacial].
  by rewrite (Hclean r b' Hb') in Hfacial.
Qed.

(** ** The deformation rename after the facial removal *)

Section RenameAfterFacialRemoval.

Variable stored_name : list string → string → string → string.

Lemma rename_pairs_absent_address (bone_name_mapping : option (gmap string string))
    (bone_mapping : list (string * string)) (bones : edit_bones_t) (t s : string) :
  (t, s) ∈ bone_mapping →
  rename_address t ∉ bone_names bones →
  (∀ names old t' s', (t', s') ∈ bone_mapping →
     stored_name names old (original_name_of bone_name_mapping s') ≠ rename_address t) →
  ∃ e, rename_pairs stored_name bone_name_mapping bone_mapping bones = Err e.
Proof.
  revert bones. induction bone_mapping as [|[t0 s0] rest IH]; intros bones Hin Habsent Hfree.
  { by apply elem_of_nil in Hin. }
  cbn [rename_pairs].
  destruct (rename_pair stored_name bone_name_mapping bones (t0, s0)) as [bones1|e] eqn:Hpair;
    [|by eexists].
  rewrite bind_Ok.
  apply rename_pair_Ok in Hpair as (r0 & b0 & Hfind & Hlen & Hderef).
  apply elem_of_cons in Hin as [[= <- <-]|Hin].
  { exfalso. apply Habsent, edit_bones_find_is_Some. by rewrite Hfind. }
  apply IH; [done| |].
  - rewrite bone_names_elem. intros (r & b & Hb & Hname). rewrite Hderef in Hb.
    destruct (decide (r = r0)) as [->|].
    + injection Hb as <-. cbn in Hname.
      apply (Hfree (bone_names bones) (eb_name b0) t0 s0); [left|done].
    + apply Habsent, bone_names_elem. eauto.
  - intros names old t' s' Hin'. apply (Hfree names old t' s'). by right.
Qed.

(** The deformation rename after the facial removal: if some
    correspondence pair addresses a rig bone whose name matches a
    facial pattern (as ["DEF-jaw"] does for the template bone ["jaw"]),
    and the host stores that name for no name that a pair gives, the
    rename fails, since the facial removal has left no bone of that
    name. *)
Theorem rename_fails_on_mapped_facial_bone (bones : edit_bones_t)
    (bone_mapping : list (string * string))
    (bone_name_mapping : option (gmap string string)) (t s : string) :
  (t, s) ∈ bone_mapping →
  facial_name (rename_address t) = true →
  (∀ names old t' s', (t', s') ∈ bone_mapping →
     stored_name names old (original_name_of bone_name_mapping s') ≠ rename_address t) →
  ∃ bones' e,
    removed_rigify_rig_facial_bones bones = Ok bones'
    ∧ rename_rig_bones_to_match_vrm_model_vertex_groups stored_name bones' bone_mapping
        bone_name_mapping = Err e.
Proof.
  intros Hin Hfacial Hfree.
  destruct (facial_removal_runs bones) as (bones' & Hrun & _ & _ & Hclean).
  destruct (rename_pairs_absent_address bone_name_mapping bone_mapping bones' t s)
    as [e He]; [done| |done|].
  - rewrite bone_names_elem. intros (r & b' & Hb' & Hname).
    specialize (Hclean r b' Hb'). rewrite Hname in Hclean. congruence.
  - exists bones', e. split; [done|].
    unfold rename_rig_bones_to_match_vrm_model_vertex_groups. by rewrite He.
Qed.

End RenameAfterFacialRemoval.

Lemma rename_fails_on_mapped_facial_bone_witness :
  let rig := [Some (mkEditBone "DEF-spine" None zero3 zero3 true false [] []);
              Some (mkEditBone "DEF-jaw" (Some 0) zero3 zero3 true false [] [])] in
  ∃ bones' e,
    removed_rigify_rig_facial_bones rig = Ok bones'
    ∧ rename_rig_bones_to_match_vrm_model_vertex_groups sample_stored_name bones'
        [("spine", "J_Bip_C_Hips"); ("jaw", "J_Adj_C_Jaw")] None = Err e.
Proof.
  intros rig.
  apply (rename_fails_on_mapped_facial_bone sample_stored_name rig
           [("spine", "J_Bip_C_Hips"); ("jaw", "J_Adj_C_Jaw")] None "jaw" "J_Adj_C_Jaw").
  - right. left.
  - reflexivity.
  - intros names old t' s' Hin.
    destruct (sample_stored_name_prefix names old (original_name_of None s'))
      as [ending ->].
    apply elem_of_cons in Hin as [[= -> ->]|Hin];
      [|apply list_elem_of_singleton in Hin as [= -> ->]];
      vm_compute; discriminate.
Defined.

(** ** The bone hierarchy for Unity *)

Lemma adjust_eye_parents_adjust_parents (adjustments : list (string * (string * string)))
    (bones : edit_bones_t) :
  adjust_eye_parents adjustments bones
  = adjust_parents ((fun a : string * (string * string) => (a.1, a.2.1)) <$> adjustments)
      bones.
Proof.
  revert bones. induction adjustments as [|[c [p t]] rest IH]; intros bones; [done|].
  rewrite fmap_cons. cbn [adjust_eye_parents adjust_parents fst snd].
  destruct (edit_bones_contains bones c); cbn [negb andb]; [|apply IH].
  destruct (edit_bones_contains bones p); [|apply IH].
  destruct (assign_parent bones c p); [|done]. rewrite !bind_Ok. apply IH.
Qed.

Lemma adjust_parents_app (l1 l2 : list (string * string)) (bones : edit_bones_t) :
  adjust_parents (l1 ++ l2) bones = (adjust_parents l1 bones ≫= adjust_parents l2).
Proof.
  revert bones. induction l1 as [|[c p] l1 IH]; intros bones; [done|].
  cbn [app adjust_parents].
  destruct (_ && _); [|apply IH].
  destruct (assign_parent bones c p); [|done]. rewrite !bind_Ok. apply IH.
Qed.

Lemma adjust_bone_hierarchy_unity_parents (bones : edit_bones_t) :
  adjust_bone_hierarchy bones = adjust_parents unity_parents bones.
Proof.
  unfold adjust_bone_hierarchy. rewrite (adjust_parents_app (take 16 unity_parents)
    (drop 16 unity_parents) bones : adjust_parents unity_parents bones = _).
  destruct (adjust_parents parent_adjustments bones) eqn:H;
    change parent_adjustments with (take 16 unity_parents) in H; rewrite H; [|done].
  rewrite !bind_Ok. apply adjust_eye_parents_adjust_parents.
Qed.

(** One turn of the loop. *)
Lemma adjust_parent_step (bones : edit_bones_t) (c p : string) :
  ∃ bones1,
    (if edit_bones_contains bones c && edit_bones_contains bones p
     then assign_parent bones c p else Ok bones) = Ok bones1
    ∧ length bones1 = length bones
    ∧ names_of bones1 = names_of bones
    ∧ ∀ r, deref bones1 r
           = match edit_bones_find bones c, edit_bones_find bones p with
             | Some (rc, _), Some (rp, _) =>
                 if decide (r = rc)
                 then if has_ancestor (length bones) bones rc (Some rp)
                      then deref bones r
                      else set_parent (Some rp) <$> deref bones r
                 else deref bones r
             | _, _ => deref bones r
             end.
Proof.
  unfold edit_bones_contains, assign_parent, edit_bones_getitem.
  destruct (edit_bones_find bones c) as [[rc bc]|] eqn:Hc;
    destruct (edit_bones_find bones p) as [[rp bp]|] eqn:Hp;
    (rewrite ?bool_decide_eq_true_2 by (by eexists));
    (rewrite ?bool_decide_eq_false_2 by (by intros [? ?])); cbn [andb];
    try (exists bones; done).
  rewrite !bind_Ok. cbn [fst]. destruct (has_ancestor _ _ _ _).
  - exists bones. split; [done|]. split; [done|]. split; [done|].
    intros r. by destruct (decide (r = rc)).
  - eexists. split; [done|]. split; [apply length_update|].
    split; [by apply names_of_update|].
    intros r. rewrite deref_update. by destruct (decide (r = rc)) as [->|].
Qed.

Lemma edit_bones_find_ref_names (bones bones' : edit_bones_t) (name : string) :
  names_of bones = names_of bones' →
  fst <$> edit_bones_find bones name = fst <$> edit_bones_find bones' name.
Proof. apply edit_bones_find_from_names. Qed.

Lemma edit_bones_find_ref_inj (bones : edit_bones_t) (c c' : string) (r : nat) :
  fst <$> edit_bones_find bones c = Some r →
  fst <$> edit_bones_find bones c' = Some r →
  c = c'.
Proof.
  intros Hc Hc'.
  destruct (edit_bones_find bones c) as [[r1 b1]|] eqn:H1; [|done].
  destruct (edit_bones_find bones c') as [[r2 b2]|] eqn:H2; [|done].
  cbn in Hc, Hc'. injection Hc as ->. injection Hc' as ->.
  apply edit_bones_find_Some in H1 as [H1 N1], H2 as [H2 N2].
  rewrite H1 in H2. injection H2 as <-. congruence.
Qed.

Lemma set_parent_None_eq (b b' : EditBone) (parent : option nat) :
  set_parent None b' = set_parent None b → eb_parent b' = parent →
  b' = set_parent parent b.
Proof.
  destruct b, b'. unfold set_parent. cbn. intros [= -> -> -> -> -> -> ->] ->. done.
Qed.

Lemma adjust_parents_spec (adjustments : list (string * string)) (bones : edit_bones_t) :
  NoDup (adjustments.*1) →
  ∃ bones',
    adjust_parents adjustments bones = Ok bones'
    ∧ length bones' = length bones
    ∧ names_of bones' = names_of bones
    ∧ (∀ r, unparented (deref bones' r) = unparented (deref bones r))
    ∧ (∀ c p rc rp,
         (c, p) ∈ adjustments →
         fst <$> edit_bones_find bones c = Some rc →
         fst <$> edit_bones_find bones p = Some rp →
         eb_parent <$> deref bones' rc = Some (Some rp)
         ∨ deref bones' rc = deref bones rc)
    ∧ (∀ r,
         (∀ c p, (c, p) ∈ adjustments →
            fst <$> edit_bones_find bones c ≠ Some r ∨ edit_bones_find bones p = None) →
         deref bones' r = deref bones r).
Proof.
  revert bones. induction adjustments as [|[c p] rest IH]; intros bones Hnd.
  { exists bones. repeat split; try done. intros c p rc rp Hin.
    by apply elem_of_nil in Hin. }
  rewrite fmap_cons in Hnd. apply NoDup_cons in Hnd as [Hc Hnd]. cbn [fst] in Hc.
  destruct (adjust_parent_step bones c p) as (bones1 & Hstep & Hlen1 & Hnames1 & Hderef1).
  destruct (IH bones1 Hnd) as (bones' & Hrun & Hlen & Hnames & Hview & Hset & Hout).
  assert (Hrun' : adjust_parents ((c, p) :: rest) bones = Ok bones').
  { cbn [adjust_parents]. destruct (_ && _).
    - by rewrite Hstep, bind_Ok.
    - by injection Hstep as ->. }
  assert (Hfind : ∀ n, fst <$> edit_bones_find bones1 n = fst <$> edit_bones_find bones n).
  { intros n. by apply edit_bones_find_ref_names. }
  assert (Hother : ∀ c' p' r,
            (c', p') ∈ rest → fst <$> edit_bones_find bones c' = Some r →
            fst <$> edit_bones_find bones c ≠ Some r).
  { intros c' p' r Hin Hc' Hcr. apply Hc.
    rewrite (edit_bones_find_ref_inj bones c c' r Hcr Hc').
    apply list_elem_of_fmap. by exists (c', p'). }
  exists bones'. split; [done|]. split; [congruence|]. split; [congruence|].
  split; [|split].
  - intros r. rewrite Hview, Hderef1.
    destruct (edit_bones_find bones c) as [[rc bc]|]; [|done].
    destruct (edit_bones_find bones p) as [[rp bp]|]; [|done].
    destruct (decide (r = rc)); [|done].
    destruct (has_ancestor _ _ _ _); [done|]. by destruct (deref bones r).
  - intros c' p' rc rp Hin Hc' Hp'. apply elem_of_cons in Hin as [[= -> ->]|Hin].
    + rewrite Hout.
      * rewrite Hderef1.
        destruct (edit_bones_find bones c) as [[rc0 bc]|] eqn:Hfc; [|done].
        destruct (edit_bones_find bones p) as [[rp0 bp]|]; [|done].
        cbn in Hc', Hp'. injection Hc' as ->. injection Hp' as ->.
        rewrite decide_True by done.
        destruct (has_ancestor _ _ _ _); [by right|]. left.
        apply edit_bones_find_Some in Hfc as [-> _]. done.
      * intros c' p' Hin. left. rewrite Hfind. intros Hcr.
        by apply (Hother c' p' rc Hin Hcr).
    + destruct (Hset c' p' rc rp) as [Hnew|Hold]; [done|by rewrite Hfind..|by left|].
      right. rewrite Hold, Hderef1.
      destruct (edit_bones_find bones c) as [[rc0 bc]|] eqn:Hfc; [|done].
      destruct (edit_bones_find bones p) as [[rp0 bp]|]; [|done].
      rewrite decide_False; [done|]. intros ->.
      by apply (Hother c' p' rc0 Hin Hc').
  - intros r Hr. rewrite Hout.
    + rewrite Hderef1.
      destruct (Hr c p) as [Hne|Hnone]; [left| |by rewrite Hnone; destruct (edit_bones_find bones c) as [[? ?]|]].
      destruct (edit_bones_find bones c) as [[rc bc]|]; [|done].
      destruct (edit_bones_find bones p) as [[rp bp]|]; [|done].
      rewrite decide_False; [done|]. intros ->. by apply Hne.
    + intros c' p' Hin. destruct (Hr c' p') as [Hne|Hnone]; [by right| |].
      * left. by rewrite Hfind.
      * right. specialize (Hfind p'). rewrite Hnone in Hfind.
        by destruct (edit_bones_find bones1 p').
Qed.

(** The turn of the loop for one pair, between the turns for the pairs
    before it and after it. *)
Lemma adjust_parents_turn (before after : list (string * string)) (c p : string)
    (bones bones' : edit_bones_t) (rc rp : nat) (bc bp : EditBone) :
  NoDup ((before ++ (c, p) :: after).*1) →
  adjust_parents (before ++ (c, p) :: after) bones = Ok bones' →
  edit_bones_find bones c = Some (rc, bc) →
  edit_bones_find bones p = Some (rp, bp) →
  ∃ bones_k,
    adjust_parents before bones = Ok bones_k
    ∧ deref bones' rc
      = Some (if has_ancestor (length bones_k) bones_k rc (Some rp)
              then bc else set_parent (Some rp) bc).
Proof.
  intros Hnd Hrun Hc Hp. rewrite fmap_app, fmap_cons in Hnd. cbn [fst] in Hnd.
  apply NoDup_app in Hnd as (Hnd_before & Hcross & Hnd_after).
  apply NoDup_cons in Hnd_after as [Hc_after Hnd_after].
  destruct (adjust_parents_spec before bones Hnd_before)
    as (bones_k & Hrun_k & _ & Hnames_k & _ & _ & Hout_k).
  exists bones_k. split; [done|].
  rewrite adjust_parents_app, Hrun_k, bind_Ok in Hrun.
  destruct (adjust_parent_step bones_k c p) as (bones1 & Hstep & _ & Hnames1 & Hderef1).
  destruct (adjust_parents_spec after bones1 Hnd_after)
    as (bones'' & Hrun' & _ & _ & _ & _ & Hout).
  assert (bones'' = bones') as ->.
  { cbn [adjust_parents] in Hrun. revert Hrun Hstep.
    destruct (edit_bones_contains bones_k c && edit_bones_contains bones_k p).
    - intros Hrun Hstep. rewrite Hstep, bind_Ok in Hrun. congruence.
    - intros Hrun [= ->]. congruence. }
  assert (Hrc : fst <$> edit_bones_find bones c = Some rc) by by rewrite Hc.
  assert (Hbc : deref bones_k rc = Some bc).
  { rewrite Hout_k; [by apply edit_bones_find_Some in Hc as [? _]|].
    intros c' p' Hin. left. intros Hc'.
    assert (c' = c) as -> by by apply (edit_bones_find_ref_inj bones c' c rc).
    apply (Hcross c); [|left]. apply list_elem_of_fmap. by exists (c, p'). }
  rewrite Hout.
  - rewrite Hderef1.
    pose proof (edit_bones_find_ref_names bones_k bones c Hnames_k) as Hfc.
    pose proof (edit_bones_find_ref_names bones_k bones p Hnames_k) as Hfp.
    rewrite Hc in Hfc. rewrite Hp in Hfp.
    destruct (edit_bones_find bones_k c) as [[rc' bc']|]; [|done].
    destruct (edit_bones_find bones_k p) as [[rp' bp']|]; [|done].
    cbn in Hfc, Hfp. injection Hfc as ->. injection Hfp as ->.
    rewrite decide_True, Hbc by done. by destruct (has_ancestor _ _ _ _).
  - intros c' p' Hin. left.
    rewrite (edit_bones_find_ref_names bones1 bones_k c' Hnames1),
      (edit_bones_find_ref_names bones_k bones c' Hnames_k).
    intros Hc'. apply Hc_after.
    rewrite <- (edit_bones_find_ref_inj bones c' c rc Hc' Hrc).
    apply list_elem_of_fmap. by exists (c', p').
Qed.

(** The hierarchy adjustment never fails and changes parent links
    only.  For every pair of [unity_parents] whose two bones are in the
    rig, the bone (the first of its name) ends with the parent bone (the
    first of its name) as its parent, unless the host refuses that
    parent: that is when, in the rig as the pairs before have left it,
    the parent bone is the bone itself or has the bone among its
    ancestors; the bone then ends as it was.  A bone that is not named
    in such a pair, or whose parent bone is not in the rig, is left as
    it is. *)
Theorem hierarchy_adjustment_outcome (bones : edit_bones_t) :
  ∃ bones',
    adjust_bone_hierarchy bones = Ok bones'
    ∧ length bones' = length bones
    ∧ (∀ r, unparented (deref bones' r) = unparented (deref bones r))
    ∧ (∀ before c p after rc bc rp bp,
         unity_parents = before ++ (c, p) :: after →
         edit_bones_getitem bones c = Ok (rc, bc) →
         edit_bones_getitem bones p = Ok (rp, bp) →
         ∃ bones_k,
           adjust_parents before bones = Ok bones_k
           ∧ deref bones' rc
             = Some (if has_ancestor (length bones_k) bones_k rc (Some rp)
                     then bc else set_parent (Some rp) bc))
    ∧ (∀ r b,
         deref bones r = Some b →
         (∀ c p, (c, p) ∈ unity_parents →
            eb_name b ≠ c ∨ edit_bones_contains bones p = false) →
         deref bones' r = Some b).
Proof.
  rewrite adjust_bone_hierarchy_unity_parents.
  assert (Hnd : NoDup (unity_parents.*1)).
  { apply (bool_decide_unpack _). vm_compute. exact I. }
  destruct (adjust_parents_spec unity_parents bones Hnd)
    as (bones' & Hrun & Hlen & _ & Hview & _ & Hout).
  exists bones'. split; [done|]. split; [done|]. split; [done|]. split.
  - intros before c p after rc bc rp bp Heq Hc Hp.
    apply edit_bones_getitem_Ok in Hc, Hp.
    apply (adjust_parents_turn before after c p bones bones' rc rp bc bp);
      [by rewrite <- Heq|by rewrite <- Heq|done|done].
  - intros r b Hb Hr. rewrite Hout; [done|]. intros c p Hin.
    destruct (Hr c p Hin) as [Hne|Hnone].
    + left. intros Hfind.
      destruct (edit_bones_find bones c) as [[r' b']|] eqn:Hc; [|done].
      cbn in Hfind. injection Hfind as ->.
      apply edit_bones_find_Some in Hc as [Hc Hname]. congruence.
    + right. unfold edit_bones_contains in Hnone.
      apply bool_decide_eq_false in Hnone.
      destruct (edit_bones_find bones p); [|done]. exfalso. apply Hnone. by eexists.
Qed.

Lemma store_ext (bones bones' : edit_bones_t) :
  length bones' = length bones →
  (∀ r, deref bones' r = deref bones r) →
  bones' = bones.
Proof.
  intros Hlen Hderef. apply list_eq_same_length with (length bones); [done..|].
  intros i slot' slot _ Hslot' Hslot. specialize (Hderef i). unfold deref in Hderef.
  rewrite Hslot', Hslot in Hderef. done.
Qed.

(** *** Rigs in which the host refuses no parent *)

Lemma ranked_spec (rank : nat → nat) (bones : edit_bones_t) :
  ranked rank bones = true
  ↔ ∀ r b p, deref bones r = Some b → eb_parent b = Some p → rank p < rank r.
Proof.
  unfold ranked. rewrite forallb_forall. split.
  - intros H r b p Hb Hp. specialize (H (r, b)). cbn [fst snd] in H. rewrite Hp in H.
    apply Nat.ltb_lt, H, list_elem_of_In. by apply edit_bones_iter_elem.
  - intros H [r b] Hin. cbn [fst snd].
    apply list_elem_of_In, edit_bones_iter_elem in Hin.
    destruct (eb_parent b) as [p|] eqn:Hp; [|done]. apply Nat.ltb_lt. by apply (H r b p).
Qed.

Lemma ranks_parents_spec (rank : nat → nat) (bones : edit_bones_t)
    (adjustments : list (string * string)) :
  ranks_parents rank bones adjustments = true
  ↔ ∀ c p rc rp, (c, p) ∈ adjustments →
      fst <$> edit_bones_find bones c = Some rc →
      fst <$> edit_bones_find bones p = Some rp →
      rank rp < rank rc.
Proof.
  unfold ranks_parents. rewrite forallb_forall. split.
  - intros H c p rc rp Hin Hc Hp. specialize (H (c, p)). cbn [fst snd] in H.
    destruct (edit_bones_find bones c) as [[rc' bc]|]; [|done].
    destruct (edit_bones_find bones p) as [[rp' bp]|]; [|done].
    cbn in Hc, Hp. injection Hc as ->. injection Hp as ->.
    apply Nat.ltb_lt, H. by apply list_elem_of_In.
  - intros H [c p] Hin. cbn [fst snd]. apply list_elem_of_In in Hin.
    destruct (edit_bones_find bones c) as [[rc bc]|] eqn:Hc; [|done].
    destruct (edit_bones_find bones p) as [[rp bp]|] eqn:Hp; [|done].
    apply Nat.ltb_lt. apply (H c p); [done|by rewrite Hc|by rewrite Hp].
Qed.

Lemma ranks_parents_names (rank : nat → nat) (bones bones' : edit_bones_t)
    (adjustments : list (string * string)) :
  names_of bones' = names_of bones →
  ranks_parents rank bones' adjustments = ranks_parents rank bones adjustments.
Proof.
  intros Hnames. apply eq_true_iff_eq. rewrite !ranks_parents_spec.
  by setoid_rewrite (fun n => edit_bones_find_ref_names bones' bones n Hnames).
Qed.

(** A bone is not met on the way up from a bone that ranks below it. *)
Lemma has_ancestor_ranked (rank : nat → nat) (fuel : nat) (bones : edit_bones_t)
    (r start : nat) :
  ranked rank bones = true →
  rank start < rank r →
  has_ancestor fuel bones r (Some start) = false.
Proof.
  rewrite ranked_spec. intros Hranked. revert start.
  induction fuel as [|fuel IH]; intros start Hstart; [done|].
  cbn [has_ancestor]. rewrite bool_decide_eq_false_2 by (intros ->; lia). cbn [orb].
  destruct (deref bones start) as [b|] eqn:Hb; [|done].
  destruct (eb_parent b) as [p|] eqn:Hp; [|by destruct fuel].
  apply IH. specialize (Hranked start b p Hb Hp). lia.
Qed.

Lemma adjust_parents_ranked (rank : nat → nat) (adjustments : list (string * string))
    (bones : edit_bones_t) :
  NoDup (adjustments.*1) →
  ranked rank bones = true →
  ranks_parents rank bones adjustments = true →
  ∃ bones',
    adjust_parents adjustments bones = Ok bones'
    ∧ ranked rank bones' = true
    ∧ ∀ c p rc rp,
        (c, p) ∈ adjustments →
        fst <$> edit_bones_find bones c = Some rc →
        fst <$> edit_bones_find bones p = Some rp →
        eb_parent <$> deref bones' rc = Some (Some rp).
Proof.
  revert bones. induction adjustments as [|[c p] rest IH]; intros bones Hnd Hranked Hpairs.
  { exists bones. split; [done|]. split; [done|]. intros c p rc rp Hin.
    by apply elem_of_nil in Hin. }
  pose proof Hnd as Hnd0.
  rewrite fmap_cons in Hnd. apply NoDup_cons in Hnd as [Hc Hnd]. cbn [fst] in Hc.
  destruct (adjust_parent_step bones c p) as (bones1 & Hstep & Hlen1 & Hnames1 & Hderef1).
  assert (Hfind : ∀ n, fst <$> edit_bones_find bones1 n = fst <$> edit_bones_find bones n).
  { intros n. by apply edit_bones_find_ref_names. }
  pose proof (proj1 (ranks_parents_spec rank bones _) Hpairs) as Hpairs'.
  assert (Hwritten : ∀ r, deref bones1 r
            = match edit_bones_find bones c, edit_bones_find bones p with
              | Some (rc, _), Some (rp, _) =>
                  if decide (r = rc) then set_parent (Some rp) <$> deref bones r
                  else deref bones r
              | _, _ => deref bones r
              end).
  { intros r. rewrite Hderef1.
    destruct (edit_bones_find bones c) as [[rc bc]|] eqn:Hfc; [|done].
    destruct (edit_bones_find bones p) as [[rp bp]|] eqn:Hfp; [|done].
    rewrite (has_ancestor_ranked rank _ bones rc rp Hranked); [done|].
    apply (Hpairs' c p); [left|by rewrite Hfc|by rewrite Hfp]. }
  assert (Hranked1 : ranked rank bones1 = true).
  { apply ranked_spec. intros r b q Hb Hq. rewrite Hwritten in Hb.
    pose proof (proj1 (ranked_spec rank bones) Hranked) as Hold.
    destruct (edit_bones_find bones c) as [[rc bc]|] eqn:Hfc; [|by apply (Hold r b q)].
    destruct (edit_bones_find bones p) as [[rp bp]|] eqn:Hfp; [|by apply (Hold r b q)].
    destruct (decide (r = rc)) as [->|]; [|by apply (Hold r b q)].
    destruct (deref bones rc) as [b0|]; [|done]. injection Hb as <-.
    cbn in Hq. injection Hq as <-.
    apply (Hpairs' c p); [left|by rewrite Hfc|by rewrite Hfp]. }
  assert (Hpairs1 : ranks_parents rank bones1 rest = true).
  { apply ranks_parents_spec. intros c' p' rc rp Hin Hc' Hp'.
    apply (Hpairs' c' p'); [by right|by rewrite <- Hfind..]. }
  destruct (IH bones1 Hnd Hranked1 Hpairs1) as (bones' & Hrun & Hranked' & Hset).
  destruct (adjust_parents_spec rest bones1 Hnd) as (bones'' & Hrun'' & _ & _ & _ & _ & Hout).
  rewrite Hrun in Hrun''. injection Hrun'' as <-.
  exists bones'. split.
  { cbn [adjust_parents]. destruct (_ && _).
    - by rewrite Hstep, bind_Ok.
    - by injection Hstep as ->. }
  split; [done|].
  intros c' p' rc rp Hin Hc' Hp'. apply elem_of_cons in Hin as [[= -> ->]|Hin].
  - rewrite Hout.
    + rewrite Hwritten.
      destruct (edit_bones_find bones c) as [[rc0 bc]|] eqn:Hfc; [|done].
      destruct (edit_bones_find bones p) as [[rp0 bp]|]; [|done].
      cbn in Hc', Hp'. injection Hc' as ->. injection Hp' as ->.
      rewrite decide_True by done.
      apply edit_bones_find_Some in Hfc as [-> _]. done.
    + intros c' p' Hin. left. rewrite Hfind. intros Hcr. apply Hc.
      rewrite (edit_bones_find_ref_inj bones c c' rc Hc' Hcr).
      apply list_elem_of_fmap. by exists (c', p').
  - apply (Hset c' p'); [done|by rewrite Hfind..].
Qed.

Lemma adjust_parents_ranked_idempotent (rank : nat → nat)
    (adjustments : list (string * string)) (bones bones1 : edit_bones_t) :
  NoDup (adjustments.*1) →
  ranked rank bones = true →
  ranks_parents rank bones adjustments = true →
  adjust_parents adjustments bones = Ok bones1 →
  adjust_parents adjustments bones1 = Ok bones1.
Proof.
  intros Hnd Hranked Hpairs Hrun.
  destruct (adjust_parents_ranked rank adjustments bones Hnd Hranked Hpairs)
    as (bones1' & Hrun1 & Hranked1 & Hset1).
  rewrite Hrun in Hrun1. injection Hrun1 as <-.
  destruct (adjust_parents_spec adjustments bones Hnd)
    as (bones1' & Hrun1 & _ & Hnames1 & _).
  rewrite Hrun in Hrun1. injection Hrun1 as <-.
  assert (Hpairs1 : ranks_parents rank bones1 adjustments = true)
    by by rewrite (ranks_parents_names rank bones bones1).
  destruct (adjust_parents_ranked rank adjustments bones1 Hnd Hranked1 Hpairs1)
    as (bones2 & Hrun2 & _ & Hset2).
  destruct (adjust_parents_spec adjustments bones1 Hnd)
    as (bones2' & Hrun2' & Hlen2 & _ & Hview2 & _ & Hout2).
  rewrite Hrun2 in Hrun2'. injection Hrun2' as <-.
  rewrite Hrun2. f_equal. apply store_ext; [done|]. intros r.
  destruct (decide (Exists (fun cp : string * string =>
                              fst <$> edit_bones_find bones1 cp.1 = Some r
                              ∧ is_Some (edit_bones_find bones1 cp.2)) adjustments))
    as [Htouched|Huntouched].
  - apply Exists_exists in Htouched as ([c p] & Hin & Hc & [[rp bp] Hp]).
    cbn [fst snd] in *.
    assert (Hp2 : eb_parent <$> deref bones2 r = Some (Some rp)).
    { apply (Hset2 c p); [done..|]. by rewrite Hp. }
    assert (Hp1 : eb_parent <$> deref bones1 r = Some (Some rp)).
    { apply (Hset1 c p); [done| |].
      - by rewrite (edit_bones_find_ref_names bones bones1).
      - by rewrite (edit_bones_find_ref_names bones bones1), Hp. }
    specialize (Hview2 r).
    destruct (deref bones1 r) as [b1|] eqn:Hb1; [|done].
    apply unparented_Some_inv in Hview2 as (b2 & Hb2 & Heq). rewrite Hb2 in Hp2 |- *.
    cbn [fmap option_fmap option_map] in Hp1, Hp2.
    injection Hp1 as Hp1. injection Hp2 as Hp2. f_equal.
    rewrite (set_parent_None_eq b1 b2 (Some rp) Heq Hp2).
    symmetry. by apply set_parent_None_eq.
  - apply Hout2. intros c p Hin.
    destruct (decide (fst <$> edit_bones_find bones1 c = Some r)) as [Hc|]; [|by left].
    right. destruct (edit_bones_find bones1 p) eqn:Hp; [|done].
    exfalso. apply Huntouched, Exists_exists. exists (c, p).
    split; [done|]. split; [done|]. cbn [snd]. by rewrite Hp.
Qed.

(** Where the host refuses no parent.  When the bones can be ranked
    so that every bone ranks above its parent in the rig, and above the
    parent that [unity_parents] gives it, the hierarchy adjustment
    gives every bone of [unity_parents] that parent, the ranking still
    holds of the rig it leaves (which then has no cycle of parent
    links), and a second run changes nothing. *)
Theorem hierarchy_adjustment_on_ranked_rig (rank : nat → nat) (bones : edit_bones_t) :
  ranked rank bones = true →
  ranks_parents rank bones unity_parents = true →
  ∃ bones',
    adjust_bone_hierarchy bones = Ok bones'
    ∧ (∀ c p rc bc rp bp,
         (c, p) ∈ unity_parents →
         edit_bones_getitem bones c = Ok (rc, bc) →
         edit_bones_getitem bones p = Ok (rp, bp) →
         deref bones' rc = Some (set_parent (Some rp) bc))
    ∧ ranked rank bones' = true
    ∧ adjust_bone_hierarchy bones' = Ok bones'.
Proof.
  intros Hranked Hpairs.
  assert (Hnd : NoDup (unity_parents.*1)).
  { apply (bool_decide_unpack _). vm_compute. exact I. }
  destruct (adjust_parents_ranked rank unity_parents bones Hnd Hranked Hpairs)
    as (bones' & Hrun & Hranked' & Hset).
  destruct (adjust_parents_spec unity_parents bones Hnd)
    as (bones'' & Hrun'' & _ & _ & Hview & _).
  rewrite Hrun in Hrun''. injection Hrun'' as <-.
  exists bones'. rewrite !adjust_bone_hierarchy_unity_parents.
  split; [done|]. split; [|split; [done|]].
  - intros c p rc bc rp bp Hin Hc Hp.
    apply edit_bones_getitem_Ok in Hc, Hp.
    specialize (Hset c p rc rp Hin). rewrite Hc, Hp in Hset.
    specialize (Hset eq_refl eq_refl). specialize (Hview rc).
    apply edit_bones_find_Some in Hc as [Hc _]. rewrite Hc in Hview.
    apply unparented_Some_inv in Hview as (b' & Hb' & Heq). rewrite Hb' in Hset |- *.
    cbn [fmap option_fmap option_map] in Hset. injection Hset as Hparent. f_equal.
    by apply set_parent_None_eq.
  - by apply (adjust_parents_ranked_idempotent rank unity_parents bones).
Qed.

Lemma hierarchy_adjustment_on_ranked_rig_witness :
  ∃ bones',
    adjust_bone_hierarchy
      [Some (mkEditBone "J_Bip_C_Hips" None zero3 zero3 true false [] []);
       Some (mkEditBone "J_Bip_C_UpperChest" (Some 0) zero3 zero3 true false [] []);
       Some (mkEditBone "J_Bip_L_Shoulder" (Some 0) zero3 zero3 true false [] []);
       Some (mkEditBone "J_Bip_L_UpperArm" (Some 1) zero3 zero3 true false [] [])]
    = Ok bones'
    ∧ deref bones' 2
      = Some (mkEditBone "J_Bip_L_Shoulder" (Some 1) zero3 zero3 true false [] [])
    ∧ deref bones' 3
      = Some (mkEditBone "J_Bip_L_UpperArm" (Some 2) zero3 zero3 true false [] [])
    ∧ adjust_bone_hierarchy bones' = Ok bones'.
Proof.
  destruct (hierarchy_adjustment_on_ranked_rig (fun r => r)
              [Some (mkEditBone "J_Bip_C_Hips" None zero3 zero3 true false [] []);
               Some (mkEditBone "J_Bip_C_UpperChest" (Some 0) zero3 zero3 true false [] []);
               Some (mkEditBone "J_Bip_L_Shoulder" (Some 0) zero3 zero3 true false [] []);
               Some (mkEditBone "J_Bip_L_UpperArm" (Some 1) zero3 zero3 true false [] [])])
    as (bones' & Hrun & Hset & _ & Hagain); [reflexivity..|].
  exists bones'. split; [done|]. split; [|split; [|done]].
  - rewrite (Hset "J_Bip_L_Shoulder" "J_Bip_C_UpperChest" 2
               (mkEditBone "J_Bip_L_Shoulder" (Some 0) zero3 zero3 true false [] []) 1
               (mkEditBone "J_Bip_C_UpperChest" (Some 0) zero3 zero3 true false [] []));
      [reflexivity| |reflexivity..].
    apply (bool_decide_unpack _). vm_compute. exact I.
  - rewrite (Hset "J_Bip_L_UpperArm" "J_Bip_L_Shoulder" 3
               (mkEditBone "J_Bip_L_UpperArm" (Some 1) zero3 zero3 true false [] []) 2
               (mkEditBone "J_Bip_L_Shoulder" (Some 0) zero3 zero3 true false [] []));
      [reflexivity| |reflexivity..].
    apply (bool_decide_unpack _). vm_compute. exact I.
Defined.

(** ** What the rewriter does about a bone that is not there *)

Lemma adjust_parents_total (adjustments : list (string * string)) (bones : edit_bones_t) :
  ∃ bones', adjust_parents adjustments bones = Ok bones'.
Proof.
  revert bones. induction adjustments as [|[c p] rest IH]; intros bones; [by eexists|].
  cbn [adjust_parents].
  destruct (adjust_parent_step bones c p) as (bones1 & Hstep & _).
  destruct (_ && _); [|apply IH]. rewrite Hstep, bind_Ok. apply IH.
Qed.

Lemma rig_bones_find_update (bones : list RigBone) (r : nat) (f : RigBone → RigBone)
    (name : string) :
  (∀ b, rb_name (f b) = rb_name b) →
  is_Some (rig_bones_find (rig_bones_update bones r f) name)
  ↔ is_Some (rig_bones_find bones name).
Proof.
  intros Hf. unfold rig_bones_find.
  assert (∀ l : list RigBone,
            is_Some (list_find (fun b => bool_decide (rb_name b = name)) l)
            ↔ name ∈ rb_name <$> l) as Hfind.
  { intros l. split.
    - intros [[i b] (Hi & Hb%bool_decide_unpack & _)%list_find_Some].
      apply list_elem_of_fmap. exists b. split; [done|]. by eapply list_elem_of_lookup_2.
    - intros (b & -> & Hin)%list_elem_of_fmap.
      destruct (list_find (fun b0 => bool_decide (rb_name b0 = rb_name b)) l) eqn:Hf';
        [by eexists|].
      eapply list_find_None, Forall_forall in Hf'; [|done].
      destruct Hf'. by apply bool_decide_pack. }
  rewrite !Hfind. unfold rig_bones_update.
  destruct (bones !! r) as [b|] eqn:Hb; [|done].
  rewrite list_fmap_insert, Hf, list_insert_id; [done|].
  by rewrite list_lookup_fmap, Hb.
Qed.

(** From version 4 of the host on, the wiring of the eye bones
    completes. *)
Lemma wire_eye_bones_total (blender_version : nat) (collections : list string)
    (adjustments : list (string * (string * string))) (bones : list RigBone) :
  (4 ≤ blender_version)%nat →
  ∃ bones', wire_eye_bones blender_version collections adjustments bones = Ok bones'.
Proof.
  intros Hv. revert bones.
  induction adjustments as [|[c [p t]] rest IH]; intros bones; [by eexists|].
  cbn [wire_eye_bones].
  destruct (rig_bones_find bones c) as [[r b]|] eqn:Hc; [|apply IH].
  rewrite (proj2 (Nat.leb_gt _ _)) by lia.
  assert (∃ bones1, assign_to_def collections c bones = Ok bones1) as [bones1 ->].
  { clear IH. induction collections as [|collection collections IH]; [by eexists|].
    cbn [assign_to_def]. case_bool_decide; [|done].
    unfold rig_bones_getitem. rewrite Hc, bind_Ok. by eexists. }
  rewrite bind_Ok. apply IH.
Qed.

(** C2, as the code has it.  In the post-generation rewriter the steps
    that look a bone up by name behind a test of its presence pass over
    a bone that is not there and never raise: the grafting step passes
    over a source bone whose parent's restored name is absent from the
    rig; the fixed hierarchy rewrites pass over a pair of which the bone
    or the parent is absent; the wiring of the eye bones passes over an
    eye bone that is absent and, from version 4 of the host on,
    completes.  The deformation-rename step does not pass over an absent
    bone: it fails exactly when, on the rig as the earlier pairs have
    left it, the bone that a pair addresses (ORG-<t> for the two eye
    names, DEF-<t> otherwise) is absent, with a lookup error, or is a
    DEF- bone whose deform flag is off, with an assertion error. *)
Theorem rewriter_failure_semantics :
  (∀ blender_version bones vrm_bones bone_name_mapping,
     ∃ bones', attach_unmapped_vrm_model_bones_to_rig blender_version bones vrm_bones
                 bone_name_mapping = Ok bones')
  ∧ (∀ blender_version bone_name_mapping v p rest bones,
       b_parent v = Some p →
       edit_bones_contains bones (original_name_of bone_name_mapping p) = false →
       attach_bones blender_version bone_name_mapping (v :: rest) bones
       = attach_bones blender_version bone_name_mapping rest bones)
  ∧ (∀ bones, ∃ bones', adjust_bone_hierarchy bones = Ok bones')
  ∧ (∀ c p rest bones,
       edit_bones_contains bones c = false ∨ edit_bones_contains bones p = false →
       adjust_parents ((c, p) :: rest) bones = adjust_parents rest bones)
  ∧ (∀ c p target rest bones,
       edit_bones_contains bones c = false ∨ edit_bones_contains bones p = false →
       adjust_eye_parents ((c, (p, target)) :: rest) bones
       = adjust_eye_parents rest bones)
  ∧ (∀ blender_version collections c p target rest bones,
       rig_bones_find bones c = None →
       wire_eye_bones blender_version collections ((c, (p, target)) :: rest) bones
       = wire_eye_bones blender_version collections rest bones)
  ∧ (∀ blender_version collections bones,
       (4 ≤ blender_version)%nat →
       ∃ bones', wire_eye_bones blender_version collections eye_bone_adjustments bones
                 = Ok bones')
  ∧ (∀ stored_name bones bone_mapping bone_name_mapping e,
       rename_rig_bones_to_match_vrm_model_vertex_groups stored_name bones bone_mapping
         bone_name_mapping = Err e
       ↔ ∃ before t s after bones1,
           bone_mapping = before ++ (t, s) :: after
           ∧ rename_pairs stored_name bone_name_mapping before bones = Ok bones1
           ∧ ((edit_bones_contains bones1 (rename_address t) = false ∧ e = KeyError)
              ∨ (∃ r b, edit_bones_getitem bones1 (rename_address t) = Ok (r, b)
                   ∧ (t ∉ ["eye.L"; "eye.R"]) ∧ use_deform b = false
                   ∧ e = AssertionError))).
Proof.
  split; [|split; [|split; [|split; [|split; [|split; [|split]]]]]].
  - intros blender_version bones vrm_bones bone_name_mapping.
    destruct (attach_bones_total blender_version bone_name_mapping vrm_bones bones)
      as [added Hrun].
    by exists (bones ++ added).
  - intros blender_version bone_name_mapping v p rest bones Hp Habsent.
    rewrite attach_bones_cons. unfold graft_one. rewrite Hp.
    unfold edit_bones_contains in Habsent. apply bool_decide_eq_false in Habsent.
    destruct (edit_bones_find bones (original_name_of bone_name_mapping p)) eqn:Hf.
    + exfalso. apply Habsent. eauto.
    + destruct (edit_bones_contains bones _); by rewrite app_nil_r.
  - intros bones. rewrite adjust_bone_hierarchy_unity_parents.
    apply adjust_parents_total.
  - intros c p rest bones Habsent. cbn [adjust_parents].
    by destruct Habsent as [-> | ->]; rewrite ?andb_false_r.
  - intros c p target rest bones Habsent. cbn [adjust_eye_parents].
    destruct Habsent as [-> | ->]; [done|]. by destruct (edit_bones_contains bones c).
  - intros blender_version collections c p target rest bones Habsent.
    cbn [wire_eye_bones]. by rewrite Habsent.
  - intros blender_version collections bones. apply wire_eye_bones_total.
  - intros stored_name bones bone_mapping bone_name_mapping e.
    unfold rename_rig_bones_to_match_vrm_model_vertex_groups.
    assert (rename_pairs stored_name bone_name_mapping bone_mapping bones
              ≫= (fun bones' => Ok (rename_root stored_name (edit_bones_iter bones') bones'))
            = Err e
            ↔ rename_pairs stored_name bone_name_mapping bone_mapping bones = Err e) as ->.
    { destruct (rename_pairs stored_name bone_name_mapping bone_mapping bones); simpl;
        split; congruence. }
    rewrite rename_pairs_Err. split.
    + intros (before & [t s] & after & bones1 & Heq & Hrun & Herr).
      exists before, t, s, after, bones1. split; [done|]. split; [done|].
      apply rename_pair_Err in Herr as [[Hf ->]|(r & b & Hf & Heye & Hd & ->)].
      * left. split; [|done]. unfold edit_bones_contains.
        rewrite Hf. by apply bool_decide_eq_false_2; intros [? ?].
      * right. exists r, b. by rewrite edit_bones_getitem_Ok.
    + intros (before & t & s & after & bones1 & Heq & Hrun & Hcase).
      exists before, (t, s), after, bones1. split; [done|]. split; [done|].
      apply rename_pair_Err. destruct Hcase as [[Hf ->]|(r & b & Hf & Heye & Hd & ->)].
      * left. split; [|done]. unfold edit_bones_contains in Hf.
        apply bool_decide_eq_false in Hf.
        destruct (edit_bones_find bones1 (rename_address t)); [|done].
        exfalso. apply Hf. eauto.
      * right. exists r, b. by rewrite <- edit_bones_getitem_Ok.
Qed.

(** The theorem on three rigs.  In the first the bone that the second
    pair addresses has its deform flag off, and the bone that the first
    pair renames to its name has been given another name by the host;
    in the second the parent of the source bone is absent; the third
    has one of the two eye bones and no bone for it to follow. *)
Lemma rewriter_failure_semantics_witness :
  rename_rig_bones_to_match_vrm_model_vertex_groups sample_stored_name
    [Some (mkEditBone "DEF-spine" None zero3 zero3 true false [] []);
     Some (mkEditBone "DEF-chest" None zero3 zero3 false false [] [])]
    [("spine", "DEF-chest"); ("chest", "J_Bip_C_Chest")] None = Err AssertionError
  ∧ attach_bones 4 None
      [mkBone "J_Sec_Tail" (Some "J_Bip_C_Spine") zero3 zero3]
      [Some (mkEditBone "DEF-spine" None zero3 zero3 true false [] [])]
    = attach_bones 4 None []
        [Some (mkEditBone "DEF-spine" None zero3 zero3 true false [] [])]
  ∧ wire_eye_bones 4 ["DEF"; "ORG"] eye_bone_adjustments
      [mkRigBone "J_Adj_R_FaceEye" [] []]
    = Ok [mkRigBone "J_Adj_R_FaceEye" ["DEF"] []].
Proof.
  split; [|split].
  - apply (proj2 (proj2 (proj2 (proj2 (proj2 (proj2 (proj2
             rewriter_failure_semantics)))))) sample_stored_name).
    exists [("spine", "DEF-chest")], "chest", "J_Bip_C_Chest", [],
      [Some (mkEditBone "DEF-chest.001" None zero3 zero3 true false [] []);
       Some (mkEditBone "DEF-chest" None zero3 zero3 false false [] [])].
    split; [reflexivity|]. split; [reflexivity|]. right.
    exists 1%nat, (mkEditBone "DEF-chest" None zero3 zero3 false false [] []).
    split; [reflexivity|]. split; [|done].
    apply (bool_decide_unpack _). vm_compute. exact I.
  - apply (proj1 (proj2 rewriter_failure_semantics) 4 None _ "J_Bip_C_Spine");
      reflexivity.
  - unfold eye_bone_adjustments.
    rewrite (proj1 (proj2 (proj2 (proj2 (proj2 (proj2 rewriter_failure_semantics)))))
               4 ["DEF"; "ORG"] "J_Adj_L_FaceEye" "J_Bip_C_Head" "MCH-eye.L"
               [("J_Adj_R_FaceEye", ("J_Bip_C_Head", "MCH-eye.R"))]
               [mkRigBone "J_Adj_R_FaceEye" [] []] eq_refl).
    reflexivity.
Defined.

(** C2 as stated does not hold: here no deform flag is off, yet the
    rename step aborts, because the bone ["DEF-hips"] that the pair
    addresses is not in the rig. *)
Lemma rename_of_absent_bone_is_fatal :
  rename_rig_bones_to_match_vrm_model_vertex_groups sample_stored_name
    [Some (mkEditBone "DEF-spine" None zero3 zero3 true false [] [])]
    [("hips", "J_Bip_C_Hips")] None = Err KeyError.
Proof. reflexivity. Qed.

(** ** Grafting a second time *)

Lemma attach_bones_app (blender_version : nat)
    (bone_name_mapping : option (gmap string string)) (l1 l2 : list Bone)
    (bones : edit_bones_t) :
  attach_bones blender_version bone_name_mapping (l1 ++ l2) bones
  = (attach_bones blender_version bone_name_mapping l1 bones
     ≫= attach_bones blender_version bone_name_mapping l2).
Proof.
  revert bones. induction l1 as [|v l1 IH]; intros bones; [done|].
  cbn [app]. rewrite !attach_bones_cons. apply IH.
Qed.

Lemma graft_one_nil_iff (blender_version : nat)
    (bone_name_mapping : option (gmap string string)) (bones : edit_bones_t) (v : Bone) :
  graft_one blender_version bone_name_mapping bones v = []
  ↔ original_name_of bone_name_mapping (b_name v) ∈ bone_names bones
    ∨ ∀ p, b_parent v = Some p →
        original_name_of bone_name_mapping p ∉ bone_names bones.
Proof.
  unfold graft_one.
  destruct (edit_bones_contains bones (original_name_of bone_name_mapping (b_name v)))
    eqn:Hin.
  { apply edit_bones_contains_names in Hin. split; [by left|done]. }
  assert (Hout : original_name_of bone_name_mapping (b_name v) ∉ bone_names bones).
  { rewrite <- edit_bones_contains_names. by rewrite Hin. }
  destruct (b_parent v) as [p|]; [|split; [by right|done]].
  destruct (edit_bones_find bones (original_name_of bone_name_mapping p))
    as [[pr pb]|] eqn:Hfind.
  - split; [done|]. intros [?|Hp]; [done|]. exfalso. apply (Hp p eq_refl).
    apply edit_bones_find_is_Some. by rewrite Hfind.
  - split; [|done]. intros _. right. intros p' [= <-].
    rewrite <- edit_bones_find_is_Some, Hfind. by intros [? ?].
Qed.

(** The names in the rig after the grafting: those that were there, and
    restored names of source bones. *)
Lemma attach_bones_names (blender_version : nat)
    (bone_name_mapping : option (gmap string string)) (vrm_bones : list Bone)
    (bones bones' : edit_bones_t) :
  attach_bones blender_version bone_name_mapping vrm_bones bones = Ok bones' →
  (∀ name, name ∈ bone_names bones → name ∈ bone_names bones')
  ∧ (∀ name, name ∈ bone_names bones' →
       name ∈ bone_names bones
       ∨ ∃ u, u ∈ vrm_bones ∧ name = original_name_of bone_name_mapping (b_name u)).
Proof.
  revert bones. induction vrm_bones as [|v rest IH]; intros bones.
  { intros [= <-]. split; [done|]. by left. }
  rewrite attach_bones_cons. intros Hrun. destruct (IH _ Hrun) as [IHsub IHsup].
  split.
  - intros name Hin. apply IHsub. rewrite bone_names_app. apply elem_of_app. by left.
  - intros name Hin. destruct (IHsup name Hin) as [Hin'|(u & Hu & ->)].
    + rewrite bone_names_app in Hin'. apply elem_of_app in Hin' as [?|Hin']; [by left|].
      right. exists v. split; [left|].
      destruct (graft_one_fresh blender_version bone_name_mapping bones v)
        as [Hnil|[Hone _]].
      * rewrite Hnil in Hin'. by apply elem_of_nil in Hin'.
      * rewrite Hone in Hin'. by apply list_elem_of_singleton in Hin'.
    + right. exists u. split; [by right|done].
Qed.

Lemma attach_bones_nothing_to_graft (blender_version : nat)
    (bone_name_mapping : option (gmap string string)) (vrm_bones : list Bone)
    (bones : edit_bones_t) :
  (∀ v, v ∈ vrm_bones → graft_one blender_version bone_name_mapping bones v = []) →
  attach_bones blender_version bone_name_mapping vrm_bones bones = Ok bones.
Proof.
  induction vrm_bones as [|v rest IH]; intros Hnone; [done|].
  rewrite attach_bones_cons, (Hnone v), app_nil_r by left.
  apply IH. intros u Hu. apply Hnone. by right.
Qed.

(** Grafting a second time adds nothing, when the source lists no
    bone after a bone whose parent it is (by restored name): the rig
    that the first run leaves is left as it is by the second. *)
Theorem grafting_twice_adds_nothing (blender_version : nat)
    (bones : edit_bones_t) (vrm_bones : list Bone)
    (bone_name_mapping : option (gmap string string)) :
  (∀ before v after p u,
     vrm_bones = before ++ v :: after → b_parent v = Some p → u ∈ after →
     original_name_of bone_name_mapping (b_name u)
     ≠ original_name_of bone_name_mapping p) →
  ∃ bones',
    attach_unmapped_vrm_model_bones_to_rig blender_version bones vrm_bones
      bone_name_mapping = Ok bones'
    ∧ attach_unmapped_vrm_model_bones_to_rig blender_version bones' vrm_bones
        bone_name_mapping = Ok bones'.
Proof.
  intros Horder. unfold attach_unmapped_vrm_model_bones_to_rig.
  destruct (attach_bones_total blender_version bone_name_mapping vrm_bones bones)
    as [added Hrun].
  exists (bones ++ added). split; [done|].
  apply attach_bones_nothing_to_graft. intros v Hv.
  apply graft_one_nil_iff.
  destruct (decide (original_name_of bone_name_mapping (b_name v)
                    ∈ bone_names (bones ++ added))) as [|Hout]; [by left|].
  right. intros p Hp Hparent.
  apply list_elem_of_split in Hv as (before & after & ->).
  rewrite attach_bones_app in Hrun.
  destruct (attach_bones_total blender_version bone_name_mapping before bones)
    as [added1 Hrun1].
  rewrite Hrun1, bind_Ok, attach_bones_cons in Hrun.
  set (bones1 := bones ++ added1) in *.
  destruct (attach_bones_names _ _ _ _ _ Hrun) as [Hsub Hsup].
  assert (Hnil : graft_one blender_version bone_name_mapping bones1 v = []).
  { destruct (graft_one_cases blender_version bone_name_mapping bones1 v)
      as [Hnil|(p0 & pr & pb & _ & _ & Hone)]; [done|].
    exfalso. apply Hout, Hsub. rewrite bone_names_app, Hone.
    apply elem_of_app. right. unfold bone_names. cbn.
    rewrite (proj1 (grafted_fields _ _ _ _ _)). left. }
  rewrite Hnil, app_nil_r in Hrun, Hsub, Hsup.
  apply graft_one_nil_iff in Hnil as [Hin|Hnoparent].
  { apply Hout. by apply Hsub. }
  destruct (Hsup _ Hparent) as [Hin|(u & Hu & Heq)].
  - by apply (Hnoparent p Hp).
  - by apply (Horder before v after p u eq_refl Hp Hu).
Qed.

Lemma grafting_twice_adds_nothing_witness :
  let rig := [Some (mkEditBone "Spine" None (0, 0, 1)%float (0, 0, 2)%float
                      true false [] ["DEF"])] in
  let spine := mkBone "J_Bip_C_Spine" None (0, 0, 1)%float (0, 0, 2)%float in
  let tail := mkBone "J_Sec_Tail" (Some "J_Bip_C_Spine") (0, 1, 1)%float (0, 2, 1)%float in
  let tip := mkBone "J_Sec_Tip" (Some "J_Sec_Tail") (0, 2, 1)%float (0, 3, 1)%float in
  ∃ bones',
    attach_unmapped_vrm_model_bones_to_rig 4 rig [spine; tail; tip]
      (Some {["J_Bip_C_Spine" := "Spine"]}) = Ok bones'
    ∧ attach_unmapped_vrm_model_bones_to_rig 4 bones' [spine; tail; tip]
        (Some {["J_Bip_C_Spine" := "Spine"]}) = Ok bones'.
Proof.
  intros rig spine tail tip.
  apply (grafting_twice_adds_nothing 4 rig [spine; tail; tip]
           (Some {["J_Bip_C_Spine" := "Spine"]})).
  intros before v after p u Hsplit Hp Hu.
  destruct before as [|v0 [|v1 [|v2 [|v3 before]]]]; cbn in Hsplit;
    simplify_eq; cbn in Hp; simplify_eq.
  - apply list_elem_of_singleton in Hu as ->. vm_compute. discriminate.
  - by apply elem_of_nil in Hu.
Defined.

(** ** Names that the patterns match *)

Lemma strip_prefix_Some (p s rest : string) :
  strip_prefix p s = Some rest ↔ s = p +:+ rest.
Proof.
  revert s. induction p as [|a p IH]; intros s; cbn.
  - split; [by intros [= ->]|by intros ->].
  - destruct s as [|b s]; [split; discriminate|].
    case_bool_decide as Hab.
    + subst b. rewrite IH. split; [by intros ->|]. by intros [= ->].
    + split; [done|]. intros [= -> _]. done.
Qed.

(** What the ways to match are, construct by construct. *)
Lemma re_step_Lit (s : string) (st st' : nat * string) :
  st' ∈ re_step (Lit s) st
  ↔ st.2 = s +:+ st'.2 ∧ st'.1 = (st.1 + String.length s)%nat.
Proof.
  cbn [re_step]. destruct (strip_prefix s st.2) as [rest|] eqn:H.
  - rewrite list_elem_of_singleton. apply strip_prefix_Some in H. split.
    + by intros ->.
    + intros [Hs Hpos]. rewrite H in Hs. apply (inj (String.app s)) in Hs.
      destruct st'. cbn in *. by subst.
  - rewrite elem_of_nil. split; [done|]. intros [Hs _].
    apply strip_prefix_Some in Hs. congruence.
Qed.

Lemma re_step_Alt (a b : regex) (st st' : nat * string) :
  st' ∈ re_step (Alt a b) st ↔ st' ∈ re_step a st ∨ st' ∈ re_step b st.
Proof. cbn [re_step]. apply elem_of_app. Qed.

Lemma re_step_Cat (a b : regex) (st st' : nat * string) :
  st' ∈ re_step (Cat a b) st ↔ ∃ st1, st1 ∈ re_step a st ∧ st' ∈ re_step b st1.
Proof. cbn [re_step]. rewrite list_elem_of_bind. naive_solver. Qed.

Lemma re_step_Opt (a : regex) (st st' : nat * string) :
  st' ∈ re_step (Opt a) st ↔ st' ∈ re_step a st ∨ st' = st.
Proof. cbn [re_step]. by rewrite elem_of_app, list_elem_of_singleton. Qed.

Lemma re_step_Bol (st st' : nat * string) :
  st' ∈ re_step Bol st ↔ st' = st ∧ st.1 = 0%nat.
Proof.
  cbn [re_step]. case_bool_decide.
  - rewrite list_elem_of_singleton. naive_solver.
  - rewrite elem_of_nil. naive_solver.
Qed.

Lemma re_step_Eol (st st' : nat * string) :
  st' ∈ re_step Eol st ↔ st' = st ∧ (st.2 = "" ∨ st.2 = String line_feed "").
Proof.
  cbn [re_step]. case_bool_decide.
  - rewrite list_elem_of_singleton. naive_solver.
  - rewrite elem_of_nil. naive_solver.
Qed.

Lemma re_match_true (pattern : regex) (s : string) :
  re_match pattern s = true ↔ ∃ st', st' ∈ re_step pattern (0%nat, s).
Proof.
  unfold re_match. rewrite negb_true_iff, bool_decide_eq_false.
  destruct (re_step pattern (0%nat, s)) as [|st l].
  - split; [done|]. intros [st' H]. by apply elem_of_nil in H.
  - split; [|done]. intros _. exists st. left.
Qed.

Lemma re_match_side_pattern (stem name : string) :
  re_match (cat [Bol; Lit stem; l_r; Eol]) name = true ↔ name ∈ side_names [stem].
Proof.
  rewrite re_match_true. cbn [cat]. unfold side_names, l_r.
  setoid_rewrite re_step_Cat. setoid_rewrite re_step_Bol.
  setoid_rewrite re_step_Cat. setoid_rewrite re_step_Lit.
  setoid_rewrite re_step_Cat. setoid_rewrite re_step_Alt.
  setoid_rewrite re_step_Lit. setoid_rewrite re_step_Eol.
  rewrite list_elem_of_bind. setoid_rewrite list_elem_of_bind.
  setoid_rewrite list_elem_of_bind. setoid_rewrite list_elem_of_singleton.
  split.
  - intros (st' & st1 & [H1 _] & st2 & [Hstem _] & st3 & [[Hside _]|[Hside _]]
            & H3 & [Heol|Heol]); subst st1 st'; cbn [fst snd] in *; subst name;
      exists stem; (split; [|done]).
    + exists "L". split; [|left]. exists "". split; [|left].
      by rewrite Hside, Heol.
    + exists "L". split; [|left]. exists (String line_feed ""). split; [|right; left].
      by rewrite Hside, Heol.
    + exists "R". split; [|right; left]. exists "". split; [|left].
      by rewrite Hside, Heol.
    + exists "R". split; [|right; left]. exists (String line_feed "").
      split; [|right; left]. by rewrite Hside, Heol.
  - intros (stem' & (side & (eol & Hname & Heol) & Hside) & Hstem).
    subst stem' name.
    assert (Hside' : side = "L" ∨ side = "R").
    { apply elem_of_cons in Hside as [?|Hside]; [by left|].
      apply list_elem_of_singleton in Hside. by right. }
    assert (Heol' : eol = "" ∨ eol = String line_feed "").
    { apply elem_of_cons in Heol as [?|Heol]; [by left|].
      apply list_elem_of_singleton in Heol. by right. }
    exists ((String.length stem + 1)%nat, eol), (0%nat, stem +:+ side +:+ eol).
    split; [done|]. exists (String.length stem, side +:+ eol). split; [done|].
    exists ((String.length stem + 1)%nat, eol). split; [|done].
    destruct Hside' as [-> | ->]; [left|right]; done.
Qed.

(** ** The rotation axes of the template's limbs *)

Lemma enumerate_elem {A} (l : list A) (i : nat) (x : A) :
  (i, x) ∈ enumerate l ↔ l !! i = Some x.
Proof.
  unfold enumerate. rewrite list_elem_of_lookup. setoid_rewrite enumerate_from_lookup.
  split.
  - intros [j Hj]. destruct (l !! j) eqn:Hl; [|done]. cbn in Hj. by simplify_eq.
  - intros Hi. exists i. by rewrite Hi.
Qed.

Lemma enumerate_NoDup {A} (l : list A) : NoDup (enumerate l).*1.
Proof.
  unfold enumerate. generalize 0.
  induction l as [|x l IH]; intros s; cbn [enumerate_from]; [constructor|].
  rewrite fmap_cons. apply NoDup_cons. split; [|apply IH]. cbn.
  intros Hin. apply list_elem_of_fmap in Hin as ([j y] & -> & Hin).
  apply list_elem_of_lookup in Hin as [k Hk]. rewrite enumerate_from_lookup in Hk.
  destruct (l !! k); [|done]. cbn in Hk. simplify_eq. lia.
Qed.

Lemma side_names_cons (stem : string) (stems : list string) (name : string) :
  name ∈ side_names (stem :: stems) ↔ name ∈ side_names [stem] ∨ name ∈ side_names stems.
Proof.
  unfold side_names. cbn [mbind list_bind]. rewrite !app_nil_r.
  by rewrite elem_of_app.
Qed.

Lemma matche_pose_bones_elem (pose_bones : list PoseBone) (stems : list string)
    (i : nat) (b : PoseBone) :
  (i, b) ∈ matche_pose_bones_by_name_patterns (enumerate pose_bones)
             ((fun stem => cat [Bol; Lit stem; l_r; Eol]) <$> stems)
  ↔ pose_bones !! i = Some b ∧ pb_name b ∈ side_names stems.
Proof.
  unfold matche_pose_bones_by_name_patterns.
  rewrite list_elem_of_filter, enumerate_elem, foldl_orb_existsb. cbn [orb snd].
  enough (H : existsb (fun pattern => re_match pattern (pb_name b))
                ((fun stem => cat [Bol; Lit stem; l_r; Eol]) <$> stems) = true
              ↔ pb_name b ∈ side_names stems) by tauto.
  induction stems as [|stem stems IH].
  - cbn. split; [done|]. intros H. by apply elem_of_nil in H.
  - rewrite fmap_cons, side_names_cons. cbn [existsb].
    rewrite orb_true_iff, IH, re_match_side_pattern. done.
Qed.

Lemma pose_bones_update_fold (g : PoseBone → PoseBone → PoseBone)
    (l : list (nat * PoseBone)) (pose_bones : list PoseBone) :
  NoDup (l.*1) →
  (∀ i b, (i, b) ∈ l → pose_bones !! i = Some b) →
  let res := foldl (fun bs (bone : nat * PoseBone) =>
                      pose_bones_update bs bone.1 (g bone.2)) pose_bones l in
  length res = length pose_bones
  ∧ ∀ i, (i ∉ l.*1 → res !! i = pose_bones !! i)
         ∧ (∀ b, (i, b) ∈ l → res !! i = Some (g b b)).
Proof.
  revert pose_bones. induction l as [|[i0 b0] l IH]; intros pose_bones Hnd Hlive res.
  { split; [done|]. intros i. split; [done|]. intros b H. by apply elem_of_nil in H. }
  rewrite fmap_cons in Hnd. apply NoDup_cons in Hnd as [Hi0 Hnd]. cbn [fst] in Hi0.
  subst res. cbn [foldl fst snd].
  assert (H0 : pose_bones !! i0 = Some b0) by (apply Hlive; left).
  assert (Hupd : pose_bones_update pose_bones i0 (g b0) = <[i0 := g b0 b0]> pose_bones)
    by (unfold pose_bones_update; by rewrite H0).
  rewrite Hupd.
  assert (Hlt : (i0 < length pose_bones)%nat) by by eapply lookup_lt_Some.
  destruct (IH (<[i0 := g b0 b0]> pose_bones) Hnd) as [IHlen IHi].
  { intros i b Hin. rewrite list_lookup_insert_ne; [apply Hlive; by right|].
    intros <-. apply Hi0. apply list_elem_of_fmap. by exists (i0, b). }
  split; [by rewrite IHlen, length_insert|]. intros i.
  destruct (IHi i) as [IHout IHin]. split.
  - intros Hi. rewrite fmap_cons, not_elem_of_cons in Hi. destruct Hi as [Hne Hi].
    cbn in Hne. by rewrite (IHout Hi), list_lookup_insert_ne.
  - intros b Hin. apply elem_of_cons in Hin as [[= -> ->]|Hin]; [|by apply IHin].
    by rewrite (IHout Hi0), list_lookup_insert_eq.
Qed.

(** [Modify_metarig_limb_rotation_axes] by names.  The rotation
    axis becomes ['x'] for the pose bones called [upper_arm.L],
    [upper_arm.R], [thigh.L] or [thigh.R], or so with a line feed at the
    end, and for no other bone.  The primary rotation axis becomes ['Z']
    for the first segments of the five fingers whose name ends in [L],
    and ['-Z'] for the other names the finger patterns match: those of
    the right hand, and those with a line feed at the end. *)
Theorem limb_rotation_axes_by_name (pose_bones : list PoseBone) :
  let pose_bones' := Modify_metarig_limb_rotation_axes pose_bones in
  length pose_bones' = length pose_bones
  ∧ ∀ i b, pose_bones !! i = Some b →
      ∃ b', pose_bones' !! i = Some b'
        ∧ pb_name b' = pb_name b
        ∧ rotation_axis b'
          = (if bool_decide (pb_name b ∈ side_names ["upper_arm."; "thigh."])
             then "x" else rotation_axis b)
        ∧ primary_rotation_axis b'
          = (if bool_decide (pb_name b ∈ side_names ["f_pinky.01."; "f_ring.01.";
                                                    "f_middle.01."; "f_index.01.";
                                                    "thumb.01."])
             then if endswith (pb_name b) "L" then "Z" else "-Z"
             else primary_rotation_axis b).
Proof.
  intros pose_bones'. subst pose_bones'. unfold Modify_metarig_limb_rotation_axes.
  change limb_bones
    with ((fun stem => cat [Bol; Lit stem; l_r; Eol]) <$> ["upper_arm."; "thigh."]).
  change finger_bones
    with ((fun stem => cat [Bol; Lit stem; l_r; Eol])
            <$> ["f_pinky.01."; "f_ring.01."; "f_middle.01."; "f_index.01."; "thumb.01."]).
  set (limbs := ["upper_arm."; "thigh."]).
  set (fingers := ["f_pinky.01."; "f_ring.01."; "f_middle.01."; "f_index.01."; "thumb.01."]).
  destruct (pose_bones_update_fold (fun _ => set_rotation_axis "x")
              (matche_pose_bones_by_name_patterns (enumerate pose_bones)
                 ((fun stem => cat [Bol; Lit stem; l_r; Eol]) <$> limbs)) pose_bones)
    as [Hlen1 Hstep1].
  { apply filter_fst_NoDup, enumerate_NoDup. }
  { intros i b Hin. by apply matche_pose_bones_elem in Hin as [? _]. }
  set (pose_bones1 := foldl _ pose_bones _) in *.
  destruct (pose_bones_update_fold
              (fun bone => set_primary_rotation_axis
                             (if endswith (pb_name bone) "L" then "Z" else "-Z"))
              (matche_pose_bones_by_name_patterns (enumerate pose_bones1)
                 ((fun stem => cat [Bol; Lit stem; l_r; Eol]) <$> fingers)) pose_bones1)
    as [Hlen2 Hstep2].
  { apply filter_fst_NoDup, enumerate_NoDup. }
  { intros i b Hin. by apply matche_pose_bones_elem in Hin as [? _]. }
  split; [congruence|]. intros i b Hb.
  assert (H1 : pose_bones1 !! i
               = Some (if bool_decide (pb_name b ∈ side_names limbs)
                       then set_rotation_axis "x" b else b)).
  { destruct (Hstep1 i) as [Hout Hin]. case_bool_decide as Hlimb.
    - apply Hin, matche_pose_bones_elem. done.
    - rewrite Hout; [done|]. intros Hi. apply list_elem_of_fmap in Hi as ([j b1] & -> & Hi).
      apply matche_pose_bones_elem in Hi as [Hj Hname]. cbn [fst] in Hb.
      rewrite Hj in Hb. by injection Hb as <-. }
  set (b1 := if bool_decide (pb_name b ∈ side_names limbs)
             then set_rotation_axis "x" b else b) in *.
  assert (Hname1 : pb_name b1 = pb_name b) by (unfold b1; by case_bool_decide).
  destruct (Hstep2 i) as [Hout Hin].
  destruct (decide (pb_name b ∈ side_names fingers)) as [Hfinger|Hfinger].
  - eexists. split.
    + apply (Hin b1), matche_pose_bones_elem. split; [exact H1|]. by rewrite Hname1.
    + cbn [pb_name rotation_axis primary_rotation_axis set_primary_rotation_axis].
      rewrite Hname1, (bool_decide_eq_true_2 _ Hfinger).
      split; [done|]. split; [|done]. unfold b1. by case_bool_decide.
  - exists b1. split.
    + rewrite Hout; [done|]. intros Hi.
      apply list_elem_of_fmap in Hi as ([j b2] & -> & Hi).
      apply matche_pose_bones_elem in Hi as [Hj Hname]. cbn [fst] in H1.
      rewrite H1 in Hj. injection Hj as <-. by rewrite Hname1 in Hname.
    + rewrite (bool_decide_eq_false_2 _ Hfinger). split; [done|].
      unfold b1. by case_bool_decide.
Qed.

(** ** The path of a bone *)

Lemma string_app_assoc (a b c : string) : (a +:+ b) +:+ c = a +:+ (b +:+ c).
Proof.
  induction a as [|x a IH]; [done|].
  change (String x ((a +:+ b) +:+ c) = String x (a +:+ (b +:+ c))). by rewrite IH.
Qed.

Lemma str_join_snoc (sep : string) (l : list string) (x y : string) :
  str_join sep ((l ++ [x]) ++ [y]) = str_join sep (l ++ [x]) +:+ sep +:+ y.
Proof.
  induction l as [|s l IH]; [done|].
  cbn [app str_join]. destruct (l ++ [x]) as [|z l'] eqn:Hl.
  { by destruct l. }
  cbn [app]. cbn [app] in IH. rewrite IH. by rewrite !string_app_assoc.
Qed.

(** A walk that has come to its end does not need more steps. *)
Lemma parent_recursive_from_enough (fuel fuel' : nat) (bones : edit_bones_t)
    (parent : option nat) :
  chain_ends fuel bones parent = true → (fuel ≤ fuel')%nat →
  parent_recursive_from fuel' bones parent = parent_recursive_from fuel bones parent.
Proof.
  revert fuel' parent. induction fuel as [|fuel IH]; intros fuel' parent Hends Hle.
  - cbn in Hends. destruct fuel'; cbn; [done|].
    by destruct (parent ≫= deref bones).
  - destruct fuel' as [|fuel']; [lia|].
    cbn [parent_recursive_from]. cbn [chain_ends] in Hends.
    destruct (parent ≫= deref bones) as [p|]; [|done]. f_equal.
    apply IH; [done|lia].
Qed.

(** In an armature without cycles, the path of a bone that has a
    parent is the path of the parent, a slash and the name of the bone;
    the path of a bone without a parent is its name. *)
Theorem full_bone_path_extends_parent_path (bones : edit_bones_t)
    (r : nat) (b : EditBone) :
  acyclic bones = true →
  deref bones r = Some b →
  match eb_parent b ≫= deref bones with
  | Some parent_bone =>
      get_full_bone_path bones b
      = get_full_bone_path bones parent_bone +:+ "/" +:+ eb_name b
  | None => get_full_bone_path bones b = eb_name b
  end.
Proof.
  intros Hacyclic Hb. unfold get_full_bone_path, parent_recursive.
  pose proof (acyclic_chain_ends bones r b Hacyclic Hb) as Hends.
  destruct (length bones) as [|n] eqn:Hlen.
  { destruct bones; [|done]. by destruct r. }
  cbn [chain_ends] in Hends.
  change (parent_recursive_from (S n) bones (eb_parent b))
    with (match eb_parent b ≫= deref bones with
          | Some p => p :: parent_recursive_from n bones (eb_parent p)
          | None => []
          end).
  destruct (eb_parent b ≫= deref bones) as [pb|] eqn:Hparent; [|done].
  rewrite (parent_recursive_from_enough n (S n) bones (eb_parent pb) Hends) by lia.
  rewrite reverse_cons, !fmap_app. cbn [fmap list_fmap].
  apply str_join_snoc.
Qed.

Lemma full_bone_path_extends_parent_path_witness :
  let root := mkEditBone "root" None zero3 zero3 false false [] [] in
  let spine := mkEditBone "spine" (Some 0) zero3 zero3 true false [] [] in
  let chest := mkEditBone "chest" (Some 1) zero3 zero3 true false [] [] in
  get_full_bone_path [Some root; Some spine; Some chest] chest
  = get_full_bone_path [Some root; Some spine; Some chest] spine +:+ "/" +:+ "chest"
  ∧ get_full_bone_path [Some root; Some spine; Some chest] chest = "root/spine/chest".
Proof.
  intros root spine chest. split; [|reflexivity].
  apply (full_bone_path_extends_parent_path [Some root; Some spine; Some chest] 2 chest);
    reflexivity.
Defined.

(** ** The palm pattern *)

Lemma re_step_DotStar (st st' : nat * string) :
  st' ∈ re_step DotStar st
  ↔ ∃ taken, st.2 = taken +:+ st'.2 ∧ has_line_feed taken = false
      ∧ st'.1 = (st.1 + String.length taken)%nat.
Proof.
  cbn [re_step]. destruct st as [pos s]. cbn [fst snd]. revert pos.
  induction s as [|c s IH]; intros pos; cbn [dot_star].
  - rewrite list_elem_of_singleton. split.
    + intros ->. exists "". split; [reflexivity|]. split; [reflexivity|]. cbn. lia.
    + intros (taken & Hs & _ & Hpos). destruct taken; [|done]. cbn in *.
      destruct st'. unfold append in Hs. cbn in *. subst. by rewrite Nat.add_0_r.
  - case_bool_decide as Hc.
    + rewrite list_elem_of_singleton. split.
      * intros ->. exists "". split; [reflexivity|]. split; [reflexivity|]. cbn. lia.
      * intros (taken & Hs & Hlf & Hpos). destruct taken as [|c' taken].
        -- destruct st'. unfold append in Hs. cbn in *. subst. by rewrite Nat.add_0_r.
        -- exfalso. injection Hs as <- _. cbn in Hlf.
           by rewrite bool_decide_eq_true_2 in Hlf.
    + rewrite elem_of_app, list_elem_of_singleton, IH. split.
      * intros [(taken & Hs & Hlf & Hpos)| ->].
        -- exists (String c taken). split; [by rewrite Hs|]. split.
           ++ cbn. by rewrite bool_decide_eq_false_2.
           ++ cbn. lia.
        -- exists "". split; [reflexivity|]. split; [reflexivity|]. cbn. lia.
      * intros (taken & Hs & Hlf & Hpos). destruct taken as [|c' taken].
        -- right. destruct st'. unfold append in Hs. cbn in *. subst. by rewrite Nat.add_0_r.
        -- left. injection Hs as <- Hs. exists taken. split; [done|]. split.
           ++ cbn in Hlf. by apply orb_false_iff in Hlf as [_ ?].
           ++ cbn in Hpos. lia.
Qed.

Lemma dot_star_dollar_true (s : string) :
  dot_star_dollar s = true
  ↔ ∃ rest eol, s = rest +:+ eol ∧ has_line_feed rest = false
      ∧ (eol = "" ∨ eol = String line_feed "").
Proof.
  induction s as [|c s IH]; cbn [dot_star_dollar].
  - split; [|done]. intros _. exists "", "". auto.
  - case_bool_decide as Hc.
    + rewrite bool_decide_eq_true. split.
      * intros ->. exists "", (String line_feed ""). subst c. auto.
      * intros (rest & eol & Hs & Hlf & Heol). destruct rest as [|c' rest].
        -- cbn in Hs. destruct Heol as [-> | ->]; [done|]. by injection Hs.
        -- exfalso. injection Hs as <- _. cbn in Hlf.
           by rewrite bool_decide_eq_true_2 in Hlf.
    + rewrite IH. split.
      * intros (rest & eol & -> & Hlf & Heol). exists (String c rest), eol.
        split; [done|]. split; [|done]. cbn. by rewrite bool_decide_eq_false_2.
      * intros (rest & eol & Hs & Hlf & Heol). destruct rest as [|c' rest].
        -- cbn in Hs. destruct Heol as [-> | ->]; [done|]. injection Hs as -> _. done.
        -- injection Hs as <- ->. exists rest, eol. split; [done|]. split; [|done].
           cbn in Hlf. by apply orb_false_iff in Hlf as [_ ?].
Qed.

(** The test [re_match_palm] of the pruner is the pattern
    [^palm.*$] under the matcher of regular expressions, and it holds of
    the names that consist of [palm], any characters other than a line
    feed, and possibly a line feed at the end. *)
Theorem palm_pattern_names (name : string) :
  re_match (cat [Bol; Lit "palm"; DotStar; Eol]) name = re_match_palm name
  ∧ (re_match_palm name = true
     ↔ ∃ rest eol, name = "palm" +:+ rest +:+ eol ∧ has_line_feed rest = false
         ∧ (eol = "" ∨ eol = String line_feed "")).
Proof.
  assert (Hpalm : re_match_palm name = true
            ↔ ∃ rest eol, name = "palm" +:+ rest +:+ eol ∧ has_line_feed rest = false
                ∧ (eol = "" ∨ eol = String line_feed "")).
  { unfold re_match_palm. destruct (strip_prefix "palm" name) as [s|] eqn:Hs.
    - apply strip_prefix_Some in Hs as ->. rewrite dot_star_dollar_true. split.
      + intros (rest & eol & -> & H). by exists rest, eol.
      + intros (rest & eol & Hs & H). apply (inj (append "palm")) in Hs.
        by exists rest, eol.
    - split; [done|]. intros (rest & eol & -> & _).
      by rewrite (proj2 (strip_prefix_Some "palm" _ (rest +:+ eol)) eq_refl) in Hs. }
  split; [|done].
  apply eq_true_iff_eq. rewrite Hpalm, re_match_true. cbn [cat].
  setoid_rewrite re_step_Cat. setoid_rewrite re_step_Bol.
  setoid_rewrite re_step_Cat. setoid_rewrite re_step_Lit.
  setoid_rewrite re_step_Cat. setoid_rewrite re_step_DotStar.
  setoid_rewrite re_step_Eol. split.
  - intros (st' & st1 & [H1 _] & st2 & [Hlit _] & st3 & (taken & Htaken & Hlf & _)
            & H3 & Heol).
    subst st1 st'. cbn [fst snd] in *. exists taken, st3.2.
    split; [by rewrite Hlit, Htaken|done].
  - intros (rest & eol & -> & Hlf & Heol).
    exists ((4 + String.length rest)%nat, eol), (0%nat, "palm" +:+ rest +:+ eol).
    split; [done|]. exists (4%nat, rest +:+ eol). split; [done|].
    exists ((4 + String.length rest)%nat, eol). split; [|done].
    exists rest. done.
Qed.
